(** * School Equipment Lending Portal: the inventory-reservation engine

    A shallow embedding of the server-side lending logic:
    - the Mongoose schemas [Equipment] and [Borrowing] (models/Equipment.js,
      models/Borrowing.js), with their validators and [pre('save')] hooks;
    - the route handlers of routes/borrowings.js and routes/equipment.js;
    - the two periodic sweeps of utils/overdueChecker.js.

    Collections are lists of documents; the [_id] of a document is its
    position in the collection (no handler ever removes a document, so ids
    are stable).  JavaScript numbers are embedded as [Z] (quantities are
    integers), dates as [Z] timestamps, and [new Date()] is the [now]
    argument every handler takes.  Strings are UTF-8.  The stored Equipment
    record leaves out the paths no handler computes with (name,
    description, category, location, images, timestamps); the request
    bodies keep what the validators and the casts of Mongoose read of
    them. *)

From stdpp Require Import base decidable option list strings.
From Stdlib Require Import ZArith Lia.

Local Open Scope string_scope.
Local Open Scope Z_scope.

(** ** Schemas *)

(** [status] enum of models/Borrowing.js. *)
Inductive Status : Type :=
  | pending | approved | rejected | issued | returned | overdue.

#[global] Instance Status_eq_dec : EqDecision Status.
Proof. solve_decision. Defined.

(** [damageReport.repairStatus] enum of models/Borrowing.js. *)
Inductive RepairStatus : Type :=
  | reported | under_repair | repaired | written_off.

#[global] Instance RepairStatus_eq_dec : EqDecision RepairStatus.
Proof. solve_decision. Defined.

(** Conditions are strings in the source; the request body of the return
    route carries an arbitrary one, only [save()] checks it against the enum. *)
Definition borrowingConditions : list string :=
  ["excellent"; "good"; "fair"; "poor"].

Definition equipmentConditions : list string :=
  ["excellent"; "good"; "fair"; "poor"; "under_maintenance"].

Definition isIn (x : string) (enum : list string) : bool :=
  bool_decide (x ∈ enum).

Definition status_in (st : Status) (sts : list Status) : bool :=
  bool_decide (st ∈ sts).

Module Equipment.

(** Persisted fields of models/Equipment.js. *)
Record t : Type := mk {
  quantity : Z;
  availableQuantity : Z;
  condition : string;
  isActive : bool
}.

Definition set_quantity (q : Z) (e : t) : t :=
  mk q (availableQuantity e) (condition e) (isActive e).
Definition set_availableQuantity (a : Z) (e : t) : t :=
  mk (quantity e) a (condition e) (isActive e).
Definition set_condition (c : string) (e : t) : t :=
  mk (quantity e) (availableQuantity e) c (isActive e).
Definition set_isActive (b : bool) (e : t) : t :=
  mk (quantity e) (availableQuantity e) (condition e) b.

(** Schema validators: [quantity: min 0], [availableQuantity: min 0],
    [condition: enum]. *)
Definition validate (e : t) : bool :=
  (0 <=? quantity e) && (0 <=? availableQuantity e)
  && isIn (condition e) equipmentConditions.

(** An in-memory document: the persisted fields plus Mongoose's
    [isNew], [isModified('quantity')] and the ad-hoc property
    [_originalQuantity] the hooks stash on the object. *)
Record doc : Type := mkdoc {
  fields : t;
  isNew : bool;
  isModified_quantity : bool;
  _originalQuantity : option Z
}.

(** A document as [findById]/[find] returns it. *)
Definition loaded (e : t) : doc := mkdoc e false false None.

(** [this._originalQuantity || this.quantity]: [undefined] and [0] are falsy. *)
Definition originalQuantity_or_quantity (d : doc) : Z :=
  match _originalQuantity d with
  | Some o => if o =? 0 then quantity (fields d) else o
  | None => quantity (fields d)
  end.

(** First [equipmentSchema.pre('save')] hook. *)
Definition pre_save_adjust (d : doc) : doc :=
  if isNew d then
    mkdoc (set_availableQuantity (quantity (fields d)) (fields d))
          (isNew d) (isModified_quantity d) (_originalQuantity d)
  else if isModified_quantity d then
    let oldQuantity := originalQuantity_or_quantity d in
    let quantityDiff := quantity (fields d) - oldQuantity in
    mkdoc (set_availableQuantity
             (Z.max 0 (availableQuantity (fields d) + quantityDiff)) (fields d))
          (isNew d) (isModified_quantity d) (_originalQuantity d)
  else d.

(** Second [equipmentSchema.pre('save')] hook. *)
Definition pre_save_store_original (d : doc) : doc :=
  if isModified_quantity d then
    mkdoc (fields d) (isNew d) (isModified_quantity d)
          (Some (originalQuantity_or_quantity d))
  else d.

(** [doc.quantity = q] on an in-memory document. *)
Definition assign_quantity (q : Z) (d : doc) : doc :=
  mkdoc (set_quantity q (fields d)) (isNew d)
        (isNew d || isModified_quantity d
         || negb (q =? quantity (fields d)))
        (_originalQuantity d).

(** [doc.availableQuantity = a] on an in-memory document. *)
Definition assign_availableQuantity (a : Z) (d : doc) : doc :=
  mkdoc (set_availableQuantity a (fields d)) (isNew d)
        (isModified_quantity d) (_originalQuantity d).

End Equipment.

Module DamageReport.

(** The nested path [damageReport] of models/Borrowing.js.  It is part of
    every document: [repairStatus] has a default, the other three paths
    are unset until a handler assigns them. *)
Record t : Type := mk {
  description : option string;
  reportedAt : option Z;
  reportedBy : option nat;
  repairStatus : RepairStatus
}.

(** What [new Borrowing({...})] puts there when the constructor is given
    no [damageReport]: [{ repairStatus: 'reported' }]. *)
Definition initial : t := mk None None None reported.

End DamageReport.

Module Borrowing.

(** Persisted fields of models/Borrowing.js.  [notes] holds what the
    [trim] setter of the schema left of the assigned string. *)
Record t : Type := mk {
  user : nat;
  equipment : nat;
  quantity : Z;
  borrowDate : Z;
  dueDate : Z;
  returnDate : option Z;
  status : Status;
  approvedBy : option nat;
  approvedAt : option Z;
  issuedAt : option Z;
  conditionBefore : string;
  conditionAfter : option string;
  notes : option string;
  damageReport : DamageReport.t
}.

Definition set_status (x : Status) (b : t) : t :=
  mk (user b) (equipment b) (quantity b) (borrowDate b) (dueDate b)
     (returnDate b) x (approvedBy b) (approvedAt b) (issuedAt b)
     (conditionBefore b) (conditionAfter b) (notes b) (damageReport b).
Definition set_approvedBy (x : option nat) (b : t) : t :=
  mk (user b) (equipment b) (quantity b) (borrowDate b) (dueDate b)
     (returnDate b) (status b) x (approvedAt b) (issuedAt b)
     (conditionBefore b) (conditionAfter b) (notes b) (damageReport b).
Definition set_approvedAt (x : option Z) (b : t) : t :=
  mk (user b) (equipment b) (quantity b) (borrowDate b) (dueDate b)
     (returnDate b) (status b) (approvedBy b) x (issuedAt b)
     (conditionBefore b) (conditionAfter b) (notes b) (damageReport b).
Definition set_issuedAt (x : option Z) (b : t) : t :=
  mk (user b) (equipment b) (quantity b) (borrowDate b) (dueDate b)
     (returnDate b) (status b) (approvedBy b) (approvedAt b) x
     (conditionBefore b) (conditionAfter b) (notes b) (damageReport b).
Definition set_returnDate (x : option Z) (b : t) : t :=
  mk (user b) (equipment b) (quantity b) (borrowDate b) (dueDate b)
     x (status b) (approvedBy b) (approvedAt b) (issuedAt b)
     (conditionBefore b) (conditionAfter b) (notes b) (damageReport b).
Definition set_conditionAfter (x : option string) (b : t) : t :=
  mk (user b) (equipment b) (quantity b) (borrowDate b) (dueDate b)
     (returnDate b) (status b) (approvedBy b) (approvedAt b) (issuedAt b)
     (conditionBefore b) x (notes b) (damageReport b).
Definition set_notes (x : option string) (b : t) : t :=
  mk (user b) (equipment b) (quantity b) (borrowDate b) (dueDate b)
     (returnDate b) (status b) (approvedBy b) (approvedAt b) (issuedAt b)
     (conditionBefore b) (conditionAfter b) x (damageReport b).
Definition set_damageReport (x : DamageReport.t) (b : t) : t :=
  mk (user b) (equipment b) (quantity b) (borrowDate b) (dueDate b)
     (returnDate b) (status b) (approvedBy b) (approvedAt b) (issuedAt b)
     (conditionBefore b) (conditionAfter b) (notes b) x.

(** Schema validators: [quantity: min 1] and the two condition enums
    (a path that is unset is not validated). *)
Definition validate (b : t) : bool :=
  (1 <=? quantity b)
  && isIn (conditionBefore b) borrowingConditions
  && match conditionAfter b with
     | Some c => isIn c borrowingConditions
     | None => true
     end.

End Borrowing.

(** ** The database, responses and the handler monad *)

Record Store : Type := mkStore {
  equipments : list Equipment.t;
  borrowings : list Borrowing.t
}.

Definition set_equipments (es : list Equipment.t) (s : Store) : Store :=
  mkStore es (borrowings s).
Definition set_borrowings (bs : list Borrowing.t) (s : Store) : Store :=
  mkStore (equipments s) bs.

Inductive Json : Type :=
  | JBorrowing (b : Borrowing.t)
  | JEquipment (e : Equipment.t)
  | JMessage (message : string)
  | JErrors (errors : list string)
  | JValidation (message : string).

(** [res.status(code).json(body)]; [res.json(body)] is status 200. *)
Record Response : Type := mkResponse { code : Z; body : Json }.

Inductive ErrorName : Type :=
  | ValidationError | CastError | MongoServerError | TypeError.

(** How a piece of handler code ends: it falls through with a value, it
    executes [return res...json(...)], or it throws.  Writes made before a
    throw stay in the store. *)
Inductive Outcome (A : Type) : Type :=
  | Done (a : A)
  | Replied (r : Response)
  | Thrown (err : ErrorName).
Arguments Done {A} a.
Arguments Replied {A} r.
Arguments Thrown {A} err.

Definition M (A : Type) : Type := Store → Store * Outcome A.

Definition ret {A} (a : A) : M A := λ s, (s, Done a).
Definition reply {A} (c : Z) (j : Json) : M A := λ s, (s, Replied (mkResponse c j)).
Definition throw {A} (err : ErrorName) : M A := λ s, (s, Thrown err).
Definition bind {A B} (m : M A) (k : A → M B) : M B := λ s,
  match m s with
  | (s', Done a) => k a s'
  | (s', Replied r) => (s', Replied r)
  | (s', Thrown err) => (s', Thrown err)
  end.

Declare Scope handler_scope.
Delimit Scope handler_scope with handler.
Notation "'let!' x := m 'in' k" := (bind m (λ x, k))
  (at level 10, x name, m at level 100, k at level 200) : handler_scope.
Notation "m ;; k" := (bind m (λ _, k))
  (at level 100, k at level 200, right associativity) : handler_scope.
Local Open Scope handler_scope.

(** [if (c) return res.status(code).json(j)]. *)
Definition reply_if (c : bool) (cd : Z) (j : Json) : M unit :=
  if c then reply cd j else ret tt.

(** [try { ... } catch (error) { res.status(500).json({message: 'Server error'}) }]. *)
Definition catch_500 (m : M Response) : Store → Store * Response := λ s,
  match m s with
  | (s', Done r) => (s', r)
  | (s', Replied r) => (s', r)
  | (s', Thrown _) => (s', mkResponse 500 (JMessage "Server error"))
  end.

(** The catch block of routes/equipment.js answers 400 to a ValidationError. *)
Definition catch_validation (m : M Response) : Store → Store * Response := λ s,
  match m s with
  | (s', Done r) => (s', r)
  | (s', Replied r) => (s', r)
  | (s', Thrown ValidationError) => (s', mkResponse 400 (JValidation "Validation error"))
  | (s', Thrown _) => (s', mkResponse 500 (JMessage "Server error"))
  end.

(** ** Model operations *)

(** [Borrowing.findById(id)]. *)
Definition Borrowing_findById (id : nat) : M (option Borrowing.t) := λ s,
  (s, Done (borrowings s !! id)).

(** [Equipment.findById(id)]. *)
Definition Equipment_findById (id : nat) : M (option Equipment.t) := λ s,
  (s, Done (equipments s !! id)).

(** [Equipment.findById(borrowing.equipment._id)] after [populate('equipment')]:
    when the referenced document is missing, [borrowing.equipment] is null and
    reading [._id] throws. *)
Definition Equipment_of_populated (b : Borrowing.t) : M Equipment.t := λ s,
  match equipments s !! Borrowing.equipment b with
  | Some e => (s, Done e)
  | None => (s, Thrown TypeError)
  end.

(** [doc.save()] on an Equipment document: built-in validation first, then
    the two schema hooks, then the write.  A new document is inserted at
    the next free position ([id] is not read); an existing one is written
    at [id].  The result is the in-memory document after the hooks ran. *)
Definition Equipment_save (id : nat) (d : Equipment.doc) : M Equipment.t := λ s,
  if Equipment.validate (Equipment.fields d) then
    let d' := Equipment.pre_save_store_original (Equipment.pre_save_adjust d) in
    if Equipment.isNew d
    then (set_equipments (equipments s ++ [Equipment.fields d']) s,
          Done (Equipment.fields d'))
    else (set_equipments (<[id := Equipment.fields d']> (equipments s)) s,
          Done (Equipment.fields d'))
  else (s, Thrown ValidationError).

(** [doc.save()] on an Equipment document whose write MongoDB refuses:
    validation comes first, the write then throws. *)
Definition Equipment_save_refused (d : Equipment.doc) : M Equipment.t := λ s,
  if Equipment.validate (Equipment.fields d)
  then (s, Thrown MongoServerError)
  else (s, Thrown ValidationError).

(** [doc.save()] on an existing Borrowing document. *)
Definition Borrowing_save (id : nat) (b : Borrowing.t) : M unit := λ s,
  if Borrowing.validate b
  then (set_borrowings (<[id := b]> (borrowings s)) s, Done tt)
  else (s, Thrown ValidationError).

(** [doc.save()] on a document one of whose assignments could not be cast
    ([cast_ok] is false): validation reports the cast error and nothing is
    written. *)
Definition save_cast {A} (cast_ok : bool) (save : M A) : M A :=
  if cast_ok then save else throw ValidationError.

(** [new Borrowing({...}).save()]. *)
Definition Borrowing_insert (b : Borrowing.t) : M unit := λ s,
  if Borrowing.validate b
  then (set_borrowings (borrowings s ++ [b]) s, Done tt)
  else (s, Thrown ValidationError).

(** [Model.find(query)]: the matching documents with their ids, in
    collection order. *)
Definition find_in {A} (query : nat → A → bool) (coll : list A) : list (nat * A) :=
  List.filter (λ p, query p.1 p.2) (imap pair coll).

Definition Borrowing_find (query : Borrowing.t → bool) : M (list (nat * Borrowing.t)) :=
  λ s, (s, Done (find_in (λ _, query) (borrowings s))).

Definition Borrowing_findOne (query : Borrowing.t → bool) : M (option (nat * Borrowing.t)) :=
  λ s, (s, Done (head (find_in (λ _, query) (borrowings s)))).

Definition Equipment_find (query : Equipment.t → bool) : M (list (nat * Equipment.t)) :=
  λ s, (s, Done (find_in (λ _, query) (equipments s))).

(** [for (const x of l) { body }]. *)
Fixpoint for_each {A} (l : list A) (body : A → M unit) : M unit :=
  match l with
  | [] => ret tt
  | x :: l' => body x ;; for_each l' body
  end.

(** ** JavaScript strings and request values *)

Definition truthy (x : option string) : bool :=
  match x with
  | Some s => negb (String.eqb s EmptyString)
  | None => false
  end.

(** [x || d] with [d] a string. *)
Definition or_string (x : option string) (d : string) : string :=
  match x with
  | Some s => if truthy x then s else d
  | None => d
  end.

Definition bytes (l : list nat) : string :=
  foldr (λ n s, String (Ascii.ascii_of_nat n) s) EmptyString l.

(** The white space and line terminators [String.prototype.trim] removes:
    tab, line feed, vertical tab, form feed, carriage return, space, and
    the UTF-8 encodings of U+00A0, U+1680, U+2000 to U+200A, U+2028,
    U+2029, U+202F, U+205F, U+3000 and U+FEFF. *)
Definition whitespace : list string :=
  bytes <$> [ [9]; [10]; [11]; [12]; [13]; [32]; [194; 160]; [225; 154; 128];
              [226; 128; 128]; [226; 128; 129]; [226; 128; 130]; [226; 128; 131];
              [226; 128; 132]; [226; 128; 133]; [226; 128; 134]; [226; 128; 135];
              [226; 128; 136]; [226; 128; 137]; [226; 128; 138]; [226; 128; 168];
              [226; 128; 169]; [226; 128; 175]; [226; 129; 159]; [227; 128; 128];
              [239; 187; 191] ]%nat.

(** [s] without the prefix [p], when it starts with it. *)
Fixpoint strip_prefix (p s : string) : option string :=
  match p, s with
  | EmptyString, _ => Some s
  | String a p', String b s' => if Ascii.eqb a b then strip_prefix p' s' else None
  | String _ _, EmptyString => None
  end.

(** [s] without one leading item of [ws], when it starts with one. *)
Fixpoint strip_one (ws : list string) (s : string) : option string :=
  match ws with
  | [] => None
  | p :: ws' =>
      match strip_prefix p s with
      | Some s' => Some s'
      | None => strip_one ws' s
      end
  end.

(** Strips leading items of [ws] as long as there are any; [n] bounds the
    number of rounds, and every round removes a character. *)
Fixpoint strip_leading (n : nat) (ws : list string) (s : string) : string :=
  match n with
  | O => s
  | S n' =>
      match strip_one ws s with
      | Some s' => strip_leading n' ws s'
      | None => s
      end
  end.

Definition trimStart (ws : list string) (s : string) : string :=
  strip_leading (String.length s) ws s.

(** [s.trim()], which the [trim: true] setter of a schema path applies to
    every string assigned to the path. *)
Definition trim (s : string) : string :=
  String.rev (trimStart (String.rev <$> whitespace)
                (String.rev (trimStart whitespace s))).

(** A value a request body carries where the schema has a [String] path
    without enum: a string, or an object or array, which is truthy and
    which the [String] type cannot cast.  (A number or a boolean behaves
    as the string it is cast to, or as an absent value when it is falsy;
    an object with a string [_id], which is cast to that string, is left
    out.) *)
Inductive BodyValue : Type :=
  | body_string (s : string)
  | body_object.

#[global] Instance BodyValue_eq_dec : EqDecision BodyValue.
Proof. solve_decision. Defined.

(** [x || y] on such values; [undefined], [null] and the empty string are falsy. *)
Definition or_value (x y : option BodyValue) : option BodyValue :=
  match x with
  | Some (body_string s) => if String.eqb s EmptyString then y else x
  | Some body_object => x
  | None => y
  end.

(** Whether the [String] type casts the value. *)
Definition castable (v : option BodyValue) : bool :=
  match v with
  | Some body_object => false
  | _ => true
  end.

(** ** routes/borrowings.js *)

(** The parts of [req] the PATCH handlers read: [req.params.id] (a
    well-formed id: an ill-formed one makes [findById] throw, which every
    handler answers with 500 before it wrote anything), [req.user._id],
    [req.body.conditionAfter] and [req.body.notes].  Only [save()] checks
    [conditionAfter], against the enum of the schema.  It is a string
    here: a number, a boolean, an array or a plain object in its place is
    truthy (or, when falsy, as good as absent) and refused by the cast or
    by the enum, which is what a string outside the enum stands for; an
    object with a string [_id], which is cast to that string, is left out. *)
Record Req : Type := mkReq {
  params_id : nat;
  user_id : nat;
  body_conditionAfter : option string;
  body_notes : option BodyValue
}.

(** [borrowing.notes = v]: the value is cast and trimmed.  A value that
    cannot be cast leaves the path as it was and is remembered as an error
    on the document, which the next [save()] reports. *)
Definition assign_notes (v : option BodyValue) (b : Borrowing.t) : Borrowing.t :=
  match v with
  | Some (body_string s) => Borrowing.set_notes (Some (trim s)) b
  | Some body_object => b
  | None => Borrowing.set_notes None b
  end.

(** The [equipmentId] of the body of POST /api/borrowings: missing or
    empty; a value that [notEmpty()] accepts and that cannot be cast to an
    ObjectId (a string that is not one, an empty array); an id; or an
    object of query operators (such as [{"$ne": null}]), given by the ids
    it selects: a query takes it, a document does not. *)
Inductive IdField : Type :=
  | id_missing
  | id_malformed
  | id_of (id : nat)
  | id_query (selects : nat → bool).

(** Its [quantity]: a value [isInt({ min: 1 })] does not read as an
    integer; an integer (a number, or a string of one, which Mongoose
    casts); or an array of integers, which the validator checks item by
    item and Mongoose cannot cast to a number. *)
Inductive QuantityField : Type :=
  | quantity_missing
  | quantity_of (q : Z)
  | quantity_array (items : list Z).

(** Its [dueDate]: a value [isISO8601()] refuses, a string it accepts but
    [new Date(...)] cannot read (an ISO week date such as 2025-W07-1), or
    a date. *)
Inductive DateField : Type :=
  | date_refused
  | date_unread
  | date_of (t : Z).

#[global] Instance DateField_eq_dec : EqDecision DateField.
Proof. solve_decision. Defined.

(** Body of POST /api/borrowings. *)
Record BorrowingBody : Type := mkBody {
  body_equipmentId : IdField;
  body_quantity : QuantityField;
  body_dueDate : DateField
}.

(** The three fields of a body whose values are an id, an integer and a
    date. *)
Definition equipmentId (rb : BorrowingBody) : option nat :=
  match body_equipmentId rb with
  | id_of id => Some id
  | _ => None
  end.

Definition quantity (rb : BorrowingBody) : Z :=
  match body_quantity rb with
  | quantity_of q => q
  | _ => 0
  end.

Definition dueDate (rb : BorrowingBody) : option Z :=
  match body_dueDate rb with
  | date_of t => Some t
  | _ => None
  end.

(** A body with an integer quantity, and an id and a date that are either
    well formed or missing. *)
Definition mkBorrowingBody (equipmentId : option nat) (quantity : Z)
    (dueDate : option Z) : BorrowingBody :=
  mkBody (from_option id_of id_missing equipmentId) (quantity_of quantity)
    (from_option date_of date_refused dueDate).

(** The messages of [body('quantity').isInt({ min: 1 })]: an array fails
    the validator once for each of its items that does. *)
Definition quantity_errors (quantity : QuantityField) : list string :=
  match quantity with
  | quantity_of q => if 1 <=? q then [] else ["Quantity must be at least 1"]
  | quantity_array items =>
      (λ _, "Quantity must be at least 1") <$> List.filter (λ q, negb (1 <=? q)) items
  | quantity_missing => ["Quantity must be at least 1"]
  end.

(** [validationResult(req)] for the three validators of the POST route:
    [notEmpty()], [isInt({ min: 1 })], [isISO8601()]. *)
Definition borrowing_validationResult (rb : BorrowingBody) : list string :=
  (if body_equipmentId rb is id_missing then ["Equipment ID is required"] else [])
  ++ quantity_errors (body_quantity rb)
  ++ (if body_dueDate rb is date_refused then ["Valid due date is required"] else []).

(** [Equipment.findById(equipmentId)] on a value of the body: the document
    of that id; for query operators, the first document they select; a
    CastError for a value that is not an ObjectId. *)
Definition Equipment_findById_value (equipmentId : IdField) : M (option Equipment.t) :=
  match equipmentId with
  | id_of id => Equipment_findById id
  | id_query selects => λ s,
      (s, Done (snd <$> head (find_in (λ id _, selects id) (equipments s))))
  | _ => throw CastError
  end.

(** [a < quantity] in JavaScript.  An array is compared through its
    string: the empty one as 0, an array of one item as the item; a longer
    one is not a number, and no comparison with it holds. *)
Definition lt_quantity (a : Z) (quantity : QuantityField) : bool :=
  match quantity with
  | quantity_of q | quantity_array [q] => a <? q
  | quantity_array [] => a <? 0
  | _ => false
  end.

(** [{ equipment: equipmentId }] in a query. *)
Definition id_matches (equipmentId : IdField) (id : nat) : bool :=
  match equipmentId with
  | id_of i => (id =? i)%nat
  | id_query selects => selects id
  | _ => false
  end.

(** The [findOne] query named "overlapping bookings" in the POST handler. *)
Definition overlapping_query (equipmentId : IdField) (dueDate now : Z)
    (b : Borrowing.t) : bool :=
  id_matches equipmentId (Borrowing.equipment b)
  && status_in (Borrowing.status b) [approved; issued; pending]
  && (Borrowing.borrowDate b <=? dueDate)
  && (now <=? Borrowing.dueDate b).

(** POST /api/borrowings.  [Equipment.findById] throws a CastError on an
    id that is not an ObjectId, and so does the [findOne] query on the
    Invalid Date that [new Date(dueDate)] is for a string it cannot read.
    A document whose [equipment] or [quantity] cannot be cast fails the
    validation of [save()]. *)
Definition post_borrowing (now : Z) (user : nat) (rb : BorrowingBody)
    : Store → Store * Response :=
  catch_500 (
    let errors := borrowing_validationResult rb in
    reply_if (negb (bool_decide (errors = []))) 400 (JErrors errors) ;;
    let equipmentId := body_equipmentId rb in
    let quantity := body_quantity rb in
    let! equipment := Equipment_findById_value equipmentId in
    match equipment with
    | None => reply 404 (JMessage "Equipment not found")
    | Some equipment =>
        reply_if (negb (Equipment.isActive equipment))
          404 (JMessage "Equipment not found") ;;
        reply_if (lt_quantity (Equipment.availableQuantity equipment) quantity)
          400 (JMessage "Not enough equipment available") ;;
        match body_dueDate rb with
        | date_of dueDate =>
            let! overlapping :=
              Borrowing_findOne (overlapping_query equipmentId dueDate now) in
            reply_if (bool_decide (is_Some overlapping))
              400 (JMessage "Equipment already booked for this period") ;;
            match equipmentId, quantity with
            | id_of equipment_id, quantity_of quantity =>
                let borrowing :=
                  Borrowing.mk user equipment_id quantity now dueDate None pending
                    None None None (Equipment.condition equipment) None None
                    DamageReport.initial in
                Borrowing_insert borrowing ;;
                ret (mkResponse 201 (JBorrowing borrowing))
            | _, _ => throw ValidationError
            end
        | _ => throw CastError
        end
    end).

(** PATCH /api/borrowings/:id/approve (first registration) *)
Definition patch_approve (now : Z) (req : Req) : Store → Store * Response :=
  catch_500 (
    let! borrowing := Borrowing_findById (params_id req) in
    match borrowing with
    | None => reply 404 (JMessage "Borrowing request not found")
    | Some borrowing =>
        reply_if (negb (bool_decide (Borrowing.status borrowing = pending)))
          400 (JMessage "Request already processed") ;;
        let! equipment := Equipment_of_populated borrowing in
        reply_if (Equipment.availableQuantity equipment <? Borrowing.quantity borrowing)
          400 (JMessage "Not enough equipment available") ;;
        Equipment_save (Borrowing.equipment borrowing)
          (Equipment.assign_availableQuantity
             (Equipment.availableQuantity equipment - Borrowing.quantity borrowing)
             (Equipment.loaded equipment)) ;;
        let borrowing :=
          Borrowing.set_approvedAt (Some now)
            (Borrowing.set_approvedBy (Some (user_id req))
               (Borrowing.set_status approved borrowing)) in
        Borrowing_save (params_id req) borrowing ;;
        ret (mkResponse 200 (JBorrowing borrowing))
    end).

(** PATCH /api/borrowings/:id/reject *)
Definition patch_reject (now : Z) (req : Req) : Store → Store * Response :=
  catch_500 (
    let! borrowing := Borrowing_findById (params_id req) in
    match borrowing with
    | None => reply 404 (JMessage "Borrowing request not found")
    | Some borrowing =>
        reply_if (negb (bool_decide (Borrowing.status borrowing = pending)))
          400 (JMessage "Request already processed") ;;
        let notes := or_value (body_notes req) (Some (body_string "Request rejected")) in
        let borrowing :=
          assign_notes notes
            (Borrowing.set_approvedAt (Some now)
               (Borrowing.set_approvedBy (Some (user_id req))
                  (Borrowing.set_status rejected borrowing))) in
        save_cast (castable notes) (Borrowing_save (params_id req) borrowing) ;;
        ret (mkResponse 200 (JBorrowing borrowing))
    end).

(** PATCH /api/borrowings/:id/issue *)
Definition patch_issue (now : Z) (req : Req) : Store → Store * Response :=
  catch_500 (
    let! borrowing := Borrowing_findById (params_id req) in
    match borrowing with
    | None => reply 404 (JMessage "Borrowing request not found")
    | Some borrowing =>
        reply_if (negb (bool_decide (Borrowing.status borrowing = approved)))
          400 (JMessage "Only approved requests can be issued") ;;
        let borrowing :=
          Borrowing.set_issuedAt (Some now)
            (Borrowing.set_status issued borrowing) in
        Borrowing_save (params_id req) borrowing ;;
        ret (mkResponse 200 (JBorrowing borrowing))
    end).

(** The damage-report object literal of the return handler. *)
Definition damage_report (now : Z) (req : Req) (conditionBefore conditionAfter : string)
    : DamageReport.t :=
  DamageReport.mk
    (Some ("Equipment condition changed from " +:+ conditionBefore
             +:+ " to " +:+ conditionAfter))
    (Some now) (Some (user_id req)) reported.

(** PATCH /api/borrowings/:id/return (first registration) *)
Definition patch_return (now : Z) (req : Req) : Store → Store * Response :=
  catch_500 (
    let! borrowing := Borrowing_findById (params_id req) in
    match borrowing with
    | None => reply 404 (JMessage "Borrowing record not found")
    | Some borrowing =>
        reply_if (negb (status_in (Borrowing.status borrowing) [issued; overdue]))
          400 (JMessage "Only issued equipment can be returned") ;;
        let! equipment := Equipment_of_populated borrowing in
        Equipment_save (Borrowing.equipment borrowing)
          (Equipment.assign_availableQuantity
             (Equipment.availableQuantity equipment + Borrowing.quantity borrowing)
             (Equipment.loaded equipment)) ;;
        let conditionBefore := Borrowing.conditionBefore borrowing in
        let notes :=
          or_value (body_notes req) (body_string <$> Borrowing.notes borrowing) in
        let borrowing :=
          assign_notes notes
            (Borrowing.set_conditionAfter
               (Some (or_string (body_conditionAfter req) conditionBefore))
               (Borrowing.set_returnDate (Some now)
                  (Borrowing.set_status returned borrowing))) in
        let borrowing :=
          if truthy (body_conditionAfter req)
             && negb (bool_decide (body_conditionAfter req = Some conditionBefore))
          then Borrowing.set_damageReport
                 (damage_report now req conditionBefore
                    (or_string (body_conditionAfter req) conditionBefore))
                 borrowing
          else borrowing in
        save_cast (castable notes) (Borrowing_save (params_id req) borrowing) ;;
        ret (mkResponse 200 (JBorrowing borrowing))
    end).

(** PATCH /api/borrowings/:id/approve (second registration) *)
Definition patch_approve_2 (now : Z) (req : Req) : Store → Store * Response :=
  catch_500 (
    let! borrowing := Borrowing_findById (params_id req) in
    match borrowing with
    | None => reply 404 (JMessage "Borrowing request not found")
    | Some borrowing =>
        reply_if (negb (bool_decide (Borrowing.status borrowing = pending)))
          400 (JMessage "Request already processed") ;;
        let! equipment := Equipment_of_populated borrowing in
        reply_if (Equipment.availableQuantity equipment <? Borrowing.quantity borrowing)
          400 (JMessage "Not enough equipment available") ;;
        Equipment_save (Borrowing.equipment borrowing)
          (Equipment.assign_availableQuantity
             (Equipment.availableQuantity equipment - Borrowing.quantity borrowing)
             (Equipment.loaded equipment)) ;;
        let borrowing :=
          Borrowing.set_approvedAt (Some now)
            (Borrowing.set_approvedBy (Some (user_id req))
               (Borrowing.set_status approved borrowing)) in
        Borrowing_save (params_id req) borrowing ;;
        ret (mkResponse 200 (JBorrowing borrowing))
    end).

(** PATCH /api/borrowings/:id/return (second registration) *)
Definition patch_return_2 (now : Z) (req : Req) : Store → Store * Response :=
  catch_500 (
    let! borrowing := Borrowing_findById (params_id req) in
    match borrowing with
    | None => reply 404 (JMessage "Borrowing record not found")
    | Some borrowing =>
        reply_if (negb (status_in (Borrowing.status borrowing) [issued; overdue]))
          400 (JMessage "Only issued equipment can be returned") ;;
        let! equipment := Equipment_of_populated borrowing in
        Equipment_save (Borrowing.equipment borrowing)
          (Equipment.assign_availableQuantity
             (Equipment.availableQuantity equipment + Borrowing.quantity borrowing)
             (Equipment.loaded equipment)) ;;
        let conditionBefore := Borrowing.conditionBefore borrowing in
        let notes :=
          or_value (body_notes req) (body_string <$> Borrowing.notes borrowing) in
        let borrowing :=
          assign_notes notes
            (Borrowing.set_conditionAfter
               (Some (or_string (body_conditionAfter req) conditionBefore))
               (Borrowing.set_returnDate (Some now)
                  (Borrowing.set_status returned borrowing))) in
        let borrowing :=
          if truthy (body_conditionAfter req)
             && negb (bool_decide (body_conditionAfter req = Some conditionBefore))
          then Borrowing.set_damageReport
                 (damage_report now req conditionBefore
                    (or_string (body_conditionAfter req) conditionBefore))
                 borrowing
          else borrowing in
        save_cast (castable notes) (Borrowing_save (params_id req) borrowing) ;;
        ret (mkResponse 200 (JBorrowing borrowing))
    end).

(** The PATCH paths of the router. *)
Inductive PatchPath : Type :=
  | path_approve | path_reject | path_issue | path_return.

#[global] Instance PatchPath_eq_dec : EqDecision PatchPath.
Proof. solve_decision. Defined.

Definition Handler : Type := Z → Req → Store → Store * Response.

(** [router.patch(path, handler)] calls, in registration order. *)
Definition patch_routes : list (PatchPath * Handler) :=
  [ (path_approve, patch_approve);
    (path_reject, patch_reject);
    (path_issue, patch_issue);
    (path_return, patch_return);
    (path_approve, patch_approve_2);
    (path_return, patch_return_2) ].

(** The same router without the second registrations. *)
Definition patch_routes_once : list (PatchPath * Handler) :=
  [ (path_approve, patch_approve);
    (path_reject, patch_reject);
    (path_issue, patch_issue);
    (path_return, patch_return) ].

(** Express runs the first handler registered for the path; none of the
    handlers calls [next()], so a later one for the same path never runs. *)
Fixpoint dispatch (routes : list (PatchPath * Handler)) (path : PatchPath)
    : option Handler :=
  match routes with
  | [] => None
  | (p, h) :: routes' => if bool_decide (p = path) then Some h else dispatch routes' path
  end.

(** ** routes/equipment.js *)

Definition equipmentCategories : list string :=
  ["sports"; "lab"; "camera"; "musical"; "project"; "other"].

Module EquipmentBody.

(** The update operators of a body: its keys that start with a dollar
    sign ([$set], [$inc], [$mul], ...).  [validators_pass] says whether the
    update validators accept them (they look at what [$set] and [$unset]
    carry, and at nothing else); [applied] is what MongoDB makes of a
    stored document when it applies them. *)
Record UpdateOperators : Type := mkOperators {
  validators_pass : bool;
  applied : Equipment.t → Equipment.t
}.

(** What MongoDB makes of the write a body leads to: it performs it
    ([takes]); it refuses it as it is written, whatever is stored
    ([refuses_write]: an update that writes a path twice); or it refuses
    to change the document the write is for ([refuses_document]: an update
    that would change its [_id], an insert whose [_id] is taken). *)
Inductive Verdict : Type := takes | refuses_write | refuses_document.

(** Body of POST and PUT /api/equipment; every field may be absent.
    [quantity] and [availableQuantity] are [None] when missing or, for the
    validators of POST, not integers (a PUT with a number that is not an
    integer is outside this model).  [castable] says whether Mongoose can
    cast every value of the body to the type of its path (it cannot cast,
    say, a quantity that is not a number, or a description that is an
    object).  [verdict] is what MongoDB makes of the write the body leads
    to.  [operators] is [None] when the body has no update operator. *)
Record t : Type := make {
  name : option string;
  category : option string;
  quantity : option Z;
  availableQuantity : option Z;
  condition : option string;
  isActive : option bool;
  castable : bool;
  verdict : Verdict;
  operators : option UpdateOperators
}.

(** A body of plain fields whose values can all be cast and which leads
    to a write MongoDB takes. *)
Definition mk (name category : option string) (quantity availableQuantity : option Z)
    (condition : option string) (isActive : option bool) : t :=
  make name category quantity availableQuantity condition isActive true takes None.

End EquipmentBody.

(** [validationResult(req)] for the validators of POST /api/equipment. *)
Definition equipment_validationResult (rb : EquipmentBody.t) : list string :=
  (if truthy (EquipmentBody.name rb) then [] else ["Name is required"])
  ++ (match EquipmentBody.category rb with
      | Some c => if isIn c equipmentCategories then [] else ["Valid category is required"]
      | None => ["Valid category is required"]
      end)
  ++ (match EquipmentBody.quantity rb with
      | Some q => if 1 <=? q then [] else ["Quantity must be at least 1"]
      | None => ["Quantity must be at least 1"]
      end)
  ++ (match EquipmentBody.condition rb with
      | Some c => if isIn c equipmentConditions then [] else ["Invalid value"]
      | None => []
      end).

(** [name: { required: true, trim: true }]: the validator sees the
    trimmed string, and the empty string counts as missing. *)
Definition name_required (name : option string) : bool :=
  match name with
  | Some n => negb (String.eqb (trim n) EmptyString)
  | None => false
  end.

(** What [save()] validates on a new document besides the paths of
    [Equipment.t]: every value was cast, and [name] is there. *)
Definition new_equipment_valid (rb : EquipmentBody.t) : bool :=
  EquipmentBody.castable rb && name_required (EquipmentBody.name rb).

(** POST /api/equipment *)
Definition post_equipment (rb : EquipmentBody.t) : Store → Store * Response :=
  catch_validation (
    let errors := equipment_validationResult rb in
    reply_if (negb (bool_decide (errors = []))) 400 (JErrors errors) ;;
    match EquipmentBody.quantity rb with
    | Some quantity =>
        let equipmentData :=
          Equipment.mk quantity quantity
            (default "good" (EquipmentBody.condition rb))
            (default true (EquipmentBody.isActive rb)) in
        let! equipment :=
          save_cast (new_equipment_valid rb)
            (match EquipmentBody.verdict rb with
             | EquipmentBody.takes =>
                 Equipment_save 0 (Equipment.mkdoc equipmentData true true None)
             | _ =>
                 Equipment_save_refused
                   (Equipment.mkdoc equipmentData true true None)
             end) in
        ret (mkResponse 201 (JEquipment equipment))
    | None => throw TypeError
    end).

(** Update validators ([runValidators: true]) on the paths the update sets. *)
Definition update_validate (u : EquipmentBody.t) : bool :=
  (match EquipmentBody.name u with
   | Some _ => name_required (EquipmentBody.name u) | None => true end)
  && (match EquipmentBody.category u with
      | Some c => isIn c equipmentCategories | None => true end)
  && (match EquipmentBody.quantity u with
      | Some q => 0 <=? q | None => true end)
  && (match EquipmentBody.availableQuantity u with
      | Some a => 0 <=? a | None => true end)
  && (match EquipmentBody.condition u with
      | Some c => isIn c equipmentConditions | None => true end)
  && (match EquipmentBody.operators u with
      | Some ops => EquipmentBody.validators_pass ops | None => true end).

(** The [$set] the plain fields of an update object stand for. *)
Definition apply_fields (u : EquipmentBody.t) (e : Equipment.t) : Equipment.t :=
  Equipment.mk
    (default (Equipment.quantity e) (EquipmentBody.quantity u))
    (default (Equipment.availableQuantity e) (EquipmentBody.availableQuantity u))
    (default (Equipment.condition e) (EquipmentBody.condition u))
    (default (Equipment.isActive e) (EquipmentBody.isActive u)).

(** The whole update: the plain fields and the update operators. *)
Definition apply_update (u : EquipmentBody.t) (e : Equipment.t) : Equipment.t :=
  match EquipmentBody.operators u with
  | Some ops => EquipmentBody.applied ops (apply_fields u e)
  | None => apply_fields u e
  end.

(** [Equipment.findByIdAndUpdate(id, update, {new: true, runValidators})]:
    a query, not a [save()]: the [pre('save')] hooks do not run.  The
    update is cast first (a CastError when that fails), then the update
    validators run, then MongoDB applies it to the document of that id,
    or refuses it. *)
Definition Equipment_findByIdAndUpdate (runValidators : bool) (id : nat)
    (u : EquipmentBody.t) : M (option Equipment.t) := λ s,
  if negb (EquipmentBody.castable u) then (s, Thrown CastError)
  else if runValidators && negb (update_validate u) then (s, Thrown ValidationError)
  else match EquipmentBody.verdict u, equipments s !! id with
       | EquipmentBody.refuses_write, _ => (s, Thrown MongoServerError)
       | _, None => (s, Done None)
       | EquipmentBody.refuses_document, Some _ => (s, Thrown MongoServerError)
       | EquipmentBody.takes, Some e =>
           (set_equipments (<[id := apply_update u e]> (equipments s)) s,
            Done (Some (apply_update u e)))
       end.

(** [const { availableQuantity, ...updateData } = req.body]: only the
    top-level key is taken out. *)
Definition updateData (rb : EquipmentBody.t) : EquipmentBody.t :=
  EquipmentBody.make (EquipmentBody.name rb) (EquipmentBody.category rb)
    (EquipmentBody.quantity rb) None
    (EquipmentBody.condition rb) (EquipmentBody.isActive rb)
    (EquipmentBody.castable rb) (EquipmentBody.verdict rb)
    (EquipmentBody.operators rb).

(** PUT /api/equipment/:id *)
Definition put_equipment (id : nat) (rb : EquipmentBody.t) : Store → Store * Response :=
  catch_validation (
    let! equipment := Equipment_findByIdAndUpdate true id (updateData rb) in
    match equipment with
    | None => reply 404 (JMessage "Equipment not found")
    | Some equipment => ret (mkResponse 200 (JEquipment equipment))
    end).

(** DELETE /api/equipment/:id *)
Definition delete_equipment (id : nat) : Store → Store * Response :=
  catch_500 (
    let! equipment :=
      Equipment_findByIdAndUpdate false id
        (EquipmentBody.mk None None None None None (Some false)) in
    match equipment with
    | None => reply 404 (JMessage "Equipment not found")
    | Some _ => ret (mkResponse 200 (JMessage "Equipment deleted successfully"))
    end).

(** ** utils/overdueChecker.js *)

(** [try { ... } catch (error) { console.error(...) }]: a sweep answers
    nothing; what it wrote before a throw stays written. *)
Definition catch_log (m : M unit) : Store → Store := λ s, (m s).1.

(** Query of [checkOverdueBorrowings]. *)
Definition overdue_query (now : Z) (b : Borrowing.t) : bool :=
  status_in (Borrowing.status b) [approved; issued]
  && (Borrowing.dueDate b <? now)
  && bool_decide (Borrowing.returnDate b = None).

Definition checkOverdueBorrowings (now : Z) : Store → Store :=
  catch_log (
    let! overdueBorrowings := Borrowing_find (overdue_query now) in
    for_each overdueBorrowings (λ '(id, borrowing),
      Borrowing_save id (Borrowing.set_status overdue borrowing))).

(** Query for the active borrowings of one equipment. *)
Definition active_query (equipment_id : nat) (b : Borrowing.t) : bool :=
  (Borrowing.equipment b =? equipment_id)%nat
  && status_in (Borrowing.status b) [approved; issued; overdue].

(** [activeBorrowings.reduce((sum, borrowing) => sum + borrowing.quantity, 0)]. *)
Definition borrowedQuantity (activeBorrowings : list (nat * Borrowing.t)) : Z :=
  foldl (λ sum borrowing, sum + Borrowing.quantity borrowing.2) 0 activeBorrowings.

Definition updateEquipmentAvailability : Store → Store :=
  catch_log (
    let! equipmentList := Equipment_find Equipment.isActive in
    for_each equipmentList (λ '(id, equipment),
      let! activeBorrowings := Borrowing_find (active_query id) in
      let availableQuantity :=
        Z.max 0 (Equipment.quantity equipment - borrowedQuantity activeBorrowings) in
      if negb (Equipment.availableQuantity equipment =? availableQuantity)
      then Equipment_save id
             (Equipment.assign_availableQuantity availableQuantity
                (Equipment.loaded equipment)) ;; ret tt
      else ret tt)).

(** ** Runs of the server *)

Inductive Request : Type :=
  | POST_borrowing (user : nat) (rb : BorrowingBody)
  | PATCH (path : PatchPath) (req : Req)
  | POST_equipment (rb : EquipmentBody.t)
  | PUT_equipment (id : nat) (rb : EquipmentBody.t)
  | DELETE_equipment (id : nat)
  | Sweep_overdue
  | Sweep_availability.

(** One request (or one sweep) served at time [now]. *)
Definition step (now : Z) (r : Request) (s : Store) : Store :=
  match r with
  | POST_borrowing user rb => (post_borrowing now user rb s).1
  | PATCH path req =>
      match dispatch patch_routes path with
      | Some h => (h now req s).1
      | None => s
      end
  | POST_equipment rb => (post_equipment rb s).1
  | PUT_equipment id rb => (put_equipment id rb s).1
  | DELETE_equipment id => (delete_equipment id s).1
  | Sweep_overdue => checkOverdueBorrowings now s
  | Sweep_availability => updateEquipmentAvailability s
  end.

Fixpoint run (trace : list (Z * Request)) (s : Store) : Store :=
  match trace with
  | [] => s
  | (now, r) :: trace' => run trace' (step now r s)
  end.

Definition empty_store : Store := mkStore [] [].


(** ** Predicates on stores used by the specifications *)

(** Every stored document passes the validators of its schema. *)
Definition store_valid (s : Store) : Prop :=
  Forall (λ e, Equipment.validate e = true) (equipments s)
  ∧ Forall (λ b, Borrowing.validate b = true) (borrowings s).

(** Every stored reservation passes the validators of its schema. *)
Definition borrowings_valid (s : Store) : Prop :=
  Forall (λ b, Borrowing.validate b = true) (borrowings s).

(** The damage report of a reservation has been filled in: it has a
    description. *)
Definition report_filed (b : Borrowing.t) : Prop :=
  is_Some (DamageReport.description (Borrowing.damageReport b)).

(** The damage report is filled in exactly when the reservation was
    returned in a condition other than the one recorded at creation; until
    then it is what the schema default made it; and it is always [reported]. *)
Definition report_consistent (b : Borrowing.t) : Prop :=
  (report_filed b
   ↔ Borrowing.status b = returned
     ∧ Borrowing.conditionAfter b ≠ Some (Borrowing.conditionBefore b))
  ∧ (¬ report_filed b → Borrowing.damageReport b = DamageReport.initial)
  ∧ DamageReport.repairStatus (Borrowing.damageReport b) = reported.

Definition borrowing_ok (b : Borrowing.t) : Prop :=
  Borrowing.validate b = true ∧ report_consistent b.

Definition docs_ok (s : Store) : Prop :=
  Forall (λ e, Equipment.validate e = true) (equipments s)
  ∧ Forall borrowing_ok (borrowings s).

(** Units of equipment [id] held by approved, issued or overdue
    reservations, computed as [updateEquipmentAvailability] does. *)
Definition committed (id : nat) (s : Store) : Z :=
  borrowedQuantity (find_in (λ _, active_query id) (borrowings s)).

(** What one reservation adds to [committed id]. *)
Definition contribution (id : nat) (b : Borrowing.t) : Z :=
  if active_query id b then Borrowing.quantity b else 0.

Fixpoint sumZ (l : list Z) : Z :=
  match l with
  | [] => 0
  | x :: l' => x + sumZ l'
  end.

(** Every reservation refers to an existing equipment document. *)
Definition refs_ok (s : Store) : Prop :=
  Forall (λ b, (Borrowing.equipment b < length (equipments s))%nat) (borrowings s).

(** No equipment has more units free and committed together than it owns. *)
Definition balanced (s : Store) : Prop :=
  ∀ id e, equipments s !! id = Some e →
    Equipment.availableQuantity e + committed id s ≤ Equipment.quantity e.

(** What the overdue sweep does to one reservation. *)
Definition promote (now : Z) (b : Borrowing.t) : Borrowing.t :=
  if overdue_query now b then Borrowing.set_status overdue b else b.

(** What the availability sweep does to one equipment, given the store it reads. *)
Definition reconciled (s : Store) (id : nat) (e : Equipment.t) : Equipment.t :=
  if Equipment.isActive e
  then Equipment.set_availableQuantity
         (Z.max 0 (Equipment.quantity e - committed id s)) e
  else e.

(** The writes of a loop over a query result: [write id x] is the document
    saved for the found pair, if the iteration saves one. *)
Definition apply_writes {A} (write : nat → A → option A) (found : list (nat * A))
    (coll : list A) : list A :=
  foldl (λ acc p, match write p.1 p.2 with
                  | Some y => <[p.1 := y]> acc
                  | None => acc
                  end) coll found.

(** A request whose body, when it is a PUT, has no update operator. *)
Definition plain_update (r : Request) : bool :=
  match r with
  | PUT_equipment _ rb =>
      match EquipmentBody.operators rb with
      | Some _ => false
      | None => true
      end
  | _ => true
  end.

(** A request that does not lower the [quantity] of an equipment. *)
Definition keeps_quantity (s : Store) (r : Request) : bool :=
  match r with
  | PUT_equipment id rb =>
      match equipments s !! id, EquipmentBody.quantity rb with
      | Some e, Some q => Equipment.quantity e <=? q
      | _, _ => true
      end
  | _ => true
  end.

(** A return request whose body the Borrowing schema accepts: its
    [conditionAfter], when given, is in the enum, and its [notes] can be
    cast to a string. *)
Definition return_condition_valid (r : Request) : bool :=
  match r with
  | PATCH path_return req =>
      match body_conditionAfter req with
      | Some c => String.eqb c EmptyString || isIn c borrowingConditions
      | None => true
      end
      && castable (body_notes req)
  | _ => true
  end.

(** A run in which no PUT body has an update operator. *)
Definition plain_run (trace : list (Z * Request)) : bool :=
  forallb (λ p, plain_update p.2) trace.

Fixpoint quiet (trace : list (Z * Request)) (s : Store) : bool :=
  match trace with
  | [] => true
  | (now, r) :: trace' =>
      plain_update r && keeps_quantity s r && return_condition_valid r
      && quiet trace' (step now r s)
  end.

(** The invariant of the lending engine along runs that never lower a
    quantity, never send update operators and never send a return the
    schema refuses. *)
Definition lending_inv (s : Store) : Prop :=
  docs_ok s ∧ refs_ok s ∧ balanced s.

(** Hoare triples for handler code: [docs_ok] is kept on every exit, and
    [Q] holds of the value when the code falls through. *)
Definition hoare {A} (m : M A) (Q : A → Prop) : Prop :=
  ∀ s, docs_ok s → docs_ok (m s).1 ∧ ∀ a, (m s).2 = Done a → Q a.

(** ** Documents the handlers write *)

(** The document the approve handler writes. *)
Definition approved_by (now : Z) (req : Req) (b : Borrowing.t) : Borrowing.t :=
  Borrowing.set_approvedAt (Some now)
    (Borrowing.set_approvedBy (Some (user_id req))
       (Borrowing.set_status approved b)).

(** The document the reject handler writes. *)
Definition rejected_by (now : Z) (req : Req) (b : Borrowing.t) : Borrowing.t :=
  assign_notes (or_value (body_notes req) (Some (body_string "Request rejected")))
    (Borrowing.set_approvedAt (Some now)
       (Borrowing.set_approvedBy (Some (user_id req))
          (Borrowing.set_status rejected b))).

Definition issued_at (now : Z) (b : Borrowing.t) : Borrowing.t :=
  Borrowing.set_issuedAt (Some now) (Borrowing.set_status issued b).

(** The document the return handler writes. *)
Definition returned_by (now : Z) (req : Req) (b : Borrowing.t) : Borrowing.t :=
  let b' :=
    assign_notes (or_value (body_notes req) (body_string <$> Borrowing.notes b))
      (Borrowing.set_conditionAfter
         (Some (or_string (body_conditionAfter req) (Borrowing.conditionBefore b)))
         (Borrowing.set_returnDate (Some now)
            (Borrowing.set_status returned b))) in
  if truthy (body_conditionAfter req)
     && negb (bool_decide (body_conditionAfter req = Some (Borrowing.conditionBefore b)))
  then Borrowing.set_damageReport
         (damage_report now req (Borrowing.conditionBefore b)
            (or_string (body_conditionAfter req) (Borrowing.conditionBefore b)))
         b'
  else b'.

(** The document one iteration of the availability sweep saves, if any. *)
Definition reconcile_write (bs : list Borrowing.t) (id : nat) (e : Equipment.t)
    : option Equipment.t :=
  let availableQuantity :=
    Z.max 0 (Equipment.quantity e
             - borrowedQuantity (find_in (λ _, active_query id) bs)) in
  if negb (Equipment.availableQuantity e =? availableQuantity)
  then Some (Equipment.set_availableQuantity availableQuantity e)
  else None.

(** ** Example runs *)

(** One admin creates five basketballs, a student asks for three of them. *)
Definition basketballs : EquipmentBody.t :=
  EquipmentBody.mk (Some "Basketball Set") (Some "sports") (Some 5) None
    (Some "good") None.

Definition three_balls : BorrowingBody := mkBorrowingBody (Some 0%nat) 3 (Some 700).

Definition staff_req : Req := mkReq 0 7 None None.

Definition requested : list (Z * Request) :=
  [ (0, POST_equipment basketballs); (1, POST_borrowing 3 three_balls) ].

Definition lent : list (Z * Request) :=
  requested ++ [ (2, PATCH path_approve staff_req); (3, PATCH path_issue staff_req) ].

(** A PUT that only carries a new quantity. *)
Definition set_quantity_body (q : Z) : EquipmentBody.t :=
  EquipmentBody.mk None None (Some q) None None None.

(** Scenario B of the specification: total 2, available 0, a pending
    request for 1. *)
Definition fully_committed : Store :=
  mkStore [Equipment.mk 2 0 "good" true]
    [Borrowing.mk 3 0 1 1 700 None pending None None None "good" None None
       DamageReport.initial].

(** Scenario E of the specification: returned in condition "fair" after
    being lent in condition "good". *)
Definition returned_fair : list (Z * Request) :=
  lent ++ [ (4, PATCH path_return (mkReq 0 7 (Some "fair") None)) ].

(** The quantity is lowered to 3 while three of the five basketballs are
    out; their return then brings the available quantity to 5. *)
Definition shrunk_then_returned : list (Z * Request) :=
  lent ++ [ (4, PUT_equipment 0 (set_quantity_body 3));
            (5, PATCH path_return staff_req) ].

(** A return whose [conditionAfter] the schema rejects, then a valid one. *)
Definition released_twice : list (Z * Request) :=
  lent ++ [ (4, PATCH path_return (mkReq 0 7 (Some "broken") None));
            (5, PATCH path_return staff_req) ].

(** A return whose [notes] is an object, then a valid one. *)
Definition released_on_notes : list (Z * Request) :=
  lent ++ [ (4, PATCH path_return (mkReq 0 7 None (Some body_object)));
            (5, PATCH path_return staff_req) ].

(** A PUT whose body is [{ "$inc": { "availableQuantity": n } }]. *)
Definition inc_availableQuantity (n : Z) : EquipmentBody.t :=
  EquipmentBody.make None None None None None None true EquipmentBody.takes
    (Some (EquipmentBody.mkOperators true
             (λ e, Equipment.set_availableQuantity
                     (Equipment.availableQuantity e + n) e))).

(** Scenario A of the specification. *)
Definition lent_and_returned : list (Z * Request) :=
  lent ++ [ (4, PATCH path_return staff_req) ].

(** Three basketballs are out and the quantity is lowered to 2. *)
Definition overcommitted : list (Z * Request) :=
  requested ++ [ (2, PATCH path_approve staff_req);
                 (3, PUT_equipment 0 (set_quantity_body 2)) ].

(** Five basketballs, none requested yet. *)
Definition stocked : Store := run [ (0, POST_equipment basketballs) ] empty_store.

(** ** Read-only routes *)

(** [req.user.role]. *)
Inductive Role : Type := student | staff | admin.

#[global] Instance Role_eq_dec : EqDecision Role.
Proof. solve_decision. Defined.

(** The string a status is stored as. *)
Definition status_name (st : Status) : string :=
  match st with
  | pending => "pending"
  | approved => "approved"
  | rejected => "rejected"
  | issued => "issued"
  | returned => "returned"
  | overdue => "overdue"
  end.

(** The parts of [req] GET /api/borrowings reads: [req.user._id],
    [req.user.role], [req.query.status], [req.query.user] ([None] when
    absent or empty). *)
Record ListReq : Type := mkListReq {
  list_user_id : nat;
  list_role : Role;
  query_status : option string;
  query_user : option nat
}.

(** The [filter] object of GET /api/borrowings; an unset key matches
    every document. *)
Record BorrowingFilter : Type := mkFilter {
  filter_user : option nat;
  filter_status : option string
}.

(** [let filter = {}; if (...) filter.user = ...; ...] *)
Definition borrowings_filter (req : ListReq) : BorrowingFilter :=
  let filter := mkFilter None None in
  let filter :=
    if bool_decide (list_role req = student)
    then mkFilter (Some (list_user_id req)) (filter_status filter)
    else filter in
  let filter :=
    if truthy (query_status req)
    then mkFilter (filter_user filter) (query_status req)
    else filter in
  let filter :=
    if bool_decide (is_Some (query_user req))
       && (bool_decide (list_role req = admin) || bool_decide (list_role req = staff))
    then mkFilter (query_user req) (filter_status filter)
    else filter in
  filter.

Definition filter_matches (f : BorrowingFilter) (b : Borrowing.t) : bool :=
  match filter_user f with
  | Some u => (Borrowing.user b =? u)%nat
  | None => true
  end
  && match filter_status f with
     | Some st => String.eqb (status_name (Borrowing.status b)) st
     | None => true
     end.

(** GET /api/borrowings: the matching documents, newest first
    ([sort({ createdAt: -1 })]; documents are stored in creation order). *)
Definition get_borrowings (req : ListReq) (s : Store) : list (nat * Borrowing.t) :=
  reverse (find_in (λ _, filter_matches (borrowings_filter req)) (borrowings s)).

(** GET /api/users/:id/borrowings (routes/users.js). *)
Definition get_user_borrowings (id : nat) (s : Store) : list (nat * Borrowing.t) :=
  reverse (find_in (λ _ b, (Borrowing.user b =? id)%nat) (borrowings s)).

(** GET /api/equipment/:id *)
Definition get_equipment (id : nat) : Store → Store * Response :=
  catch_500 (
    let! equipment := Equipment_findById id in
    match equipment with
    | None => reply 404 (JMessage "Equipment not found")
    | Some equipment => ret (mkResponse 200 (JEquipment equipment))
    end).

(** ** server.js *)

(** What the timer callback and the start-up code run:
    [checkOverdueBorrowings(); updateEquipmentAvailability();].  Neither
    call is awaited; this is the run in which the first sweep has finished
    when the second starts (the sweeps write different collections, and
    the second reads only whether a status is approved, issued or overdue,
    which the first does not change). *)
Definition reconciliation_tick (now : Z) (s : Store) : Store :=
  updateEquipmentAvailability (checkOverdueBorrowings now s).

(** ** client/src/pages/ManageRequests.tsx *)

(** [getActionButtons]: the actions offered for a reservation, as the PATCH
    path [confirmAction] calls through [borrowingApi] for each button. *)
Definition getActionButtons (b : Borrowing.t) : list PatchPath :=
  match Borrowing.status b with
  | pending => [path_approve; path_reject]
  | approved => [path_issue]
  | issued => [path_return]
  | _ => []
  end.

(** ** The life cycle of a reservation *)

(** The writes a handler or a sweep can make to a stored reservation. *)
Inductive borrowing_write (now : Z) : Borrowing.t → Borrowing.t → Prop :=
  | write_none (b : Borrowing.t) : borrowing_write now b b
  | write_approve (req : Req) (b : Borrowing.t) :
      Borrowing.status b = pending →
      borrowing_write now b (approved_by now req b)
  | write_reject (req : Req) (b : Borrowing.t) :
      Borrowing.status b = pending →
      borrowing_write now b (rejected_by now req b)
  | write_issue (b : Borrowing.t) :
      Borrowing.status b = approved →
      borrowing_write now b (issued_at now b)
  | write_return (req : Req) (b : Borrowing.t) :
      Borrowing.status b = issued ∨ Borrowing.status b = overdue →
      borrowing_write now b (returned_by now req b)
  | write_overdue (b : Borrowing.t) :
      overdue_query now b = true →
      borrowing_write now b (Borrowing.set_status overdue b).

(** The status changes the handlers and the sweep perform. *)
Definition lifecycle_edge (st st' : Status) : bool :=
  match st, st' with
  | pending, approved | pending, rejected
  | approved, issued | approved, overdue
  | issued, returned | issued, overdue
  | overdue, returned => true
  | _, _ => false
  end.

(** Which of the optional fields are set, by status. *)
Definition stamps_ok (b : Borrowing.t) : Prop :=
  (Borrowing.status b = pending ↔ Borrowing.approvedAt b = None)
  ∧ (Borrowing.approvedAt b = None ↔ Borrowing.approvedBy b = None)
  ∧ (Borrowing.status b = returned ↔ is_Some (Borrowing.returnDate b))
  ∧ (Borrowing.status b = returned ↔ is_Some (Borrowing.conditionAfter b))
  ∧ (Borrowing.status b = issued → is_Some (Borrowing.issuedAt b))
  ∧ (is_Some (Borrowing.issuedAt b) →
     Borrowing.status b = issued ∨ Borrowing.status b = overdue
     ∨ Borrowing.status b = returned).

(** A request that neither sets a quantity, nor sends update operators,
    nor sends a return the schema refuses. *)
Definition keeps_ledger (r : Request) : bool :=
  match r with
  | PUT_equipment _ rb => bool_decide (EquipmentBody.quantity rb = None) && plain_update r
  | _ => return_condition_valid r
  end.

(** Free and committed units add up to the quantity. *)
Definition ledger_exact (s : Store) : Prop :=
  ∀ id e, equipments s !! id = Some e →
    Equipment.availableQuantity e + committed id s = Equipment.quantity e.

(** A request that is not an edit of the equipment collection by an admin. *)
Definition lending_request (r : Request) : bool :=
  match r with
  | POST_equipment _ | PUT_equipment _ _ | DELETE_equipment _ => false
  | _ => true
  end.

(** ** Proof automation *)

(** Unfolds the monad and the model operations inside a handler. *)
Ltac unfold_handler :=
  unfold catch_500, catch_validation, catch_log, bind, reply_if, reply, ret, throw,
    Borrowing_findById, Equipment_findById_value, Equipment_findById,
    Equipment_of_populated,
    Equipment_save, Borrowing_save, Borrowing_insert, Borrowing_findOne, save_cast,
    Borrowing_find, Equipment_find, Equipment_findByIdAndUpdate in *.

(** * Specifications of the handlers *)

Lemma validate_set_available (a : Z) (e : Equipment.t) :
  Equipment.validate e = true → 0 ≤ a →
  Equipment.validate (Equipment.set_availableQuantity a e) = true.
Proof.
  unfold Equipment.validate. cbn. intros H Ha.
  apply andb_true_iff in H as [H Hc]. apply andb_true_iff in H as [Hq _].
  rewrite Hq, Hc. cbn. rewrite andb_true_r. lia.
Qed.

(** A successful approve: what it read and what it wrote. *)
Lemma patch_approve_ok (now : Z) (req : Req) (s s' : Store) (r : Response) :
  patch_approve now req s = (s', r) → code r = 200 →
  ∃ b e,
    borrowings s !! params_id req = Some b
    ∧ Borrowing.status b = pending
    ∧ equipments s !! Borrowing.equipment b = Some e
    ∧ Borrowing.quantity b ≤ Equipment.availableQuantity e
    ∧ s' = mkStore
             (<[Borrowing.equipment b :=
                  Equipment.set_availableQuantity
                    (Equipment.availableQuantity e - Borrowing.quantity b) e]>
                (equipments s))
             (<[params_id req := approved_by now req b]> (borrowings s))
    ∧ r = mkResponse 200 (JBorrowing (approved_by now req b)).
Proof.
  unfold patch_approve. unfold_handler. intros H Hc.
  destruct (borrowings s !! params_id req) as [b|] eqn:Hb; [|by simplify_eq/=].
  destruct (bool_decide (Borrowing.status b = pending)) eqn:Hst;
    [|by simplify_eq/=].
  apply bool_decide_eq_true in Hst. cbn in H.
  destruct (equipments s !! Borrowing.equipment b) as [e|] eqn:He;
    [|by simplify_eq/=].
  destruct (Equipment.availableQuantity e <? Borrowing.quantity b) eqn:Hlt;
    [by simplify_eq/=|].
  apply Z.ltb_ge in Hlt. cbn in H.
  destruct (Equipment.validate _) eqn:Hv; [|by simplify_eq/=].
  cbn in H.
  destruct (Borrowing.validate _) eqn:Hv'; [|by simplify_eq/=].
  cbn in H. simplify_eq. exists b, e. done.
Qed.

Lemma patch_approve_processed (now : Z) (req : Req) (s : Store) (b : Borrowing.t) :
  borrowings s !! params_id req = Some b → Borrowing.status b ≠ pending →
  patch_approve now req s
  = (s, mkResponse 400 (JMessage "Request already processed")).
Proof.
  intros Hb Hst. unfold patch_approve. unfold_handler. rewrite Hb.
  by rewrite bool_decide_eq_false_2.
Qed.

(** A successful issue. *)
Lemma patch_issue_ok (now : Z) (req : Req) (s s' : Store) (r : Response) :
  patch_issue now req s = (s', r) → code r = 200 →
  ∃ b,
    borrowings s !! params_id req = Some b
    ∧ Borrowing.status b = approved
    ∧ s' = mkStore (equipments s)
             (<[params_id req := issued_at now b]> (borrowings s))
    ∧ r = mkResponse 200 (JBorrowing (issued_at now b)).
Proof.
  unfold patch_issue. unfold_handler. intros H Hc.
  destruct (borrowings s !! params_id req) as [b|] eqn:Hb; [|by simplify_eq/=].
  destruct (bool_decide (Borrowing.status b = approved)) eqn:Hst;
    [|by simplify_eq/=].
  apply bool_decide_eq_true in Hst. cbn in H.
  destruct (Borrowing.validate _) eqn:Hv; [|by simplify_eq/=].
  cbn in H. simplify_eq. by exists b.
Qed.

(** A successful return: the stock is added back as it is, with no bound. *)
Lemma patch_return_ok (now : Z) (req : Req) (s s' : Store) (r : Response) :
  patch_return now req s = (s', r) → code r = 200 →
  ∃ b e,
    borrowings s !! params_id req = Some b
    ∧ (Borrowing.status b = issued ∨ Borrowing.status b = overdue)
    ∧ equipments s !! Borrowing.equipment b = Some e
    ∧ s' = mkStore
             (<[Borrowing.equipment b :=
                  Equipment.set_availableQuantity
                    (Equipment.availableQuantity e + Borrowing.quantity b) e]>
                (equipments s))
             (<[params_id req := returned_by now req b]> (borrowings s))
    ∧ r = mkResponse 200 (JBorrowing (returned_by now req b)).
Proof.
  unfold patch_return. unfold_handler. intros H Hc.
  destruct (borrowings s !! params_id req) as [b|] eqn:Hb; [|by simplify_eq/=].
  destruct (status_in (Borrowing.status b) [issued; overdue]) eqn:Hst;
    [|by simplify_eq/=].
  assert (Borrowing.status b = issued ∨ Borrowing.status b = overdue) as Hst'.
  { destruct (Borrowing.status b); try (by vm_compute in Hst); auto. }
  cbn in H.
  destruct (equipments s !! Borrowing.equipment b) as [e|] eqn:He;
    [|by simplify_eq/=].
  destruct (Equipment.validate _) eqn:Hv; [|by simplify_eq/=].
  cbn in H. fold (returned_by now req b) in H.
  destruct (castable _) eqn:Hcast; [|by simplify_eq/=].
  destruct (Borrowing.validate _) eqn:Hv'; [|by simplify_eq/=].
  cbn in H. simplify_eq. by exists b, e.
Qed.

Lemma set_available_id (e : Equipment.t) (a : Z) :
  a = Equipment.availableQuantity e → Equipment.set_availableQuantity a e = e.
Proof. intros ->. by destruct e. Qed.

Lemma set_available_twice (e : Equipment.t) (a a' : Z) :
  Equipment.set_availableQuantity a' (Equipment.set_availableQuantity a e)
  = Equipment.set_availableQuantity a' e.
Proof. done. Qed.

(** An assignment to [notes] touches no other path. *)
Lemma assign_notes_fields (v : option BodyValue) (b : Borrowing.t) :
  let b' := assign_notes v b in
  Borrowing.user b' = Borrowing.user b
  ∧ Borrowing.equipment b' = Borrowing.equipment b
  ∧ Borrowing.quantity b' = Borrowing.quantity b
  ∧ Borrowing.borrowDate b' = Borrowing.borrowDate b
  ∧ Borrowing.dueDate b' = Borrowing.dueDate b
  ∧ Borrowing.returnDate b' = Borrowing.returnDate b
  ∧ Borrowing.status b' = Borrowing.status b
  ∧ Borrowing.approvedBy b' = Borrowing.approvedBy b
  ∧ Borrowing.approvedAt b' = Borrowing.approvedAt b
  ∧ Borrowing.issuedAt b' = Borrowing.issuedAt b
  ∧ Borrowing.conditionBefore b' = Borrowing.conditionBefore b
  ∧ Borrowing.conditionAfter b' = Borrowing.conditionAfter b
  ∧ Borrowing.damageReport b' = Borrowing.damageReport b.
Proof. unfold assign_notes. by destruct v as [[?|]|]. Qed.

Lemma validate_assign_notes (v : option BodyValue) (b : Borrowing.t) :
  Borrowing.validate (assign_notes v b) = Borrowing.validate b.
Proof. unfold assign_notes. by destruct v as [[?|]|]. Qed.

(** A fallback that is a stored string can always be cast. *)
Lemma castable_or_value (x : option BodyValue) (d : option string) :
  castable (or_value x (body_string <$> d)) = castable x.
Proof.
  destruct x as [[x|]|]; cbn; [|done|by destruct d].
  destruct (String.eqb x EmptyString); [by destruct d|done].
Qed.

(** What the return handler records about the condition. *)
Lemma returned_by_damage (now : Z) (req : Req) (b : Borrowing.t) :
  Borrowing.damageReport b = DamageReport.initial →
  let b' := returned_by now req b in
  Borrowing.conditionBefore b' = Borrowing.conditionBefore b
  ∧ Borrowing.status b' = returned
  ∧ (report_filed b'
     ↔ Borrowing.conditionAfter b' ≠ Some (Borrowing.conditionBefore b'))
  ∧ (¬ report_filed b' → Borrowing.damageReport b' = DamageReport.initial)
  ∧ DamageReport.repairStatus (Borrowing.damageReport b') = reported.
Proof.
  intros Hd. unfold returned_by, report_filed.
  set (v := or_value _ _).
  set (b0 := Borrowing.set_conditionAfter _ _).
  destruct (assign_notes_fields v b0)
    as (_ & _ & _ & _ & _ & _ & Hst & _ & _ & _ & Hcb & Hca & Hdr).
  assert (¬ is_Some (@None string)) as Hnone by (by intros [? ?]).
  destruct (body_conditionAfter req) as [c|] eqn:Hc; cbn.
  - destruct (String.eqb c EmptyString) eqn:He; cbn.
    + rewrite Hst, Hcb, Hca, Hdr. cbn. rewrite Hd, He. cbn.
      split_and!; [done|done|tauto|done|done].
    + case_bool_decide as Hcb'; cbn.
      * rewrite Hst, Hcb, Hca, Hdr. cbn. rewrite Hd, He. cbn.
        split_and!; [done|done| |done|done].
        simplify_eq. tauto.
      * rewrite Hst, Hcb, Hca. subst b0. cbn. rewrite He. cbn.
        split_and!; [done|done| |by intros []; eauto|done].
        split; [congruence|by eauto].
  - rewrite Hst, Hcb, Hca, Hdr. cbn. rewrite Hd. cbn.
    split_and!; [done|done|tauto|done|done].
Qed.

(** * Queries and loops over their results *)

Section queries.
Context {A : Type}.
Implicit Types (l coll : list A) (found : list (nat * A)).

Lemma elem_of_find_in (q : nat → A → bool) l i x :
  (i, x) ∈ find_in q l ↔ l !! i = Some x ∧ q i x = true.
Proof.
  unfold find_in.
  rewrite list_elem_of_In, filter_In, <- list_elem_of_In, elem_of_lookup_imap.
  cbn. split.
  - by intros [(j & y & [= -> ->] & H) Hq].
  - intros [H Hq]. split; [by eauto|done].
Qed.

Lemma length_apply_writes (write : nat → A → option A) found coll :
  length (apply_writes write found coll) = length coll.
Proof.
  unfold apply_writes. revert coll.
  induction found as [|[i x] found IH]; intros coll; cbn; [done|].
  rewrite IH. destruct (write i x); [apply length_insert|done].
Qed.

Lemma apply_writes_other (write : nat → A → option A) found coll (j : nat) :
  j ∉ found.*1 → apply_writes write found coll !! j = coll !! j.
Proof.
  unfold apply_writes. revert coll.
  induction found as [|[i x] found IH]; intros coll Hj; cbn; [done|].
  cbn in Hj. apply not_elem_of_cons in Hj as [Hne Hj].
  rewrite IH by done.
  destruct (write i x); [by apply list_lookup_insert_ne|done].
Qed.

Lemma apply_writes_found (write : nat → A → option A) found coll (j : nat) x :
  (j, x) ∈ found → (∀ y, (j, y) ∈ found → y = x) → (j < length coll)%nat →
  apply_writes write found coll !! j
  = match write j x with Some y => Some y | None => coll !! j end.
Proof.
  revert coll.
  induction found as [|[i z] found IH]; intros coll Hin Hfun Hlt.
  { by apply elem_of_nil in Hin. }
  change (apply_writes write ((i, z) :: found) coll)
    with (apply_writes write found
            (match write i z with Some y => <[i := y]> coll | None => coll end)).
  destruct (decide (j ∈ found.*1)) as [Hj|Hj].
  - apply list_elem_of_fmap in Hj as ([j' y] & Hjy & Hy). cbn in Hjy. subst j'.
    assert (y = x) as -> by (apply Hfun; by right).
    rewrite IH; [| done | by intros; apply Hfun; right
                | by destruct (write i z); rewrite ?length_insert].
    destruct (write j x) eqn:Hw; [done|].
    destruct (decide (i = j)) as [->|Hne].
    + assert (z = x) as -> by (apply Hfun; by left). by rewrite Hw.
    + destruct (write i z); [by apply list_lookup_insert_ne|done].
  - rewrite apply_writes_other by done.
    apply elem_of_cons in Hin as [[= <- <-]|Hin].
    + destruct (write j x); [by apply list_lookup_insert_eq|done].
    + destruct Hj. apply list_elem_of_fmap. by exists (j, x).
Qed.

(** A loop over [find(query)] that saves [write id x] for each result
    rewrites exactly the matching documents. *)
Lemma apply_writes_find_in (write : nat → A → option A) (q : nat → A → bool)
    coll (j : nat) :
  apply_writes write (find_in q coll) coll !! j
  = (λ x, if q j x then default x (write j x) else x) <$> coll !! j.
Proof.
  destruct (coll !! j) as [x|] eqn:Hx; cbn.
  - destruct (q j x) eqn:Hq.
    + rewrite (apply_writes_found _ _ _ j x).
      * rewrite Hx. by destruct (write j x).
      * by apply elem_of_find_in.
      * intros y [Hy _]%elem_of_find_in. congruence.
      * by eapply lookup_lt_Some.
    + rewrite apply_writes_other; [done|].
      intros ([j' y] & Hjy & [Hy Hqy]%elem_of_find_in)%list_elem_of_fmap.
      cbn in Hjy. subst j'. congruence.
  - apply lookup_ge_None. rewrite length_apply_writes. by apply lookup_ge_None.
Qed.

End queries.

Lemma sumZ_app (l1 l2 : list Z) : sumZ (l1 ++ l2) = sumZ l1 + sumZ l2.
Proof. induction l1 as [|x l1 IH]; cbn; [done|]. lia. Qed.

Lemma sumZ_insert {A} (f : A → Z) (l : list A) (i : nat) (x y : A) :
  l !! i = Some x → sumZ (f <$> <[i := y]> l) = sumZ (f <$> l) - f x + f y.
Proof.
  revert i. induction l as [|z l IH]; intros [|i] Hi; try done.
  - injection Hi as ->.
    change (<[0%nat := y]> (x :: l)) with (y :: l).
    rewrite !fmap_cons. cbn [sumZ]. lia.
  - change (<[S i := y]> (z :: l)) with (z :: <[i := y]> l).
    rewrite !fmap_cons. cbn [sumZ]. rewrite (IH i) by done. lia.
Qed.

Lemma sumZ_nonneg {A} (f : A → Z) (l : list A) :
  Forall (λ x, 0 ≤ f x) l → 0 ≤ sumZ (f <$> l).
Proof. induction 1 as [|x l Hx _ IH]; [done|]. rewrite fmap_cons. cbn [sumZ]. lia. Qed.

(** The [reduce] over the query result is the sum of the contributions. *)
Lemma committed_sum (id : nat) (s : Store) :
  committed id s = sumZ (contribution id <$> borrowings s).
Proof.
  unfold committed, borrowedQuantity, find_in.
  enough (∀ (l : list Borrowing.t) (g : nat → Borrowing.t → nat * Borrowing.t) acc,
    (∀ i x, (g i x).2 = x) →
    foldl (λ sum borrowing, sum + Borrowing.quantity borrowing.2) acc
      (List.filter (λ p, active_query id p.2) (imap g l))
    = acc + sumZ (contribution id <$> l)) as H.
  { rewrite H by done. lia. }
  induction l as [|b l IH]; intros g acc Hg; cbn.
  { lia. }
  rewrite Hg.
  unfold contribution at 1.
  destruct (active_query id b); cbn; rewrite IH by (intros; apply Hg).
  - rewrite Hg. lia.
  - lia.
Qed.

(** * Every stored document stays well formed *)

Section hoare_rules.
Context {A B : Type}.

Lemma hoare_ret (a : A) (Q : A → Prop) : Q a → hoare (ret a) Q.
Proof. intros HQ s Hs. split; [done|]. by intros a' [= <-]. Qed.

Lemma hoare_reply (c : Z) (j : Json) (Q : A → Prop) : hoare (reply c j) Q.
Proof. intros s Hs. by split. Qed.

Lemma hoare_throw (err : ErrorName) (Q : A → Prop) : hoare (throw err) Q.
Proof. intros s Hs. by split. Qed.

Lemma hoare_bind (m : M A) (k : A → M B) (Q : A → Prop) (R : B → Prop) :
  hoare m Q → (∀ a, Q a → hoare (k a) R) → hoare (bind m k) R.
Proof.
  intros Hm Hk s Hs. unfold bind.
  destruct (Hm s Hs) as [Hs' HQ]. destruct (m s) as [s' [a|r|err]]; cbn in *.
  - by apply Hk; [apply HQ|].
  - by split.
  - by split.
Qed.

Lemma hoare_weaken (m : M A) (Q Q' : A → Prop) :
  hoare m Q → (∀ a, Q a → Q' a) → hoare m Q'.
Proof. intros Hm HQ s Hs. destruct (Hm s Hs). split; eauto. Qed.

End hoare_rules.

Lemma hoare_reply_if (c : bool) (cd : Z) (j : Json) :
  hoare (reply_if c cd j) (λ _, c = false).
Proof.
  destruct c; cbn; [apply hoare_reply|by apply hoare_ret].
Qed.

Lemma hoare_for_each {A} (l : list A) (body : A → M unit) :
  (∀ x, x ∈ l → hoare (body x) (λ _, True)) →
  hoare (for_each l body) (λ _, True).
Proof.
  induction l as [|x l IH]; intros Hbody; cbn.
  - by apply hoare_ret.
  - eapply hoare_bind; [apply Hbody; by left|].
    intros _ _. apply IH. intros y Hy. apply Hbody. by right.
Qed.

Lemma hoare_catch_500 (m : M Response) (s : Store) :
  hoare m (λ _, True) → docs_ok s → docs_ok (catch_500 m s).1.
Proof.
  intros Hm Hs. destruct (Hm s Hs) as [H _]. unfold catch_500.
  by destruct (m s) as [s' [?|?|?]].
Qed.

Lemma hoare_catch_validation (m : M Response) (s : Store) :
  hoare m (λ _, True) → docs_ok s → docs_ok (catch_validation m s).1.
Proof.
  intros Hm Hs. destruct (Hm s Hs) as [H _]. unfold catch_validation.
  by destruct (m s) as [s' [?|?|[]]].
Qed.

Lemma hoare_Borrowing_findById (id : nat) :
  hoare (Borrowing_findById id) (λ o, ∀ b, o = Some b → borrowing_ok b).
Proof.
  intros s [He Hb]. split; [done|]. cbn. intros o [= <-] b Hl.
  by eapply (proj1 (Forall_lookup _ _) Hb).
Qed.

Lemma hoare_Equipment_findById (id : nat) :
  hoare (Equipment_findById id)
    (λ o, ∀ e, o = Some e → Equipment.validate e = true).
Proof.
  intros s [He Hb]. split; [done|]. cbn. intros o [= <-] e Hl.
  by eapply (proj1 (Forall_lookup _ _) He).
Qed.

Lemma hoare_Equipment_findById_value (f : IdField) :
  hoare (Equipment_findById_value f) (λ _, True).
Proof. intros s Hs. by destruct f. Qed.

Lemma hoare_Equipment_of_populated (b : Borrowing.t) :
  hoare (Equipment_of_populated b) (λ e, Equipment.validate e = true).
Proof.
  intros s [He Hb]. unfold Equipment_of_populated.
  destruct (equipments s !! Borrowing.equipment b) as [e|] eqn:Hl; cbn.
  - split; [done|]. intros e' [= <-].
    by eapply (proj1 (Forall_lookup _ _) He).
  - by split.
Qed.

Lemma hoare_Borrowing_find (q : Borrowing.t → bool) :
  hoare (Borrowing_find q)
    (λ found, ∀ id b, (id, b) ∈ found → borrowing_ok b ∧ q b = true).
Proof.
  intros s [He Hb]. split; [done|]. cbn.
  intros found [= <-] id b [Hl Hq]%elem_of_find_in.
  split; [|done]. by eapply (proj1 (Forall_lookup _ _) Hb).
Qed.

Lemma hoare_Borrowing_findOne (q : Borrowing.t → bool) :
  hoare (Borrowing_findOne q) (λ _, True).
Proof. intros s Hs. by split. Qed.

Lemma hoare_Equipment_find (q : Equipment.t → bool) :
  hoare (Equipment_find q)
    (λ found, ∀ id e, (id, e) ∈ found → Equipment.validate e = true).
Proof.
  intros s [He Hb]. split; [done|]. cbn.
  intros found [= <-] id e [Hl _]%elem_of_find_in.
  by eapply (proj1 (Forall_lookup _ _) He).
Qed.

(** The hooks run after validation and keep the document valid. *)
Lemma pre_save_valid (d : Equipment.doc) :
  Equipment.validate (Equipment.fields d) = true →
  Equipment.validate
    (Equipment.fields
       (Equipment.pre_save_store_original (Equipment.pre_save_adjust d))) = true.
Proof.
  intros Hv.
  assert (Equipment.validate (Equipment.fields (Equipment.pre_save_adjust d)) = true)
    as Hv'.
  { unfold Equipment.pre_save_adjust.
    destruct (Equipment.isNew d); cbn.
    - apply validate_set_available; [done|].
      unfold Equipment.validate in Hv.
      apply andb_true_iff in Hv as [Hv _]. apply andb_true_iff in Hv as [Hv _]. lia.
    - destruct (Equipment.isModified_quantity d); cbn; [|done].
      apply validate_set_available; [done|lia]. }
  unfold Equipment.pre_save_store_original.
  by destruct (Equipment.isModified_quantity _).
Qed.

Lemma hoare_Equipment_save (id : nat) (d : Equipment.doc) :
  hoare (Equipment_save id d) (λ _, True).
Proof.
  intros s [He Hb]. unfold Equipment_save.
  destruct (Equipment.validate (Equipment.fields d)) eqn:Hv; [|by split].
  apply pre_save_valid in Hv.
  destruct (Equipment.isNew d); cbn; (split; [split; [|done]|done]); cbn.
  - apply Forall_app. split; [done|]. by apply Forall_singleton.
  - by apply Forall_insert.
Qed.

Lemma hoare_Borrowing_save (id : nat) (b : Borrowing.t) :
  report_consistent b → hoare (Borrowing_save id b) (λ _, True).
Proof.
  intros Hr s [He Hb]. unfold Borrowing_save.
  destruct (Borrowing.validate b) eqn:Hv; [|by split].
  split; [split; [done|]|done]; cbn. by apply Forall_insert.
Qed.

Lemma hoare_Borrowing_insert (b : Borrowing.t) :
  report_consistent b → hoare (Borrowing_insert b) (λ _, True).
Proof.
  intros Hr s [He Hb]. unfold Borrowing_insert.
  destruct (Borrowing.validate b) eqn:Hv; [|by split].
  split; [split; [done|]|done]; cbn.
  apply Forall_app. split; [done|]. by apply Forall_singleton.
Qed.

(** An update without operators that passes the update validators keeps
    a valid document valid. *)
Lemma apply_update_valid (u : EquipmentBody.t) (e : Equipment.t) :
  EquipmentBody.operators u = None →
  update_validate u = true → Equipment.validate e = true →
  Equipment.validate (apply_update u e) = true.
Proof.
  unfold update_validate, Equipment.validate, apply_update, apply_fields.
  intros ->. cbn.
  rewrite !andb_true_iff. intros [[[[_ Hq] Ha] Hc] _] [[Hq' Ha'] Hc'].
  destruct u as [n c [q|] [a|] [cd|] act cast acc ops]; cbn in *; split_and!; done.
Qed.

Lemma hoare_Equipment_findByIdAndUpdate (rv : bool) (id : nat) (u : EquipmentBody.t) :
  EquipmentBody.operators u = None →
  (rv = false → update_validate u = true) →
  hoare (Equipment_findByIdAndUpdate rv id u) (λ _, True).
Proof.
  intros Hops Hu s [He Hb]. unfold Equipment_findByIdAndUpdate.
  destruct (negb (EquipmentBody.castable u)); [by split|].
  assert (rv && negb (update_validate u) = true ∨ update_validate u = true) as [->|Hv].
  { destruct rv; [|by right; apply Hu]. destruct (update_validate u); auto. }
  { by split. }
  destruct (rv && negb (update_validate u)); [by split|].
  destruct (EquipmentBody.verdict u), (equipments s !! id) as [e|] eqn:Hl;
    try by split.
  split; [split; [|done]|done]; cbn.
  apply Forall_insert; [done|]. apply apply_update_valid; [done|done|].
  by eapply (proj1 (Forall_lookup _ _) He).
Qed.

Lemma report_consistent_relabel (b b' : Borrowing.t) :
  report_consistent b →
  Borrowing.status b ≠ returned → Borrowing.status b' ≠ returned →
  Borrowing.damageReport b' = Borrowing.damageReport b →
  report_consistent b'.
Proof.
  intros (Hiff & Hinit & Hrep) Hst Hst' Hd.
  unfold report_consistent, report_filed in *. rewrite Hd.
  split_and!; [|done|done]. split; [|by intros [? _]].
  intros H%Hiff. by destruct H.
Qed.

Lemma report_consistent_unreported (b : Borrowing.t) :
  report_consistent b → Borrowing.status b ≠ returned →
  Borrowing.damageReport b = DamageReport.initial.
Proof.
  intros (Hiff & Hinit & _) Hst. apply Hinit. intros Hf.
  destruct (proj1 Hiff Hf) as [? _]. done.
Qed.

Lemma report_consistent_returned (now : Z) (req : Req) (b : Borrowing.t) :
  report_consistent b → Borrowing.status b ≠ returned →
  report_consistent (returned_by now req b).
Proof.
  intros Hr Hst.
  destruct (returned_by_damage now req b) as (Hcb & Hs & Hiff & Hinit & Hrep).
  { by apply report_consistent_unreported. }
  split_and!; [|done|done]. rewrite Hs. rewrite Hiff. tauto.
Qed.

(** The reject handler's document. *)
Lemma rejected_by_fields (now : Z) (req : Req) (b : Borrowing.t) :
  Borrowing.status (rejected_by now req b) = rejected
  ∧ Borrowing.damageReport (rejected_by now req b) = Borrowing.damageReport b
  ∧ Borrowing.validate (rejected_by now req b) = Borrowing.validate b
  ∧ Borrowing.equipment (rejected_by now req b) = Borrowing.equipment b
  ∧ Borrowing.quantity (rejected_by now req b) = Borrowing.quantity b.
Proof.
  unfold rejected_by. set (v := or_value _ _). set (b0 := Borrowing.set_approvedAt _ _).
  destruct (assign_notes_fields v b0)
    as (_ & Heq & Hq & _ & _ & _ & Hst & _ & _ & _ & _ & _ & Hdr).
  by rewrite Hst, Hdr, Heq, Hq, validate_assign_notes.
Qed.

Lemma post_borrowing_docs_ok (now : Z) (user : nat) (rb : BorrowingBody) (s : Store) :
  docs_ok s → docs_ok (post_borrowing now user rb s).1.
Proof.
  unfold post_borrowing. apply hoare_catch_500.
  eapply hoare_bind; [apply hoare_reply_if|]. intros _ _.
  cbn zeta.
  eapply hoare_bind; [apply hoare_Equipment_findById_value|].
  intros [e|] _; [|apply hoare_reply].
  eapply hoare_bind; [apply hoare_reply_if|]. intros _ _.
  eapply hoare_bind; [apply hoare_reply_if|]. intros _ _.
  destruct (body_dueDate rb) as [| |due]; try apply hoare_throw.
  eapply hoare_bind; [apply hoare_Borrowing_findOne|]. intros o _.
  eapply hoare_bind; [apply hoare_reply_if|]. intros _ _.
  destruct (body_equipmentId rb) as [| |eid|sel], (body_quantity rb) as [|q|items];
    try apply hoare_throw.
  eapply hoare_bind; [apply hoare_Borrowing_insert|intros; by apply hoare_ret].
  split_and!; cbn; [|done|done]. split; [by intros [? ?]|by intros [? _]].
Qed.

Lemma patch_approve_docs_ok (now : Z) (req : Req) (s : Store) :
  docs_ok s → docs_ok (patch_approve now req s).1.
Proof.
  unfold patch_approve. apply hoare_catch_500.
  eapply hoare_bind; [apply hoare_Borrowing_findById|]. intros [b|] Hb; [|apply hoare_reply].
  destruct (Hb b eq_refl) as [Hv Hr].
  eapply hoare_bind; [apply hoare_reply_if|]. intros ? Hst; cbn beta in Hst.
  apply negb_false_iff, bool_decide_eq_true in Hst.
  eapply hoare_bind; [apply hoare_Equipment_of_populated|]. intros e He.
  eapply hoare_bind; [apply hoare_reply_if|]. intros _ _.
  eapply hoare_bind; [apply hoare_Equipment_save|]. intros _ _.
  eapply hoare_bind; [apply hoare_Borrowing_save|intros; by apply hoare_ret].
  apply (report_consistent_relabel b); [done|by rewrite Hst|done|done].
Qed.

Lemma patch_reject_docs_ok (now : Z) (req : Req) (s : Store) :
  docs_ok s → docs_ok (patch_reject now req s).1.
Proof.
  unfold patch_reject. apply hoare_catch_500.
  eapply hoare_bind; [apply hoare_Borrowing_findById|]. intros [b|] Hb; [|apply hoare_reply].
  destruct (Hb b eq_refl) as [Hv Hr].
  eapply hoare_bind; [apply hoare_reply_if|]. intros ? Hst; cbn beta in Hst.
  apply negb_false_iff, bool_decide_eq_true in Hst.
  cbn zeta. fold (rejected_by now req b).
  destruct (rejected_by_fields now req b) as (Hst' & Hdr & _).
  eapply hoare_bind; [|intros; by apply hoare_ret].
  unfold save_cast. destruct (castable _); [|apply hoare_throw].
  apply hoare_Borrowing_save.
  apply (report_consistent_relabel b); [done|by rewrite Hst|by rewrite Hst'|done].
Qed.

Lemma patch_issue_docs_ok (now : Z) (req : Req) (s : Store) :
  docs_ok s → docs_ok (patch_issue now req s).1.
Proof.
  unfold patch_issue. apply hoare_catch_500.
  eapply hoare_bind; [apply hoare_Borrowing_findById|]. intros [b|] Hb; [|apply hoare_reply].
  destruct (Hb b eq_refl) as [Hv Hr].
  eapply hoare_bind; [apply hoare_reply_if|]. intros ? Hst; cbn beta in Hst.
  apply negb_false_iff, bool_decide_eq_true in Hst.
  eapply hoare_bind; [apply hoare_Borrowing_save|intros; by apply hoare_ret].
  apply (report_consistent_relabel b); [done|by rewrite Hst|done|done].
Qed.

Lemma status_in_issued_overdue (st : Status) :
  status_in st [issued; overdue] = true ↔ st = issued ∨ st = overdue.
Proof. destruct st; vm_compute; split; intros H; try done; auto; by destruct H. Qed.

Lemma patch_return_docs_ok (now : Z) (req : Req) (s : Store) :
  docs_ok s → docs_ok (patch_return now req s).1.
Proof.
  unfold patch_return. apply hoare_catch_500.
  eapply hoare_bind; [apply hoare_Borrowing_findById|]. intros [b|] Hb; [|apply hoare_reply].
  destruct (Hb b eq_refl) as [Hv Hr].
  eapply hoare_bind; [apply hoare_reply_if|]. intros ? Hst; cbn beta in Hst.
  apply negb_false_iff, status_in_issued_overdue in Hst.
  eapply hoare_bind; [apply hoare_Equipment_of_populated|]. intros e He.
  eapply hoare_bind; [apply hoare_Equipment_save|]. intros _ _.
  cbn zeta. fold (returned_by now req b).
  eapply hoare_bind; [|intros; by apply hoare_ret].
  unfold save_cast. destruct (castable _); [|apply hoare_throw].
  apply hoare_Borrowing_save.
  apply report_consistent_returned; [done|].
  destruct Hst as [Hst|Hst]; by rewrite Hst.
Qed.

Lemma post_equipment_docs_ok (rb : EquipmentBody.t) (s : Store) :
  docs_ok s → docs_ok (post_equipment rb s).1.
Proof.
  unfold post_equipment. apply hoare_catch_validation.
  eapply hoare_bind; [apply hoare_reply_if|]. intros _ _.
  destruct (EquipmentBody.quantity rb) as [q|]; [|apply hoare_throw].
  eapply hoare_bind; [|intros; by apply hoare_ret].
  unfold save_cast. destruct (new_equipment_valid rb); [|apply hoare_throw].
  destruct (EquipmentBody.verdict rb); [apply hoare_Equipment_save|..];
    intros s' Hs'; unfold Equipment_save_refused;
    by destruct (Equipment.validate _).
Qed.

Lemma put_equipment_docs_ok (id : nat) (rb : EquipmentBody.t) (s : Store) :
  EquipmentBody.operators rb = None →
  docs_ok s → docs_ok (put_equipment id rb s).1.
Proof.
  intros Hops. unfold put_equipment. apply hoare_catch_validation.
  eapply hoare_bind; [by apply hoare_Equipment_findByIdAndUpdate|].
  intros [e|] _; [by apply hoare_ret|apply hoare_reply].
Qed.

Lemma delete_equipment_docs_ok (id : nat) (s : Store) :
  docs_ok s → docs_ok (delete_equipment id s).1.
Proof.
  unfold delete_equipment. apply hoare_catch_500.
  eapply hoare_bind; [by apply hoare_Equipment_findByIdAndUpdate|].
  intros [e|] _; [by apply hoare_ret|apply hoare_reply].
Qed.

Lemma overdue_query_status (now : Z) (b : Borrowing.t) :
  overdue_query now b = true →
  (Borrowing.status b = approved ∨ Borrowing.status b = issued)
  ∧ Borrowing.dueDate b < now ∧ Borrowing.returnDate b = None.
Proof.
  unfold overdue_query. rewrite !andb_true_iff, bool_decide_eq_true, Z.ltb_lt.
  intros [[Hst ?] ?]. split; [|done].
  destruct (Borrowing.status b); try (by vm_compute in Hst); auto.
Qed.

Lemma checkOverdueBorrowings_docs_ok (now : Z) (s : Store) :
  docs_ok s → docs_ok (checkOverdueBorrowings now s).
Proof.
  unfold checkOverdueBorrowings, catch_log. intros Hs.
  eapply (hoare_bind _ _ _ (λ _, True)); [apply hoare_Borrowing_find| |done].
  intros found Hfound. apply hoare_for_each. intros [id b] Hin.
  destruct (Hfound id b Hin) as [[Hv Hr] Hq].
  apply overdue_query_status in Hq as [Hst _].
  apply hoare_Borrowing_save.
  apply (report_consistent_relabel b); [done| |done|done].
  destruct Hst as [Hst|Hst]; by rewrite Hst.
Qed.

Lemma updateEquipmentAvailability_docs_ok (s : Store) :
  docs_ok s → docs_ok (updateEquipmentAvailability s).
Proof.
  unfold updateEquipmentAvailability, catch_log. intros Hs.
  eapply (hoare_bind _ _ _ (λ _, True)); [apply hoare_Equipment_find| |done].
  intros found Hfound. apply hoare_for_each. intros [id e] Hin.
  eapply hoare_bind; [apply hoare_Borrowing_find|]. intros active _.
  destruct (negb _); [|by apply hoare_ret].
  eapply hoare_bind; [apply hoare_Equipment_save|intros; by apply hoare_ret].
Qed.

(** A request without update operators keeps every document well formed. *)
Lemma step_docs_ok (now : Z) (r : Request) (s : Store) :
  plain_update r = true → docs_ok s → docs_ok (step now r s).
Proof.
  intros Hp Hs. destruct r as [user rb|path req|rb|id rb|id| |]; cbn.
  - by apply post_borrowing_docs_ok.
  - destruct path; cbn.
    + by apply patch_approve_docs_ok.
    + by apply patch_reject_docs_ok.
    + by apply patch_issue_docs_ok.
    + by apply patch_return_docs_ok.
  - by apply post_equipment_docs_ok.
  - apply put_equipment_docs_ok; [|done].
    cbn in Hp. by destruct (EquipmentBody.operators rb).
  - by apply delete_equipment_docs_ok.
  - by apply checkOverdueBorrowings_docs_ok.
  - by apply updateEquipmentAvailability_docs_ok.
Qed.

Lemma run_docs_ok (trace : list (Z * Request)) (s : Store) :
  plain_run trace = true → docs_ok s → docs_ok (run trace s).
Proof.
  revert s. induction trace as [|[now r] trace IH]; intros s Hp Hs; cbn; [done|].
  cbn in Hp. apply andb_true_iff in Hp as [Hr Hp].
  by apply IH, step_docs_ok.
Qed.

Lemma empty_docs_ok : docs_ok empty_store.
Proof. by split; cbn. Qed.

Lemma docs_ok_valid (s : Store) : docs_ok s → store_valid s.
Proof.
  intros [He Hb]. split; [done|].
  eapply Forall_impl; [exact Hb|]. by intros b [? _].
Qed.

(** Every state the server reaches without update operators in the PUT
    bodies holds only valid documents. *)
Lemma plain_run_store_valid (trace : list (Z * Request)) :
  plain_run trace = true → store_valid (run trace empty_store).
Proof. intros Hp. by apply docs_ok_valid, run_docs_ok; [|apply empty_docs_ok]. Qed.

(** * The two sweeps *)

Lemma for_each_Borrowing_save (f : Borrowing.t → Borrowing.t)
    (found : list (nat * Borrowing.t)) (s : Store) :
  (∀ id b, (id, b) ∈ found → Borrowing.validate (f b) = true) →
  for_each found (λ '(id, borrowing), Borrowing_save id (f borrowing)) s
  = (mkStore (equipments s)
       (apply_writes (λ _ b, Some (f b)) found (borrowings s)), Done tt).
Proof.
  revert s. induction found as [|[id b] found IH]; intros s Hv.
  { by destruct s. }
  cbn [for_each]. unfold bind at 1, Borrowing_save at 1.
  rewrite (Hv id b) by (by left).
  rewrite IH by (intros; eapply Hv; by right). done.
Qed.

(** With valid reservations in the store, the overdue sweep rewrites every
    reservation through [promote] and nothing else. *)
Lemma checkOverdueBorrowings_promote (now : Z) (s : Store) :
  borrowings_valid s →
  checkOverdueBorrowings now s
  = mkStore (equipments s) (promote now <$> borrowings s).
Proof.
  intros Hb. unfold checkOverdueBorrowings, catch_log, bind, Borrowing_find.
  rewrite for_each_Borrowing_save.
  - cbn. f_equal. apply list_eq. intros j.
    rewrite apply_writes_find_in, list_lookup_fmap. done.
  - intros id b [Hl _]%elem_of_find_in.
    change (Borrowing.validate (Borrowing.set_status overdue b))
      with (Borrowing.validate b).
    by eapply (proj1 (Forall_lookup _ _) Hb).
Qed.

Lemma checkOverdueBorrowings_spec (now : Z) (s : Store) :
  store_valid s →
  checkOverdueBorrowings now s
  = mkStore (equipments s) (promote now <$> borrowings s).
Proof. intros [_ Hb]. by apply checkOverdueBorrowings_promote. Qed.

(** A loop whose body leaves the reservations alone leaves them alone,
    however it ends. *)
Lemma for_each_borrowings {A} (l : list A) (body : A → M unit) (s : Store) :
  (∀ x s', borrowings (body x s').1 = borrowings s') →
  borrowings (for_each l body s).1 = borrowings s.
Proof.
  intros Hbody. revert s. induction l as [|x l IH]; intros s; [done|].
  cbn [for_each]. unfold bind. specialize (Hbody x s).
  destruct (body x s) as [s' [[]|r|err]]; cbn in *; [|done|done].
  by rewrite IH.
Qed.

(** The availability sweep never writes a reservation, whatever the
    equipment documents are. *)
Lemma updateEquipmentAvailability_borrowings (s : Store) :
  borrowings (updateEquipmentAvailability s) = borrowings s.
Proof.
  unfold updateEquipmentAvailability, catch_log, bind at 1, Equipment_find.
  apply for_each_borrowings. intros [id e] s'.
  unfold bind at 1, Borrowing_find at 1. cbn zeta.
  destruct (negb _); [|done].
  unfold bind, Equipment_save. cbn.
  by destruct (Equipment.validate _).
Qed.

Lemma for_each_reconcile (found : list (nat * Equipment.t))
    (es : list Equipment.t) (bs : list Borrowing.t) :
  (∀ id e, (id, e) ∈ found → Equipment.validate e = true) →
  for_each found (λ '(id, equipment),
    let! activeBorrowings := Borrowing_find (active_query id) in
    let availableQuantity :=
      Z.max 0 (Equipment.quantity equipment - borrowedQuantity activeBorrowings) in
    if negb (Equipment.availableQuantity equipment =? availableQuantity)
    then Equipment_save id
           (Equipment.assign_availableQuantity availableQuantity
              (Equipment.loaded equipment)) ;; ret tt
    else ret tt) (mkStore es bs)
  = (mkStore (apply_writes (reconcile_write bs) found es) bs, Done tt).
Proof.
  revert es. induction found as [|[id e] found IH]; intros es Hv; [done|].
  cbn [for_each]. unfold bind at 1. unfold bind at 1, Borrowing_find at 1.
  cbn [borrowings].
  change (apply_writes (reconcile_write bs) ((id, e) :: found) es)
    with (apply_writes (reconcile_write bs) found
            (match reconcile_write bs id e with
             | Some y => <[id := y]> es | None => es end)).
  unfold reconcile_write at 2. cbn zeta.
  destruct (negb _) eqn:Hne.
  - unfold bind at 1, Equipment_save at 1. cbn.
    rewrite validate_set_available by (by (eapply Hv; left) || lia).
    cbn. unfold set_equipments. cbn.
    rewrite IH by (intros; eapply Hv; by right). done.
  - unfold ret at 1.
    rewrite IH by (intros; eapply Hv; by right). done.
Qed.

(** With valid documents in the store, the availability sweep recomputes
    every active equipment through [reconciled]. *)
Lemma updateEquipmentAvailability_spec (s : Store) :
  store_valid s →
  updateEquipmentAvailability s
  = mkStore (imap (reconciled s) (equipments s)) (borrowings s).
Proof.
  intros [He _].
  unfold updateEquipmentAvailability, catch_log, bind at 1, Equipment_find.
  destruct s as [es bs]. cbn [equipments borrowings].
  rewrite for_each_reconcile.
  - cbn. f_equal. apply list_eq. intros j.
    rewrite apply_writes_find_in, list_lookup_imap.
    destruct (es !! j) as [e|]; [|done]. cbn. f_equal.
    unfold reconciled, reconcile_write, committed. cbn.
    destruct (Equipment.isActive e); [|done].
    destruct (negb _) eqn:Hne; [done|]. cbn.
    apply negb_false_iff, Z.eqb_eq in Hne. symmetry.
    by apply set_available_id.
  - intros id e [Hl _]%elem_of_find_in.
    by eapply (proj1 (Forall_lookup _ _) He).
Qed.

(** * What each handler can do to the store *)

Lemma valid_equipment (s : Store) (id : nat) (e : Equipment.t) :
  store_valid s → equipments s !! id = Some e →
  0 ≤ Equipment.quantity e ∧ 0 ≤ Equipment.availableQuantity e
  ∧ Equipment.validate e = true.
Proof.
  intros [He _] Hl.
  assert (Equipment.validate e = true) as Hv
    by (by eapply (proj1 (Forall_lookup _ _) He)).
  split_and!; [| |done]; unfold Equipment.validate in Hv;
    apply andb_true_iff in Hv as [Hv _]; apply andb_true_iff in Hv as [? ?]; lia.
Qed.

Lemma valid_borrowing (s : Store) (id : nat) (b : Borrowing.t) :
  store_valid s → borrowings s !! id = Some b →
  1 ≤ Borrowing.quantity b ∧ Borrowing.validate b = true
  ∧ isIn (Borrowing.conditionBefore b) borrowingConditions = true.
Proof.
  intros [_ Hb] Hl.
  assert (Borrowing.validate b = true) as Hv
    by (by eapply (proj1 (Forall_lookup _ _) Hb)).
  split_and!; [|done|]; unfold Borrowing.validate in Hv;
    apply andb_true_iff in Hv as [Hv _]; apply andb_true_iff in Hv as [? ?];
    [lia|done].
Qed.

(** POST /api/borrowings either writes nothing and does not answer 201,
    or it was sent an id, an integer and a date, and appends the request. *)
Lemma post_borrowing_result (now : Z) (user : nat) (rb : BorrowingBody) (s : Store) :
  ((post_borrowing now user rb s).1 = s ∧ code (post_borrowing now user rb s).2 ≠ 201)
  ∨ ∃ eid q due e,
      body_equipmentId rb = id_of eid ∧ body_quantity rb = quantity_of q
      ∧ body_dueDate rb = date_of due
      ∧ borrowing_validationResult rb = []
      ∧ equipments s !! eid = Some e ∧ Equipment.isActive e = true
      ∧ q ≤ Equipment.availableQuantity e
      ∧ head (find_in (λ _, overlapping_query (id_of eid) due now) (borrowings s))
        = None
      ∧ let b := Borrowing.mk user eid q now due None pending None None None
                   (Equipment.condition e) None None DamageReport.initial in
        Borrowing.validate b = true
        ∧ post_borrowing now user rb s
          = (mkStore (equipments s) (borrowings s ++ [b]),
             mkResponse 201 (JBorrowing b)).
Proof.
  unfold post_borrowing. unfold_handler.
  destruct (negb (bool_decide (borrowing_validationResult rb = []))) eqn:Hnil;
    [by left|].
  apply negb_false_iff, bool_decide_eq_true in Hnil.
  destruct (body_equipmentId rb) as [| |eid|sel]; [by left|by left| |].
  - cbn. destruct (equipments s !! eid) as [e|] eqn:He; [|by left].
    destruct (Equipment.isActive e) eqn:Hact; [|by left]. cbn.
    destruct (lt_quantity _ _) eqn:Hlt; [by left|].
    destruct (body_dueDate rb) as [| |due]; try by left.
    cbn. destruct (head _) as [o|] eqn:Hov; [by left|]. cbn.
    destruct (body_quantity rb) as [|q|items]; try by left.
    destruct (Borrowing.validate _) eqn:Hval; [|by left].
    right. exists eid, q, due, e. cbn in Hlt. apply Z.ltb_ge in Hlt.
    by split_and!.
  - cbn. destruct (head _) as [[i e]|]; [|by left]. cbn.
    destruct (negb _); [by left|].
    destruct (lt_quantity _ _); [by left|].
    destruct (body_dueDate rb) as [| |due]; try by left.
    cbn. destruct (head _) as [o|]; by left.
Qed.

Lemma post_borrowing_store (now : Z) (user : nat) (rb : BorrowingBody) (s : Store) :
  (post_borrowing now user rb s).1 = s
  ∨ ∃ b, Borrowing.status b = pending
       ∧ (Borrowing.equipment b < length (equipments s))%nat
       ∧ (post_borrowing now user rb s).1
         = mkStore (equipments s) (borrowings s ++ [b]).
Proof.
  destruct (post_borrowing_result now user rb s)
    as [[-> _]|(eid & q & due & e & _ & _ & _ & _ & He & _ & _ & _ & _ & ->)];
    [by left|].
  right. eexists. split_and!; [| |done]; cbn; [done|].
  by eapply lookup_lt_Some.
Qed.

Lemma patch_approve_store (now : Z) (req : Req) (s : Store) :
  store_valid s →
  (patch_approve now req s).1 = s
  ∨ ∃ b e,
      borrowings s !! params_id req = Some b
      ∧ Borrowing.status b = pending
      ∧ equipments s !! Borrowing.equipment b = Some e
      ∧ Borrowing.quantity b ≤ Equipment.availableQuantity e
      ∧ (patch_approve now req s).1
        = mkStore
            (<[Borrowing.equipment b :=
                 Equipment.set_availableQuantity
                   (Equipment.availableQuantity e - Borrowing.quantity b) e]>
               (equipments s))
            (<[params_id req := approved_by now req b]> (borrowings s)).
Proof.
  intros Hs. unfold patch_approve. unfold_handler.
  destruct (borrowings s !! params_id req) as [b|] eqn:Hb; [|by left].
  destruct (bool_decide (Borrowing.status b = pending)) eqn:Hst; [|by left].
  apply bool_decide_eq_true in Hst. cbn.
  destruct (equipments s !! Borrowing.equipment b) as [e|] eqn:He; [|by left].
  destruct (Equipment.availableQuantity e <? Borrowing.quantity b) eqn:Hlt;
    [by left|].
  apply Z.ltb_ge in Hlt. cbn.
  destruct (valid_equipment s _ e Hs He) as (_ & _ & Hv).
  destruct (valid_borrowing s _ b Hs Hb) as (_ & Hvb & _).
  rewrite validate_set_available by (done || lia). cbn.
  change (Borrowing.validate _) with (Borrowing.validate b). rewrite Hvb. cbn.
  right. by exists b, e.
Qed.

Lemma patch_reject_store (now : Z) (req : Req) (s : Store) :
  (patch_reject now req s).1 = s
  ∨ ∃ b,
      borrowings s !! params_id req = Some b
      ∧ Borrowing.status b = pending
      ∧ (patch_reject now req s).1
        = mkStore (equipments s)
            (<[params_id req := rejected_by now req b]> (borrowings s)).
Proof.
  unfold patch_reject. unfold_handler.
  destruct (borrowings s !! params_id req) as [b|] eqn:Hb; [|by left].
  destruct (bool_decide (Borrowing.status b = pending)) eqn:Hst; [|by left].
  apply bool_decide_eq_true in Hst. cbn.
  destruct (castable _); [|by left].
  destruct (Borrowing.validate _); [|by left].
  cbn. right. by exists b.
Qed.

Lemma patch_issue_store (now : Z) (req : Req) (s : Store) :
  (patch_issue now req s).1 = s
  ∨ ∃ b,
      borrowings s !! params_id req = Some b
      ∧ Borrowing.status b = approved
      ∧ (patch_issue now req s).1
        = mkStore (equipments s)
            (<[params_id req := issued_at now b]> (borrowings s)).
Proof.
  unfold patch_issue. unfold_handler.
  destruct (borrowings s !! params_id req) as [b|] eqn:Hb; [|by left].
  destruct (bool_decide (Borrowing.status b = approved)) eqn:Hst; [|by left].
  apply bool_decide_eq_true in Hst. cbn.
  destruct (Borrowing.validate _); [|by left].
  cbn. right. by exists b.
Qed.

Lemma returned_by_valid (now : Z) (req : Req) (b : Borrowing.t) :
  Borrowing.validate b = true →
  return_condition_valid (PATCH path_return req) = true →
  Borrowing.validate (returned_by now req b) = true.
Proof.
  intros Hv Hc.
  assert (Borrowing.validate (returned_by now req b)
          = Borrowing.validate
              (Borrowing.set_conditionAfter
                 (Some (or_string (body_conditionAfter req) (Borrowing.conditionBefore b)))
                 b)) as ->.
  { unfold returned_by.
    destruct (truthy _ && _);
      [change (Borrowing.validate (Borrowing.set_damageReport ?d ?x))
         with (Borrowing.validate x)|];
      by rewrite validate_assign_notes. }
  revert Hv Hc. unfold Borrowing.validate, return_condition_valid. cbn.
  rewrite !andb_true_iff. intros [[Hq Hcb] _] [Hc _].
  split_and!; [done|done|].
  destruct (body_conditionAfter req) as [c|]; cbn; [|done].
  destruct (String.eqb c EmptyString); cbn in *; done.
Qed.

Lemma return_condition_valid_castable (now : Z) (req : Req) (b : Borrowing.t) :
  return_condition_valid (PATCH path_return req) = true →
  castable (or_value (body_notes req) (body_string <$> Borrowing.notes b)) = true.
Proof.
  unfold return_condition_valid. rewrite andb_true_iff. intros [_ Hc].
  by rewrite castable_or_value.
Qed.

Lemma patch_return_store (now : Z) (req : Req) (s : Store) :
  store_valid s → return_condition_valid (PATCH path_return req) = true →
  (patch_return now req s).1 = s
  ∨ ∃ b e,
      borrowings s !! params_id req = Some b
      ∧ (Borrowing.status b = issued ∨ Borrowing.status b = overdue)
      ∧ equipments s !! Borrowing.equipment b = Some e
      ∧ (patch_return now req s).1
        = mkStore
            (<[Borrowing.equipment b :=
                 Equipment.set_availableQuantity
                   (Equipment.availableQuantity e + Borrowing.quantity b) e]>
               (equipments s))
            (<[params_id req := returned_by now req b]> (borrowings s)).
Proof.
  intros Hs Hc. unfold patch_return. unfold_handler.
  destruct (borrowings s !! params_id req) as [b|] eqn:Hb; [|by left].
  destruct (status_in (Borrowing.status b) [issued; overdue]) eqn:Hst; [|by left].
  apply status_in_issued_overdue in Hst. cbn.
  destruct (equipments s !! Borrowing.equipment b) as [e|] eqn:He; [|by left].
  destruct (valid_equipment s _ e Hs He) as (_ & Ha & Hv).
  destruct (valid_borrowing s _ b Hs Hb) as (Hq & Hvb & _).
  rewrite validate_set_available by (done || lia). cbn.
  fold (returned_by now req b).
  rewrite (return_condition_valid_castable now) by done.
  rewrite returned_by_valid by done. cbn.
  right. by exists b, e.
Qed.

Lemma post_equipment_store (rb : EquipmentBody.t) (s : Store) :
  (post_equipment rb s).1 = s
  ∨ ∃ e, Equipment.availableQuantity e = Equipment.quantity e
       ∧ (post_equipment rb s).1 = mkStore (equipments s ++ [e]) (borrowings s).
Proof.
  unfold post_equipment. unfold_handler.
  destruct (negb (bool_decide _)); [by left|].
  destruct (EquipmentBody.quantity rb) as [q|]; [|by left].
  cbn. destruct (new_equipment_valid rb); [|by left].
  destruct (EquipmentBody.verdict rb);
    [|unfold Equipment_save_refused; by destruct (Equipment.validate _); left..].
  destruct (Equipment.validate _); [|by left].
  cbn. right. eexists. split; [|reflexivity]. done.
Qed.

Lemma put_equipment_store (id : nat) (rb : EquipmentBody.t) (s : Store) :
  (put_equipment id rb s).1 = s
  ∨ ∃ e, equipments s !! id = Some e
       ∧ (put_equipment id rb s).1
         = mkStore (<[id := apply_update (updateData rb) e]> (equipments s))
             (borrowings s).
Proof.
  unfold put_equipment. unfold_handler.
  destruct (negb (EquipmentBody.castable _)); [by left|].
  destruct (true && _); [by left|].
  cbn [updateData EquipmentBody.verdict].
  destruct (EquipmentBody.verdict rb), (equipments s !! id) as [e|] eqn:He;
    try by left.
  right. by exists e.
Qed.

Lemma delete_equipment_store (id : nat) (s : Store) :
  (delete_equipment id s).1 = s
  ∨ ∃ e, equipments s !! id = Some e
       ∧ (delete_equipment id s).1
         = mkStore (<[id := Equipment.set_isActive false e]> (equipments s))
             (borrowings s).
Proof.
  unfold delete_equipment. unfold_handler. cbn.
  destruct (equipments s !! id) as [e|] eqn:He; [|by left].
  right. by exists e.
Qed.

(** * Stock committed to reservations *)

Lemma active_cases (st : Status) :
  status_in st [approved; issued; overdue]
  = match st with approved | issued | overdue => true | _ => false end.
Proof. by destruct st. Qed.

Lemma contribution_unfold (id : nat) (b : Borrowing.t) :
  contribution id b
  = if (Borrowing.equipment b =? id)%nat
       && match Borrowing.status b with
          | approved | issued | overdue => true
          | _ => false
          end
    then Borrowing.quantity b else 0.
Proof. unfold contribution, active_query. by rewrite active_cases. Qed.

Lemma contribution_nonneg (id : nat) (b : Borrowing.t) :
  Borrowing.validate b = true → 0 ≤ contribution id b.
Proof.
  unfold Borrowing.validate, contribution. rewrite !andb_true_iff.
  intros [[Hq _] _]. destruct (active_query id b); lia.
Qed.

Lemma committed_nonneg (id : nat) (s : Store) :
  store_valid s → 0 ≤ committed id s.
Proof.
  intros [_ Hb]. rewrite committed_sum. apply sumZ_nonneg.
  eapply Forall_impl; [exact Hb|]. intros b Hv. by apply contribution_nonneg.
Qed.

Lemma sumZ_zero {A} (f : A → Z) (l : list A) :
  Forall (λ x, f x = 0) l → sumZ (f <$> l) = 0.
Proof. induction 1 as [|x l Hx _ IH]; [done|]. rewrite fmap_cons. cbn [sumZ]. lia. Qed.

(** No reservation refers to an equipment that does not exist yet. *)
Lemma committed_fresh (s : Store) (id : nat) :
  refs_ok s → (length (equipments s) ≤ id)%nat → committed id s = 0.
Proof.
  intros Hr Hid. rewrite committed_sum. apply sumZ_zero.
  eapply Forall_impl; [exact Hr|]. cbn. intros b Hb.
  rewrite contribution_unfold.
  destruct (Nat.eqb_spec (Borrowing.equipment b) id); [lia|done].
Qed.

Lemma committed_insert (s : Store) (es : list Equipment.t) (i id : nat)
    (b b' : Borrowing.t) :
  borrowings s !! i = Some b →
  committed id (mkStore es (<[i := b']> (borrowings s)))
  = committed id s - contribution id b + contribution id b'.
Proof.
  intros Hb. rewrite !committed_sum. cbn. by apply sumZ_insert.
Qed.

Lemma committed_append (s : Store) (es : list Equipment.t) (id : nat)
    (b : Borrowing.t) :
  committed id (mkStore es (borrowings s ++ [b]))
  = committed id s + contribution id b.
Proof.
  rewrite !committed_sum. cbn. rewrite fmap_app, sumZ_app. cbn. lia.
Qed.

Lemma committed_equipments (s : Store) (es : list Equipment.t) (id : nat) :
  committed id (mkStore es (borrowings s)) = committed id s.
Proof. done. Qed.

Lemma committed_promote (now : Z) (s : Store) (es : list Equipment.t) (id : nat) :
  committed id (mkStore es (promote now <$> borrowings s)) = committed id s.
Proof.
  rewrite !committed_sum. cbn. rewrite <- list_fmap_compose. f_equal.
  apply list_fmap_ext. intros _ b _. cbn. unfold promote.
  destruct (overdue_query now b) eqn:Hq; [|done].
  apply overdue_query_status in Hq as [Hst _].
  rewrite !contribution_unfold. cbn. by destruct Hst as [-> | ->].
Qed.

(** I1 follows from the invariant. *)
Lemma lending_inv_bounds (s : Store) (id : nat) (e : Equipment.t) :
  lending_inv s → equipments s !! id = Some e →
  0 ≤ Equipment.availableQuantity e ≤ Equipment.quantity e.
Proof.
  intros (Hd & _ & Hbal) He.
  apply docs_ok_valid in Hd.
  destruct (valid_equipment s id e Hd He) as (_ & Ha & _).
  specialize (Hbal id e He). pose proof (committed_nonneg id s Hd). lia.
Qed.

(** * The invariant along quiet runs *)

Lemma refs_ok_insert (s : Store) (i j : nat) (b b' : Borrowing.t) (e' : Equipment.t) :
  refs_ok s → borrowings s !! i = Some b →
  Borrowing.equipment b' = Borrowing.equipment b →
  refs_ok (mkStore (<[j := e']> (equipments s)) (<[i := b']> (borrowings s))).
Proof.
  unfold refs_ok. cbn. intros Hr Hb Heq. rewrite length_insert.
  apply Forall_insert; [done|]. rewrite Heq.
  by eapply (proj1 (Forall_lookup _ _) Hr).
Qed.

Lemma refs_ok_relabel (s : Store) (i : nat) (b b' : Borrowing.t) :
  refs_ok s → borrowings s !! i = Some b →
  Borrowing.equipment b' = Borrowing.equipment b →
  refs_ok (mkStore (equipments s) (<[i := b']> (borrowings s))).
Proof.
  unfold refs_ok. cbn. intros Hr Hb Heq.
  apply Forall_insert; [done|]. rewrite Heq.
  by eapply (proj1 (Forall_lookup _ _) Hr).
Qed.

Lemma balanced_relabel (s : Store) (i : nat) (b b' : Borrowing.t) :
  balanced s → borrowings s !! i = Some b →
  (∀ id, contribution id b' = contribution id b) →
  balanced (mkStore (equipments s) (<[i := b']> (borrowings s))).
Proof.
  intros Hbal Hb Hc id e He. cbn in He.
  rewrite (committed_insert s _ i id b b') by done. rewrite Hc.
  specialize (Hbal id e He). lia.
Qed.

Lemma lending_inv_approve (now : Z) (req : Req) (s : Store) :
  lending_inv s → lending_inv (patch_approve now req s).1.
Proof.
  intros (Hd & Hr & Hbal).
  split; [by apply patch_approve_docs_ok|].
  destruct (patch_approve_store now req s) as [->|(b & e & Hb & Hst & He & Hle & ->)];
    [by apply docs_ok_valid|done|].
  split; [by apply (refs_ok_insert s _ _ b)|].
  intros id e' He'. cbn in He'.
  rewrite (committed_insert s _ _ id b) by done.
  rewrite !contribution_unfold, Hst. cbn. rewrite andb_false_r.
  destruct (decide (Borrowing.equipment b = id)) as [<-|Hne].
  - rewrite list_lookup_insert_eq in He' by (by eapply lookup_lt_Some).
    injection He' as <-. cbn. rewrite Nat.eqb_refl. cbn.
    specialize (Hbal _ e He). lia.
  - rewrite list_lookup_insert_ne in He' by done.
    destruct (Nat.eqb_spec (Borrowing.equipment b) id); [done|]. cbn.
    specialize (Hbal _ e' He'). lia.
Qed.

Lemma lending_inv_reject (now : Z) (req : Req) (s : Store) :
  lending_inv s → lending_inv (patch_reject now req s).1.
Proof.
  intros (Hd & Hr & Hbal).
  split; [by apply patch_reject_docs_ok|].
  destruct (patch_reject_store now req s) as [->|(b & Hb & Hst & ->)]; [done|].
  destruct (rejected_by_fields now req b) as (Hst' & _ & _ & Heq & Hq).
  split; [by apply (refs_ok_relabel s _ b)|].
  apply (balanced_relabel s _ b); [done|done|].
  intros id. rewrite !contribution_unfold, Hst, Hst', Heq. cbn.
  by rewrite andb_false_r.
Qed.

Lemma lending_inv_issue (now : Z) (req : Req) (s : Store) :
  lending_inv s → lending_inv (patch_issue now req s).1.
Proof.
  intros (Hd & Hr & Hbal).
  split; [by apply patch_issue_docs_ok|].
  destruct (patch_issue_store now req s) as [->|(b & Hb & Hst & ->)]; [done|].
  split; [by apply (refs_ok_relabel s _ b)|].
  apply (balanced_relabel s _ b); [done|done|].
  intros id. rewrite !contribution_unfold, Hst. done.
Qed.

Lemma returned_by_fields (now : Z) (req : Req) (b : Borrowing.t) :
  Borrowing.equipment (returned_by now req b) = Borrowing.equipment b
  ∧ Borrowing.quantity (returned_by now req b) = Borrowing.quantity b
  ∧ Borrowing.status (returned_by now req b) = returned.
Proof.
  unfold returned_by, assign_notes.
  by destruct (truthy _ && _), (or_value _ _) as [[?|]|].
Qed.

Lemma lending_inv_return (now : Z) (req : Req) (s : Store) :
  return_condition_valid (PATCH path_return req) = true →
  lending_inv s → lending_inv (patch_return now req s).1.
Proof.
  intros Hc (Hd & Hr & Hbal).
  split; [by apply patch_return_docs_ok|].
  destruct (patch_return_store now req s) as [->|(b & e & Hb & Hst & He & ->)];
    [by apply docs_ok_valid|done|done|].
  destruct (returned_by_fields now req b) as (Heq & Hq & Hret).
  split; [by apply (refs_ok_insert s _ _ b)|].
  intros id e' He'. cbn in He'.
  rewrite (committed_insert s _ _ id b) by done.
  rewrite !contribution_unfold, Heq, Hq, Hret. rewrite andb_false_r.
  destruct (decide (Borrowing.equipment b = id)) as [<-|Hne].
  - rewrite list_lookup_insert_eq in He' by (by eapply lookup_lt_Some).
    injection He' as <-. cbn. rewrite Nat.eqb_refl. cbn.
    specialize (Hbal _ e He).
    destruct Hst as [-> | ->]; lia.
  - rewrite list_lookup_insert_ne in He' by done.
    destruct (Nat.eqb_spec (Borrowing.equipment b) id); [done|]. cbn.
    specialize (Hbal _ e' He'). lia.
Qed.

Lemma lending_inv_post_borrowing (now : Z) (user : nat) (rb : BorrowingBody)
    (s : Store) :
  lending_inv s → lending_inv (post_borrowing now user rb s).1.
Proof.
  intros (Hd & Hr & Hbal).
  split; [by apply post_borrowing_docs_ok|].
  destruct (post_borrowing_store now user rb s) as [->|(b & Hst & Hlt & ->)];
    [done|].
  split.
  - unfold refs_ok. cbn. apply Forall_app. split; [done|].
    by apply Forall_singleton.
  - intros id e He. cbn in He. rewrite committed_append.
    rewrite contribution_unfold, Hst, andb_false_r.
    specialize (Hbal id e He). lia.
Qed.

Lemma lending_inv_post_equipment (rb : EquipmentBody.t) (s : Store) :
  lending_inv s → lending_inv (post_equipment rb s).1.
Proof.
  intros (Hd & Hr & Hbal).
  split; [by apply post_equipment_docs_ok|].
  destruct (post_equipment_store rb s) as [->|(e & Hq & ->)]; [done|].
  split.
  - unfold refs_ok in *. cbn. rewrite length_app. cbn.
    eapply Forall_impl; [exact Hr|]. cbn. intros; lia.
  - intros id e' He'. cbn in He'. rewrite committed_equipments.
    apply lookup_app_Some in He' as [He'|[Hlen He']]; [by apply Hbal|].
    rewrite committed_fresh by done.
    destruct (id - length (equipments s))%nat; [|done].
    injection He' as <-. lia.
Qed.

Lemma lending_inv_put_equipment (id : nat) (rb : EquipmentBody.t) (s : Store) :
  plain_update (PUT_equipment id rb) = true →
  keeps_quantity s (PUT_equipment id rb) = true →
  lending_inv s → lending_inv (put_equipment id rb s).1.
Proof.
  intros Hp Hk (Hd & Hr & Hbal).
  assert (EquipmentBody.operators rb = None) as Hops
    by (cbn in Hp; by destruct (EquipmentBody.operators rb)).
  split; [by apply put_equipment_docs_ok|].
  destruct (put_equipment_store id rb s) as [->|(e & He & ->)]; [done|].
  split.
  - unfold refs_ok in *. cbn. by rewrite length_insert.
  - intros id' e' He'. cbn in He'. rewrite committed_equipments.
    destruct (decide (id = id')) as [<-|Hne].
    + rewrite list_lookup_insert_eq in He' by (by eapply lookup_lt_Some).
      injection He' as <-. unfold apply_update. cbn. rewrite Hops. cbn.
      specialize (Hbal _ e He).
      unfold keeps_quantity in Hk. rewrite He in Hk.
      destruct (EquipmentBody.quantity rb) as [q|]; cbn; lia.
    + rewrite list_lookup_insert_ne in He' by done. by apply Hbal.
Qed.

Lemma lending_inv_delete_equipment (id : nat) (s : Store) :
  lending_inv s → lending_inv (delete_equipment id s).1.
Proof.
  intros (Hd & Hr & Hbal).
  split; [by apply delete_equipment_docs_ok|].
  destruct (delete_equipment_store id s) as [->|(e & He & ->)]; [done|].
  split.
  - unfold refs_ok in *. cbn. by rewrite length_insert.
  - intros id' e' He'. cbn in He'. rewrite committed_equipments.
    destruct (decide (id = id')) as [<-|Hne].
    + rewrite list_lookup_insert_eq in He' by (by eapply lookup_lt_Some).
      injection He' as <-. cbn. by apply Hbal.
    + rewrite list_lookup_insert_ne in He' by done. by apply Hbal.
Qed.

Lemma lending_inv_overdue (now : Z) (s : Store) :
  lending_inv s → lending_inv (checkOverdueBorrowings now s).
Proof.
  intros (Hd & Hr & Hbal).
  split; [by apply checkOverdueBorrowings_docs_ok|].
  rewrite checkOverdueBorrowings_spec by (by apply docs_ok_valid).
  split.
  - unfold refs_ok in *. cbn. apply Forall_fmap.
    eapply Forall_impl; [exact Hr|]. cbn. intros b Hb. unfold promote.
    by destruct (overdue_query now b).
  - intros id e He. cbn in He. rewrite committed_promote. by apply Hbal.
Qed.

Lemma lending_inv_availability (s : Store) :
  lending_inv s → lending_inv (updateEquipmentAvailability s).
Proof.
  intros (Hd & Hr & Hbal).
  split; [by apply updateEquipmentAvailability_docs_ok|].
  pose proof (docs_ok_valid s Hd) as Hv.
  rewrite updateEquipmentAvailability_spec by done.
  split.
  - unfold refs_ok in *. cbn. by rewrite length_imap.
  - intros id e' He'. cbn in He'. rewrite committed_equipments.
    apply list_lookup_imap_Some in He' as (e & He & ->).
    specialize (Hbal id e He). unfold reconciled.
    destruct (Equipment.isActive e); [|done]. cbn.
    destruct (valid_equipment s id e Hv He) as (_ & Ha & _). lia.
Qed.

Lemma lending_inv_step (now : Z) (r : Request) (s : Store) :
  plain_update r = true →
  keeps_quantity s r = true → return_condition_valid r = true →
  lending_inv s → lending_inv (step now r s).
Proof.
  intros Hp Hk Hc Hs. destruct r as [user rb|path req|rb|id rb|id| |]; cbn.
  - by apply lending_inv_post_borrowing.
  - destruct path; cbn.
    + by apply lending_inv_approve.
    + by apply lending_inv_reject.
    + by apply lending_inv_issue.
    + by apply lending_inv_return.
  - by apply lending_inv_post_equipment.
  - by apply lending_inv_put_equipment.
  - by apply lending_inv_delete_equipment.
  - by apply lending_inv_overdue.
  - by apply lending_inv_availability.
Qed.

Lemma lending_inv_run (trace : list (Z * Request)) (s : Store) :
  quiet trace s = true → lending_inv s → lending_inv (run trace s).
Proof.
  revert s. induction trace as [|[now r] trace IH]; intros s Hq Hs; cbn; [done|].
  cbn in Hq. apply andb_true_iff in Hq as [Hq Hq']. apply andb_true_iff in Hq as [Hk Hc].
  apply andb_true_iff in Hk as [Hp Hk].
  by apply IH, lending_inv_step.
Qed.

(** A quiet run has no update operators. *)
Lemma quiet_plain_run (trace : list (Z * Request)) (s : Store) :
  quiet trace s = true → plain_run trace = true.
Proof.
  revert s. induction trace as [|[now r] trace IH]; intros s Hq; cbn; [done|].
  cbn in Hq. rewrite !andb_true_iff in Hq. destruct Hq as [[[Hp _] _] Hq].
  rewrite Hp. cbn. by eapply IH.
Qed.

Lemma lending_inv_empty : lending_inv empty_store.
Proof.
  split; [apply empty_docs_ok|]. split; [by apply Forall_nil|].
  by intros id e He.
Qed.

(** * The claims *)

(** C10. The second registrations of the approve and return handlers
    compute, for every request and every store, the same response and the
    same store as the first ones; and since the router runs the first
    handler registered for a path, dropping the second registrations
    changes nothing. *)
Theorem duplicate_handlers_equivalent :
  (∀ now req s, patch_approve_2 now req s = patch_approve now req s)
  ∧ (∀ now req s, patch_return_2 now req s = patch_return now req s)
  ∧ (∀ path, dispatch patch_routes path = dispatch patch_routes_once path).
Proof.
  split_and!.
  - intros now req s. unfold patch_approve_2, patch_approve. reflexivity.
  - intros now req s. unfold patch_return_2, patch_return. reflexivity.
  - intros path. by destruct path.
Qed.

(** C6. Approving a pending reservation whose equipment has fewer units
    available than requested answers 400 "Not enough equipment available"
    and leaves the whole store as it was: the available quantity is
    unchanged and the reservation is still pending. *)
Theorem approve_insufficient_stock (now : Z) (req : Req) (s : Store)
    (b : Borrowing.t) (e : Equipment.t) :
  borrowings s !! params_id req = Some b →
  Borrowing.status b = pending →
  equipments s !! Borrowing.equipment b = Some e →
  Equipment.availableQuantity e < Borrowing.quantity b →
  patch_approve now req s
  = (s, mkResponse 400 (JMessage "Not enough equipment available")).
Proof.
  intros Hb Hst He Hlt. unfold patch_approve. unfold_handler.
  rewrite Hb, bool_decide_eq_true_2 by done. cbn. rewrite He.
  apply Z.ltb_lt in Hlt. by rewrite Hlt.
Qed.

Lemma approve_insufficient_stock_witness :
  patch_approve 2 staff_req fully_committed
  = (fully_committed, mkResponse 400 (JMessage "Not enough equipment available")).
Proof.
  apply (approve_insufficient_stock 2 staff_req fully_committed
           (Borrowing.mk 3 0 1 1 700 None pending None None None "good" None None
              DamageReport.initial)
           (Equipment.mk 2 0 "good" true)).
  - reflexivity.
  - reflexivity.
  - reflexivity.
  - cbn. lia.
Defined.

(** C5. When an approve succeeds, the equipment's available quantity went
    down by the reservation's quantity, and a second approve of the same
    reservation answers 400 "Request already processed" and changes
    nothing.  Whatever the first call answered, on a store of valid
    documents the second call leaves the store as the first one left it,
    so two calls in a row never take the stock twice. *)
Theorem approve_twice_decrements_once (now1 now2 : Z) (req1 req2 : Req) (s : Store) :
  store_valid s → params_id req2 = params_id req1 →
  let s1 := (patch_approve now1 req1 s).1 in
  (patch_approve now2 req2 s1).1 = s1
  ∧ (code (patch_approve now1 req1 s).2 = 200 →
     ∃ b e,
       borrowings s !! params_id req1 = Some b
       ∧ equipments s !! Borrowing.equipment b = Some e
       ∧ equipments s1 !! Borrowing.equipment b
         = Some (Equipment.set_availableQuantity
                   (Equipment.availableQuantity e - Borrowing.quantity b) e)
       ∧ patch_approve now2 req2 s1
         = (s1, mkResponse 400 (JMessage "Request already processed"))).
Proof.
  intros Hs Hid s1.
  assert (code (patch_approve now1 req1 s).2 = 200 →
     ∃ b e,
       borrowings s !! params_id req1 = Some b
       ∧ equipments s !! Borrowing.equipment b = Some e
       ∧ equipments s1 !! Borrowing.equipment b
         = Some (Equipment.set_availableQuantity
                   (Equipment.availableQuantity e - Borrowing.quantity b) e)
       ∧ patch_approve now2 req2 s1
         = (s1, mkResponse 400 (JMessage "Request already processed"))) as Hok.
  { intros Hc. subst s1.
    destruct (patch_approve now1 req1 s) as [s1 r1] eqn:H1. cbn in *.
    destruct (patch_approve_ok _ _ _ _ _ H1 Hc) as (b & e & Hb & Hst & He & Hle & -> & _).
    exists b, e. split_and!; [done|done| |].
    - cbn. apply list_lookup_insert_eq. by eapply lookup_lt_Some.
    - apply (patch_approve_processed _ _ _ (approved_by now1 req1 b)); [|done].
      cbn. rewrite Hid. apply list_lookup_insert_eq. by eapply lookup_lt_Some. }
  split; [|done].
  destruct (patch_approve_store now1 req1 s Hs)
    as [Hsame|(b & e & Hb & Hst & He & Hle & Hshape)].
  - (* the first call wrote nothing: the second sees the same store *)
    subst s1. rewrite Hsame.
    destruct (patch_approve_store now2 req2 s Hs)
      as [Hsame2|(b & e & Hb & Hst & He & Hle & Hshape)]; [done|].
    (* the second call cannot succeed where the first, on the same store, did not *)
    exfalso. rewrite Hid in Hb.
    assert ((patch_approve now1 req1 s).1 ≠ s) as Hne; [|done].
    clear Hsame. unfold patch_approve. unfold_handler.
    rewrite Hb, bool_decide_eq_true_2 by done. cbn. rewrite He.
    apply Z.ltb_ge in Hle. rewrite Hle. cbn.
    destruct (valid_equipment s _ e Hs He) as (_ & _ & Hv).
    destruct (valid_borrowing s _ b Hs Hb) as (? & Hvb & _).
    apply Z.ltb_ge in Hle.
    rewrite validate_set_available by (done || lia). cbn.
    change (Borrowing.validate _) with (Borrowing.validate b). rewrite Hvb. cbn.
    intros Heq. apply (f_equal borrowings) in Heq. cbn in Heq.
    apply (f_equal (λ l, Borrowing.status <$> l !! params_id req1)) in Heq.
    rewrite list_lookup_insert_eq in Heq by (by eapply lookup_lt_Some).
    rewrite Hb in Heq. cbn in Heq. congruence.
  - destruct Hok as (? & ? & _ & _ & _ & ->); [|done].
    subst s1. unfold patch_approve. unfold_handler.
    rewrite Hb, bool_decide_eq_true_2 by done. cbn. rewrite He.
    apply Z.ltb_ge in Hle. rewrite Hle. cbn.
    destruct (valid_equipment s _ e Hs He) as (_ & _ & Hv).
    destruct (valid_borrowing s _ b Hs Hb) as (? & Hvb & _).
    apply Z.ltb_ge in Hle.
    rewrite validate_set_available by (done || lia). cbn.
    change (Borrowing.validate _) with (Borrowing.validate b). by rewrite Hvb.
Qed.

Lemma approve_twice_decrements_once_witness :
  let s := run requested empty_store in
  let s1 := (patch_approve 2 staff_req s).1 in
  Equipment.availableQuantity <$> equipments s1 !! 0%nat = Some 2
  ∧ patch_approve 5 staff_req s1
    = (s1, mkResponse 400 (JMessage "Request already processed")).
Proof.
  intros s s1.
  assert (store_valid s) as Hs by (split; repeat constructor).
  destruct (approve_twice_decrements_once 2 5 staff_req staff_req s Hs eq_refl)
    as [_ Hok].
  destruct (Hok eq_refl) as (b & e & Hb & He & He1 & H2).
  split; [|exact H2]. reflexivity.
Defined.

(** The condition the overdue sweep looks for. *)
Lemma overdue_query_spec (now : Z) (b : Borrowing.t) :
  overdue_query now b = true
  ↔ (Borrowing.status b = approved ∨ Borrowing.status b = issued)
    ∧ Borrowing.dueDate b < now ∧ Borrowing.returnDate b = None.
Proof.
  split; [apply overdue_query_status|].
  intros (Hst & Hdue & Hret). unfold overdue_query.
  rewrite !andb_true_iff, bool_decide_eq_true, Z.ltb_lt. split_and!; [|done|done].
  destruct Hst as [-> | ->]; by vm_compute.
Qed.

(** C8. After one run of the overdue sweep over a store of valid
    documents, every reservation that was approved or issued, due strictly
    before [now] and without return date is the same document with status
    [overdue]; every other reservation is unchanged; no reservation is
    added or removed; and the equipment collection is untouched. *)
Theorem overdue_sweep_promotes (now : Z) (s : Store) :
  store_valid s →
  let s' := checkOverdueBorrowings now s in
  equipments s' = equipments s
  ∧ length (borrowings s') = length (borrowings s)
  ∧ ∀ id b, borrowings s !! id = Some b →
      ((Borrowing.status b = approved ∨ Borrowing.status b = issued)
       ∧ Borrowing.dueDate b < now ∧ Borrowing.returnDate b = None →
       borrowings s' !! id = Some (Borrowing.set_status overdue b))
      ∧ (¬ ((Borrowing.status b = approved ∨ Borrowing.status b = issued)
            ∧ Borrowing.dueDate b < now ∧ Borrowing.returnDate b = None) →
         borrowings s' !! id = Some b).
Proof.
  intros Hs s'. subst s'. rewrite checkOverdueBorrowings_spec by done. cbn.
  split_and!; [done|by rewrite length_fmap|].
  intros id b Hb. rewrite list_lookup_fmap, Hb. cbn. unfold promote.
  split.
  - intros Hq%overdue_query_spec. by rewrite Hq.
  - intros Hq. destruct (overdue_query now b) eqn:Hq'; [|done].
    by apply overdue_query_spec in Hq'.
Qed.

(** Scenario C of the specification: issued, due in the past, not returned. *)
Lemma overdue_sweep_promotes_witness :
  Borrowing.status
  <$> borrowings (checkOverdueBorrowings 1000 (run lent empty_store)) !! 0%nat
  = Some overdue.
Proof.
  assert (store_valid (run lent empty_store)) as Hs by (split; repeat constructor).
  destruct (overdue_sweep_promotes 1000 (run lent empty_store) Hs) as (_ & _ & H).
  destruct (H 0%nat
              (Borrowing.mk 3 0 3 1 700 None issued (Some 7%nat) (Some 2) (Some 3)
                 "good" None None DamageReport.initial) eq_refl) as [Hp _].
  rewrite Hp; [reflexivity|]. cbn. split_and!; [by right|lia|done].
Defined.

(** * The bounds of the available quantity *)

(** C1 as stated fails: the run above ends with 5 units available of 3. *)
Lemma available_exceeds_total_counterexample :
  ¬ (∀ trace id e,
       equipments (run trace empty_store) !! id = Some e →
       0 ≤ Equipment.availableQuantity e ≤ Equipment.quantity e).
Proof.
  intros H.
  assert (equipments (run shrunk_then_returned empty_store) !! 0%nat
          = Some (Equipment.mk 3 5 "good" true)) as He
    by (vm_compute; reflexivity).
  apply H in He. cbn in He. lia.
Qed.

(** C1, amended. In every state the server reaches by a run whose PUT
    bodies carry no update operators, the available quantity of every
    equipment is at least 0.  It is at most the total quantity in every
    state reached by a run in which, in addition, no update lowers a
    quantity and every return request has a body the schema accepts (a
    [conditionAfter] that is absent, empty or in the enum, and [notes] that
    can be cast to a string).  The return handler itself adds the
    reservation's quantity back as it is, without a bound. *)
Theorem available_quantity_bounds (trace : list (Z * Request)) (id : nat)
    (e : Equipment.t) :
  equipments (run trace empty_store) !! id = Some e →
  (plain_run trace = true → 0 ≤ Equipment.availableQuantity e)
  ∧ (quiet trace empty_store = true →
     Equipment.availableQuantity e ≤ Equipment.quantity e)
  ∧ (∀ now req s' r,
       patch_return now req (run trace empty_store) = (s', r) → code r = 200 →
       ∃ b e0,
         borrowings (run trace empty_store) !! params_id req = Some b
         ∧ equipments (run trace empty_store) !! Borrowing.equipment b = Some e0
         ∧ equipments s' !! Borrowing.equipment b
           = Some (Equipment.set_availableQuantity
                     (Equipment.availableQuantity e0 + Borrowing.quantity b) e0)).
Proof.
  intros He. split_and!.
  - intros Hp.
    by destruct (valid_equipment _ id e (plain_run_store_valid _ Hp) He)
      as (_ & ? & _).
  - intros Hq.
    assert (lending_inv (run trace empty_store)) as Hinv
      by (by apply lending_inv_run; [|apply lending_inv_empty]).
    by destruct (lending_inv_bounds _ id e Hinv He).
  - intros now req s' r Hret Hc.
    destruct (patch_return_ok _ _ _ _ _ Hret Hc) as (b & e0 & Hb & _ & He0 & -> & _).
    exists b, e0. split_and!; [done|done|]. cbn.
    apply list_lookup_insert_eq. by eapply lookup_lt_Some.
Qed.

Lemma available_quantity_bounds_witness :
  0 ≤ Equipment.availableQuantity (Equipment.mk 5 5 "good" true)
      ≤ Equipment.quantity (Equipment.mk 5 5 "good" true).
Proof.
  assert (equipments (run lent_and_returned empty_store) !! 0%nat
          = Some (Equipment.mk 5 5 "good" true)) as He
    by (vm_compute; reflexivity).
  destruct (available_quantity_bounds lent_and_returned 0 _ He) as (Hlo & Hhi & _).
  split; [apply Hlo|apply Hhi]; vm_compute; reflexivity.
Defined.

(** Why the amended C1 leaves out returns with an invalid condition: the
    equipment is saved before the reservation, whose save then fails on the
    enum; the reservation stays issued and can be returned again. *)
Lemma failed_return_releases_twice :
  patch_return 4 (mkReq 0 7 (Some "broken") None) (run lent empty_store)
  = (mkStore [Equipment.mk 5 5 "good" true] (borrowings (run lent empty_store)),
     mkResponse 500 (JMessage "Server error"))
  ∧ equipments (run released_twice empty_store) = [Equipment.mk 5 8 "good" true].
Proof. split; vm_compute; reflexivity. Qed.

(** The same happens when [notes] is an object: the stock is released,
    the reservation's save fails on the cast, and the return can be sent
    again. *)
Lemma failed_return_on_notes :
  patch_return 4 (mkReq 0 7 None (Some body_object)) (run lent empty_store)
  = (mkStore [Equipment.mk 5 5 "good" true] (borrowings (run lent empty_store)),
     mkResponse 500 (JMessage "Server error"))
  ∧ equipments (run released_on_notes empty_store) = [Equipment.mk 5 8 "good" true].
Proof. split; vm_compute; reflexivity. Qed.

(** Why it leaves out update operators: the PUT handler takes the
    top-level key [availableQuantity] out of the body and passes the rest
    to MongoDB, [$inc] included, on which no validator runs. *)
Lemma update_operators_break_bounds :
  put_equipment 0 (inc_availableQuantity (-7)) stocked
  = (mkStore [Equipment.mk 5 (-2) "good" true] [],
     mkResponse 200 (JEquipment (Equipment.mk 5 (-2) "good" true)))
  ∧ put_equipment 0 (inc_availableQuantity 7) stocked
    = (mkStore [Equipment.mk 5 12 "good" true] [],
       mkResponse 200 (JEquipment (Equipment.mk 5 12 "good" true))).
Proof. split; vm_compute; reflexivity. Qed.




(** * Editing the quantity *)

(** The plain fields of a PUT body never write [availableQuantity]. *)
Lemma put_equipment_available (id : nat) (rb : EquipmentBody.t) (s : Store)
    (e e' : Equipment.t) :
  EquipmentBody.operators rb = None →
  equipments s !! id = Some e →
  equipments (put_equipment id rb s).1 !! id = Some e' →
  Equipment.availableQuantity e' = Equipment.availableQuantity e.
Proof.
  intros Hops He He'.
  destruct (put_equipment_store id rb s) as [Hs|(e0 & He0 & Hs)];
    rewrite Hs in He'; [congruence|].
  cbn in He'. rewrite list_lookup_insert_eq in He' by (by eapply lookup_lt_Some).
  injection He' as <-. unfold apply_update. cbn. rewrite Hops. cbn. congruence.
Qed.

(** Nor would the hooks, had the route gone through [save()]: on a
    document just loaded [_originalQuantity] is unset, so the "old"
    quantity they subtract is the new one. *)
Lemma pre_save_after_assign_quantity (q : Z) (e : Equipment.t) :
  Equipment.availableQuantity
    (Equipment.fields
       (Equipment.pre_save_store_original
          (Equipment.pre_save_adjust
             (Equipment.assign_quantity q (Equipment.loaded e)))))
  = if q =? Equipment.quantity e
    then Equipment.availableQuantity e
    else Z.max 0 (Equipment.availableQuantity e).
Proof.
  unfold Equipment.pre_save_adjust, Equipment.pre_save_store_original,
    Equipment.originalQuantity_or_quantity, Equipment.assign_quantity,
    Equipment.loaded.
  cbn [Equipment.isNew Equipment.isModified_quantity Equipment.fields
       Equipment._originalQuantity orb].
  destruct (q =? Equipment.quantity e); cbn; [done|].
  f_equal. lia.
Qed.

(** C3 (the code departs from it). Five units, all available; the
    quantity is edited to 2.  The PUT route answers 200 with quantity 2
    and available quantity still 5, where the resize rule gives
    min (max (5 + (2 - 5)) 0) 2 = 2; the schema hooks, run on the same
    edit, would leave 5 as well. *)
Theorem put_quantity_leaves_available :
  put_equipment 0 (set_quantity_body 2) (mkStore [Equipment.mk 5 5 "good" true] [])
  = (mkStore [Equipment.mk 2 5 "good" true] [],
     mkResponse 200 (JEquipment (Equipment.mk 2 5 "good" true)))
  ∧ Equipment.fields
      (Equipment.pre_save_store_original
         (Equipment.pre_save_adjust
            (Equipment.assign_quantity 2
               (Equipment.loaded (Equipment.mk 5 5 "good" true)))))
    = Equipment.mk 2 5 "good" true.
Proof. split; vm_compute; reflexivity. Qed.

(** * Strings *)

Lemma trim_examples :
  trim " late " = "late" ∧ trim " " = EmptyString
  ∧ trim "Basketball Set" = "Basketball Set"
  ∧ trim (bytes [9; 194; 160; 65; 32; 66; 226; 128; 137; 10]%nat) = "A B".
Proof. vm_compute. by split_and!. Qed.

(** * Admission of a request *)


Lemma equipmentId_Some (rb : BorrowingBody) (eid : nat) :
  equipmentId rb = Some eid ↔ body_equipmentId rb = id_of eid.
Proof. unfold equipmentId. destruct (body_equipmentId rb); naive_solver. Qed.








(** What the amended C4 leaves out ends in the catch block, or in one of
    the refusals above, with nothing written: an equipment id that is not
    an ObjectId; a date [isISO8601()] accepts but JavaScript cannot read;
    an equipment id that is an object of query operators; a quantity that
    is an array. *)
Lemma post_borrowing_cast_errors (now : Z) (user : nat) (rb : BorrowingBody)
    (s : Store) :
  borrowing_validationResult rb = [] →
  (body_equipmentId rb = id_malformed →
   post_borrowing now user rb s = (s, mkResponse 500 (JMessage "Server error")))
  ∧ (∀ eid e,
       body_equipmentId rb = id_of eid → equipments s !! eid = Some e →
       Equipment.isActive e = true →
       lt_quantity (Equipment.availableQuantity e) (body_quantity rb) = false →
       body_dueDate rb = date_unread →
       post_borrowing now user rb s = (s, mkResponse 500 (JMessage "Server error")))
  ∧ ((∀ eid, body_equipmentId rb ≠ id_of eid)
     ∨ (∀ q, body_quantity rb ≠ quantity_of q) →
     (post_borrowing now user rb s).1 = s
     ∧ code (post_borrowing now user rb s).2 ≠ 201).
Proof.
  intros Hv. split_and!.
  - unfold post_borrowing. unfold_handler. rewrite Hv. cbn. by intros ->.
  - unfold post_borrowing. unfold_handler. rewrite Hv. cbn.
    intros eid e -> -> -> -> ->. done.
  - intros Hno.
    destruct (post_borrowing_result now user rb s)
      as [?|(eid & q & due & e & Heid & Hq & _)]; [done|].
    destruct Hno as [Hno|Hno]; [by destruct (Hno eid)|by destruct (Hno q)].
Qed.

(** Three units asked for as the array [[3]], and a request with the
    equipment id [{"$ne": null}], reach [save()], which refuses them. *)
Lemma post_borrowing_uncastable :
  post_borrowing 1 3 (mkBody (id_of 0) (quantity_array [3]) (date_of 700)) stocked
  = (stocked, mkResponse 500 (JMessage "Server error"))
  ∧ post_borrowing 1 3 (mkBody (id_query (λ _, true)) (quantity_of 3) (date_of 700))
      stocked
    = (stocked, mkResponse 500 (JMessage "Server error")).
Proof. split; vm_compute; reflexivity. Qed.

(** * Further properties of the routes and sweeps *)

(** ** Every write to the two collections *)

Lemma patch_approve_writes (now : Z) (req : Req) (s : Store) :
  (borrowings (patch_approve now req s).1 = borrowings s
   ∨ ∃ b, borrowings s !! params_id req = Some b
        ∧ Borrowing.status b = pending
        ∧ borrowings (patch_approve now req s).1
          = <[params_id req := approved_by now req b]> (borrowings s))
  ∧ (equipments (patch_approve now req s).1 = equipments s
     ∨ ∃ b e, borrowings s !! params_id req = Some b
            ∧ equipments s !! Borrowing.equipment b = Some e
            ∧ equipments (patch_approve now req s).1
              = <[Borrowing.equipment b :=
                    Equipment.set_availableQuantity
                      (Equipment.availableQuantity e - Borrowing.quantity b) e]>
                  (equipments s)).
Proof.
  unfold patch_approve. unfold_handler.
  destruct (borrowings s !! params_id req) as [b|] eqn:Hb; [|by split; left].
  destruct (bool_decide (Borrowing.status b = pending)) eqn:Hst; [|by split; left].
  apply bool_decide_eq_true in Hst. cbn.
  destruct (equipments s !! Borrowing.equipment b) as [e|] eqn:He; [|by split; left].
  destruct (_ <? _); [by split; left|]. cbn.
  destruct (Equipment.validate _); [|by split; left]. cbn.
  destruct (Borrowing.validate _); cbn.
  - split; right; [by exists b|by exists b, e].
  - split; [by left|right; by exists b, e].
Qed.

Lemma patch_reject_writes (now : Z) (req : Req) (s : Store) :
  (borrowings (patch_reject now req s).1 = borrowings s
   ∨ ∃ b, borrowings s !! params_id req = Some b
        ∧ Borrowing.status b = pending
        ∧ borrowings (patch_reject now req s).1
          = <[params_id req := rejected_by now req b]> (borrowings s))
  ∧ equipments (patch_reject now req s).1 = equipments s.
Proof.
  destruct (patch_reject_store now req s) as [->|(b & Hb & Hst & ->)].
  - by split; [left|].
  - split; [right; by exists b|done].
Qed.

Lemma patch_issue_writes (now : Z) (req : Req) (s : Store) :
  (borrowings (patch_issue now req s).1 = borrowings s
   ∨ ∃ b, borrowings s !! params_id req = Some b
        ∧ Borrowing.status b = approved
        ∧ borrowings (patch_issue now req s).1
          = <[params_id req := issued_at now b]> (borrowings s))
  ∧ equipments (patch_issue now req s).1 = equipments s.
Proof.
  destruct (patch_issue_store now req s) as [->|(b & Hb & Hst & ->)].
  - by split; [left|].
  - split; [right; by exists b|done].
Qed.

Lemma patch_return_writes (now : Z) (req : Req) (s : Store) :
  (borrowings (patch_return now req s).1 = borrowings s
   ∨ ∃ b, borrowings s !! params_id req = Some b
        ∧ (Borrowing.status b = issued ∨ Borrowing.status b = overdue)
        ∧ Borrowing.validate (returned_by now req b) = true
        ∧ borrowings (patch_return now req s).1
          = <[params_id req := returned_by now req b]> (borrowings s))
  ∧ (equipments (patch_return now req s).1 = equipments s
     ∨ ∃ b e, borrowings s !! params_id req = Some b
            ∧ equipments s !! Borrowing.equipment b = Some e
            ∧ equipments (patch_return now req s).1
              = <[Borrowing.equipment b :=
                    Equipment.set_availableQuantity
                      (Equipment.availableQuantity e + Borrowing.quantity b) e]>
                  (equipments s)).
Proof.
  unfold patch_return. unfold_handler.
  destruct (borrowings s !! params_id req) as [b|] eqn:Hb; [|by split; left].
  destruct (status_in (Borrowing.status b) [issued; overdue]) eqn:Hst;
    [|by split; left].
  apply status_in_issued_overdue in Hst. cbn.
  destruct (equipments s !! Borrowing.equipment b) as [e|] eqn:He; [|by split; left].
  destruct (Equipment.validate _); [|by split; left]. cbn.
  fold (returned_by now req b).
  destruct (castable _); [|split; [by left|right; by exists b, e]].
  destruct (Borrowing.validate _) eqn:Hv; cbn.
  - split; right; [by exists b|by exists b, e].
  - split; [by left|right; by exists b, e].
Qed.

(** What a PATCH request does to the reservations: nothing, or one of the
    four writes at [req.params.id], of a document that passes validation
    when the one it replaces does. *)
Lemma patch_borrowings_valid (now : Z) (path : PatchPath) (req : Req) (s : Store) :
  borrowings (step now (PATCH path req) s) = borrowings s
  ∨ ∃ b b', borrowings s !! params_id req = Some b
          ∧ borrowing_write now b b'
          ∧ (Borrowing.validate b = true → Borrowing.validate b' = true)
          ∧ borrowings (step now (PATCH path req) s)
            = <[params_id req := b']> (borrowings s).
Proof.
  destruct path; cbn.
  - destruct (patch_approve_writes now req s) as [[?|(b & ? & ? & ?)] _];
      [by left|right]. exists b, (approved_by now req b).
    split_and!; [done|by constructor|done|done].
  - destruct (patch_reject_writes now req s) as [[?|(b & ? & ? & ?)] _];
      [by left|right]. exists b, (rejected_by now req b).
    destruct (rejected_by_fields now req b) as (_ & _ & Hv & _).
    split_and!; [done|by constructor|by rewrite Hv|done].
  - destruct (patch_issue_writes now req s) as [[?|(b & ? & ? & ?)] _];
      [by left|right]. exists b, (issued_at now b).
    split_and!; [done|by constructor|done|done].
  - destruct (patch_return_writes now req s) as [[?|(b & ? & ? & ? & ?)] _];
      [by left|right]. exists b, (returned_by now req b).
    split_and!; [done|by constructor|done|done].
Qed.

Lemma patch_borrowings (now : Z) (path : PatchPath) (req : Req) (s : Store) :
  borrowings (step now (PATCH path req) s) = borrowings s
  ∨ ∃ b b', borrowings s !! params_id req = Some b
          ∧ borrowing_write now b b'
          ∧ borrowings (step now (PATCH path req) s)
            = <[params_id req := b']> (borrowings s).
Proof.
  destruct (patch_borrowings_valid now path req s)
    as [?|(b & b' & ? & ? & _ & ?)]; [by left|right]. by exists b, b'.
Qed.

(** The sweep only relabels. *)
Lemma validate_promote (now : Z) (b : Borrowing.t) :
  Borrowing.validate (promote now b) = Borrowing.validate b.
Proof. unfold promote. by destruct (overdue_query now b). Qed.

(** A stored reservation after one step: it is still there, written by at
    most one of the transitions, and still valid.  This needs nothing of
    the equipment documents. *)
Lemma step_borrowing_valid (now : Z) (r : Request) (s : Store) (id : nat)
    (b : Borrowing.t) :
  borrowings_valid s → borrowings s !! id = Some b →
  ∃ b', borrowings (step now r s) !! id = Some b' ∧ borrowing_write now b b'
      ∧ Borrowing.validate b' = true.
Proof.
  intros Hv Hb.
  assert (Borrowing.validate b = true) as Hvb
    by (by eapply (proj1 (Forall_lookup _ _) Hv)).
  destruct r as [user rb|path req|rb|id' rb|id'| |].
  - exists b. split_and!; [|constructor|done]. cbn.
    destruct (post_borrowing_store now user rb s) as [->|(b' & _ & _ & ->)];
      [done|]. cbn. by apply lookup_app_l_Some.
  - destruct (patch_borrowings_valid now path req s)
      as [->|(b0 & b' & Hb0 & Hw & Hvw & ->)].
    { exists b. split_and!; [done|constructor|done]. }
    destruct (decide (params_id req = id)) as [<-|Hne].
    + rewrite Hb in Hb0. injection Hb0 as <-. exists b'.
      split_and!; [|done|by apply Hvw].
      apply list_lookup_insert_eq. by eapply lookup_lt_Some.
    + exists b. split_and!; [|constructor|done]. by rewrite list_lookup_insert_ne.
  - exists b. split_and!; [|constructor|done]. cbn.
    by destruct (post_equipment_store rb s) as [->|(e & _ & ->)].
  - exists b. split_and!; [|constructor|done]. cbn.
    by destruct (put_equipment_store id' rb s) as [->|(e & _ & ->)].
  - exists b. split_and!; [|constructor|done]. cbn.
    by destruct (delete_equipment_store id' s) as [->|(e & _ & ->)].
  - cbn. rewrite checkOverdueBorrowings_promote by done. cbn.
    rewrite list_lookup_fmap, Hb. cbn.
    exists (promote now b). split_and!; [done| |by rewrite validate_promote].
    unfold promote. destruct (overdue_query now b) eqn:Hq; by constructor.
  - exists b. split_and!; [|constructor|done]. cbn.
    by rewrite updateEquipmentAvailability_borrowings.
Qed.

Lemma step_borrowing (now : Z) (r : Request) (s : Store) (id : nat)
    (b : Borrowing.t) :
  store_valid s → borrowings s !! id = Some b →
  ∃ b', borrowings (step now r s) !! id = Some b' ∧ borrowing_write now b b'.
Proof.
  intros [_ Hv] Hb.
  destruct (step_borrowing_valid now r s id b Hv Hb) as (b' & ? & ? & _).
  by exists b'.
Qed.

(** A reservation that appears in a step is the document POST
    /api/borrowings builds. *)
Lemma step_new_borrowing_valid (now : Z) (r : Request) (s : Store) (id : nat)
    (b : Borrowing.t) :
  borrowings_valid s →
  borrowings s !! id = None → borrowings (step now r s) !! id = Some b →
  Borrowing.validate b = true
  ∧ ∃ user eid q due cb,
      b = Borrowing.mk user eid q now due None pending None None None cb
            None None DamageReport.initial.
Proof.
  intros Hv Hnone Hb.
  destruct r as [user rb|path req|rb|id' rb|id'| |]; cbn in Hb.
  - destruct (post_borrowing_result now user rb s)
      as [[Heq _]|(eid & q & due & e & _ & _ & _ & _ & _ & _ & _ & _ & Hvb & Heq)];
      rewrite Heq in Hb; [congruence|]. cbn in Hb.
    apply lookup_app_Some in Hb as [Hb|[_ Hb]]; [congruence|].
    destruct (id - length (borrowings s))%nat; [|done].
    injection Hb as <-. split; [done|]. by eexists _, _, _, _, _.
  - exfalso.
    destruct (patch_borrowings now path req s) as [Heq|(b0 & b' & Hb0 & Hw & Heq)];
      cbn in Heq; rewrite Heq in Hb; [congruence|].
    apply lookup_ge_None in Hnone.
    apply lookup_lt_Some in Hb. rewrite length_insert in Hb. lia.
  - exfalso.
    destruct (post_equipment_store rb s) as [Heq|(e & _ & Heq)];
      rewrite Heq in Hb; cbn in Hb; congruence.
  - exfalso.
    destruct (put_equipment_store id' rb s) as [Heq|(e & _ & Heq)];
      rewrite Heq in Hb; cbn in Hb; congruence.
  - exfalso.
    destruct (delete_equipment_store id' s) as [Heq|(e & _ & Heq)];
      rewrite Heq in Hb; cbn in Hb; congruence.
  - exfalso. rewrite checkOverdueBorrowings_promote in Hb by done. cbn in Hb.
    rewrite list_lookup_fmap, Hnone in Hb. done.
  - exfalso. rewrite updateEquipmentAvailability_borrowings in Hb. congruence.
Qed.

Lemma step_new_borrowing (now : Z) (r : Request) (s : Store) (id : nat)
    (b : Borrowing.t) :
  store_valid s →
  borrowings s !! id = None → borrowings (step now r s) !! id = Some b →
  ∃ user eid q due cb,
    b = Borrowing.mk user eid q now due None pending None None None cb
          None None DamageReport.initial.
Proof. intros [_ Hv] Hnone Hb. by eapply step_new_borrowing_valid. Qed.

(** The reservations stay valid whatever is served. *)
Lemma step_borrowings_valid (now : Z) (r : Request) (s : Store) :
  borrowings_valid s → borrowings_valid (step now r s).
Proof.
  intros Hv. apply Forall_lookup. intros id b' Hb'.
  destruct (borrowings s !! id) as [b|] eqn:Hb.
  - destruct (step_borrowing_valid now r s id b Hv Hb) as (b'' & Hb'' & _ & ?).
    congruence.
  - by destruct (step_new_borrowing_valid now r s id b' Hv Hb Hb').
Qed.

Lemma run_borrowings_valid (trace : list (Z * Request)) (s : Store) :
  borrowings_valid s → borrowings_valid (run trace s).
Proof.
  revert s. induction trace as [|[now r] trace IH]; intros s Hv; [done|].
  cbn. by apply IH, step_borrowings_valid.
Qed.

(** ** The life cycle of a reservation *)

Lemma borrowing_write_fields (now : Z) (b b' : Borrowing.t) :
  borrowing_write now b b' →
  Borrowing.user b' = Borrowing.user b
  ∧ Borrowing.equipment b' = Borrowing.equipment b
  ∧ Borrowing.quantity b' = Borrowing.quantity b
  ∧ Borrowing.borrowDate b' = Borrowing.borrowDate b
  ∧ Borrowing.dueDate b' = Borrowing.dueDate b
  ∧ Borrowing.conditionBefore b' = Borrowing.conditionBefore b.
Proof.
  intros Hw. destruct Hw as [b|req b _|req b _|b _|req b _|b _]; try done.
  - unfold rejected_by, assign_notes. by destruct (or_value _ _) as [[?|]|].
  - unfold returned_by, assign_notes.
    by destruct (truthy _ && _), (or_value _ _) as [[?|]|].
Qed.

Lemma borrowing_write_status (now : Z) (b b' : Borrowing.t) :
  borrowing_write now b b' →
  b' = b ∨ lifecycle_edge (Borrowing.status b) (Borrowing.status b') = true.
Proof.
  intros Hw. destruct Hw as [b|req b Hst|req b Hst|b Hst|req b Hst|b Hq].
  - by left.
  - right. cbn. by rewrite Hst.
  - right. destruct (rejected_by_fields now req b) as (-> & _). by rewrite Hst.
  - right. cbn. by rewrite Hst.
  - right. destruct (returned_by_fields now req b) as (_ & _ & ->).
    by destruct Hst as [-> | ->].
  - right. apply overdue_query_status in Hq as [Hst _]. cbn.
    by destruct Hst as [-> | ->].
Qed.

(** The equipment and the quantity of a reservation, along a run. *)
Lemma run_borrowing_fields (trace : list (Z * Request)) (s : Store) (id : nat)
    (b : Borrowing.t) :
  borrowings_valid s → borrowings s !! id = Some b →
  ∃ b', borrowings (run trace s) !! id = Some b'
      ∧ Borrowing.equipment b' = Borrowing.equipment b
      ∧ Borrowing.quantity b' = Borrowing.quantity b.
Proof.
  revert s b. induction trace as [|[now r] trace IH]; intros s b Hv Hb.
  { by exists b. }
  destruct (step_borrowing_valid now r s id b Hv Hb) as (b1 & Hb1 & Hw & _).
  destruct (borrowing_write_fields now b b1 Hw) as (_ & Heq & Hq & _).
  destruct (IH (step now r s) b1 (step_borrowings_valid now r s Hv) Hb1)
    as (b' & Hb' & Heq' & Hq').
  exists b'. cbn. split_and!; [done|congruence|congruence].
Qed.

(** C7. Let a reservation be approved, on a store whose reservations are
    valid.  The operations that make its return possible, the issue route
    and the overdue sweep, leave the equipment collection as it is.  And
    whatever is served after the approval, provided the equipment document
    of the reservation is, when the return is made, what the approval left
    (no other operation on that equipment has had an effect), a successful
    return of the reservation puts this document back to what it was
    before the approval: the available quantity is restored. *)
Theorem approve_return_round_trip (now1 : Z) (req1 : Req) (s s1 : Store)
    (r1 : Response) (b : Borrowing.t) :
  borrowings_valid s →
  borrowings s !! params_id req1 = Some b →
  patch_approve now1 req1 s = (s1, r1) → code r1 = 200 →
  (∀ now2 req2, equipments (step now2 (PATCH path_issue req2) s1) = equipments s1)
  ∧ (∀ now2, equipments (step now2 Sweep_overdue s1) = equipments s1)
  ∧ ∀ between now3 req3 s3 r3,
      params_id req3 = params_id req1 →
      equipments (run between s1) !! Borrowing.equipment b
      = equipments s1 !! Borrowing.equipment b →
      patch_return now3 req3 (run between s1) = (s3, r3) → code r3 = 200 →
      equipments s3 !! Borrowing.equipment b
      = equipments s !! Borrowing.equipment b
      ∧ Equipment.availableQuantity <$> equipments s3 !! Borrowing.equipment b
        = Equipment.availableQuantity <$> equipments s !! Borrowing.equipment b.
Proof.
  intros Hv Hb H1 Hc1.
  assert (borrowings_valid s1) as Hv1.
  { pose proof (step_borrowings_valid now1 (PATCH path_approve req1) s Hv) as H.
    change (step now1 (PATCH path_approve req1) s)
      with (patch_approve now1 req1 s).1 in H.
    by rewrite H1 in H. }
  destruct (patch_approve_ok _ _ _ _ _ H1 Hc1)
    as (b0 & e & Hb0 & Hst & He & Hle & -> & _).
  rewrite Hb in Hb0. injection Hb0 as <-.
  split_and!.
  - intros now2 req2.
    change (step now2 (PATCH path_issue req2) ?x) with (patch_issue now2 req2 x).1.
    by destruct (patch_issue_writes now2 req2
                   (mkStore
                      (<[Borrowing.equipment b :=
                           Equipment.set_availableQuantity
                             (Equipment.availableQuantity e - Borrowing.quantity b) e]>
                         (equipments s))
                      (<[params_id req1 := approved_by now1 req1 b]> (borrowings s))))
      as [_ ->].
  - intros now2.
    change (step now2 Sweep_overdue ?x) with (checkOverdueBorrowings now2 x).
    by rewrite checkOverdueBorrowings_promote.
  - intros between now3 req3 s3 r3 Hid Hsame H3 Hc3.
    enough (equipments s3 !! Borrowing.equipment b
            = equipments s !! Borrowing.equipment b) as Heq by (by rewrite Heq).
    set (s1 := mkStore _ _) in *.
    assert (borrowings s1 !! params_id req1 = Some (approved_by now1 req1 b)) as Hb1.
    { cbn. apply list_lookup_insert_eq. by eapply lookup_lt_Some. }
    destruct (run_borrowing_fields between s1 _ _ Hv1 Hb1) as (b2 & Hb2 & Heq2 & Hq2).
    cbn in Heq2, Hq2.
    destruct (patch_return_ok _ _ _ _ _ H3 Hc3)
      as (b3 & e3 & Hb3 & Hst3 & He3 & -> & _).
    rewrite Hid, Hb2 in Hb3. injection Hb3 as <-.
    rewrite Heq2 in He3 |- *. rewrite Hq2.
    pose proof (lookup_lt_Some _ _ _ He3) as Hlt.
    rewrite Hsame in He3. cbn in He3.
    rewrite list_lookup_insert_eq in He3 by (by eapply lookup_lt_Some).
    injection He3 as <-. cbn.
    rewrite list_lookup_insert_eq by done.
    rewrite He. f_equal. destruct e as [q a c act]. cbn.
    unfold Equipment.set_availableQuantity. cbn. f_equal. lia.
Qed.

(** Scenario A of the specification. *)
Lemma approve_return_round_trip_witness :
  let s := run requested empty_store in
  let s1 := (patch_approve 2 staff_req s).1 in
  let s2 := run [(3, PATCH path_issue staff_req)] s1 in
  Equipment.availableQuantity <$> equipments (patch_return 4 staff_req s2).1 !! 0%nat
  = Some 5.
Proof.
  intros s s1 s2.
  assert (borrowings_valid s) as Hv by (repeat constructor).
  destruct (approve_return_round_trip 2 staff_req s s1 (patch_approve 2 staff_req s).2
              (Borrowing.mk 3 0 3 1 700 None pending None None None "good" None None
                 DamageReport.initial) Hv eq_refl)
    as (_ & _ & H); [vm_compute; reflexivity|vm_compute; reflexivity|].
  destruct (H [(3, PATCH path_issue staff_req)] 4 staff_req
              (patch_return 4 staff_req s2).1 (patch_return 4 staff_req s2).2)
    as [_ Ha];
    [reflexivity|vm_compute; reflexivity|vm_compute; reflexivity
    |vm_compute; reflexivity|].
  exact Ha.
Defined.

(** X1. Whatever request or sweep is served on a store of valid
    documents, a stored reservation stays at its id, and either is left
    exactly as it was or its status moves along one edge of
    pending -> approved | rejected, approved -> issued | overdue,
    issued -> returned | overdue, overdue -> returned.  Rejected and
    returned reservations are never written again. *)
Theorem reservation_lifecycle (now : Z) (r : Request) (s : Store) (id : nat)
    (b : Borrowing.t) :
  store_valid s → borrowings s !! id = Some b →
  ∃ b', borrowings (step now r s) !! id = Some b'
      ∧ (b' = b
         ∨ lifecycle_edge (Borrowing.status b) (Borrowing.status b') = true)
      ∧ (Borrowing.status b = rejected ∨ Borrowing.status b = returned → b' = b).
Proof.
  intros Hv Hb. destruct (step_borrowing now r s id b Hv Hb) as (b' & Hb' & Hw).
  exists b'. split; [done|].
  destruct (borrowing_write_status now b b' Hw) as [->|Hedge]; [by split; [left|]|].
  split; [by right|]. intros [Hst|Hst]; by rewrite Hst in Hedge.
Qed.

Lemma reservation_lifecycle_witness :
  ∃ b', borrowings (step 2 (PATCH path_approve staff_req) (run requested empty_store))
          !! 0%nat = Some b'
      ∧ Borrowing.status b' = approved.
Proof.
  assert (store_valid (run requested empty_store)) as Hv
    by (split; repeat constructor).
  destruct (reservation_lifecycle 2 (PATCH path_approve staff_req)
              (run requested empty_store) 0
              (Borrowing.mk 3 0 3 1 700 None pending None None None "good"
                 None None DamageReport.initial) Hv eq_refl) as (b' & Hb' & _ & _).
  exists b'. split; [exact Hb'|].
  assert (borrowings (step 2 (PATCH path_approve staff_req)
                        (run requested empty_store)) !! 0%nat
          = Some (Borrowing.mk 3 0 3 1 700 None approved (Some 7%nat) (Some 2)
                    None "good" None None DamageReport.initial)) as Hc
    by (vm_compute; reflexivity).
  rewrite Hc in Hb'. by injection Hb' as <-.
Defined.

(** X2. No request and no sweep ever changes the borrower, the equipment,
    the quantity, the borrow date, the due date or the recorded
    [conditionBefore] of a stored reservation. *)
Theorem reservation_fields_immutable (now : Z) (r : Request) (s : Store)
    (id : nat) (b : Borrowing.t) :
  store_valid s → borrowings s !! id = Some b →
  ∃ b', borrowings (step now r s) !! id = Some b'
      ∧ Borrowing.user b' = Borrowing.user b
      ∧ Borrowing.equipment b' = Borrowing.equipment b
      ∧ Borrowing.quantity b' = Borrowing.quantity b
      ∧ Borrowing.borrowDate b' = Borrowing.borrowDate b
      ∧ Borrowing.dueDate b' = Borrowing.dueDate b
      ∧ Borrowing.conditionBefore b' = Borrowing.conditionBefore b.
Proof.
  intros Hv Hb. destruct (step_borrowing now r s id b Hv Hb) as (b' & Hb' & Hw).
  exists b'. split; [done|]. by apply (borrowing_write_fields now).
Qed.

Lemma reservation_fields_immutable_witness :
  ∃ b', borrowings (step 4 (PATCH path_return (mkReq 0 7 (Some "fair") None))
                      (run lent empty_store)) !! 0%nat = Some b'
      ∧ Borrowing.quantity b' = 3 ∧ Borrowing.dueDate b' = 700.
Proof.
  assert (store_valid (run lent empty_store)) as Hv
    by (split; repeat constructor).
  destruct (reservation_fields_immutable 4
              (PATCH path_return (mkReq 0 7 (Some "fair") None))
              (run lent empty_store) 0
              (Borrowing.mk 3 0 3 1 700 None issued (Some 7%nat) (Some 2) (Some 3)
                 "good" None None DamageReport.initial) Hv eq_refl)
    as (b' & Hb' & _ & _ & Hq & _ & Hd & _).
  exists b'. by split_and!.
Defined.

Lemma borrowing_write_stamps (now : Z) (b b' : Borrowing.t) :
  borrowing_write now b b' → stamps_ok b → stamps_ok b'.
Proof.
  intros Hw Hs.
  assert (∀ A (x : A), is_Some (Some x)) as Hsome by (by eexists).
  assert (∀ A, ¬ is_Some (@None A)) as Hnone by (by intros A [? ?]).
  destruct Hw as [b|req b Hst|req b Hst|b Hst|req b Hst|b Hq]; [done|..].
  5: apply overdue_query_status in Hq as [Hst _].
  4: unfold returned_by, assign_notes;
     destruct (truthy _ && _), (or_value _ _) as [[?|]|].
  2: unfold rejected_by, assign_notes; destruct (or_value _ _) as [[?|]|].
  all: destruct b as [u e q bd dd rd st ab aa ia cb ca n dr];
    unfold stamps_ok in *; cbn in *;
    destruct Hs as (H1 & H2 & H3 & H4 & H5 & H6).
  all: repeat match goal with H : _ ∨ _ |- _ => destruct H end; subst st.
  all: split_and!; try (split; intros); try done; try congruence; eauto.
  all: try (exfalso; by eapply Hnone).
  all: try match goal with
       | H : is_Some ?x |- _ =>
           first [ apply H3 in H; discriminate
                 | apply H4 in H; discriminate
                 | destruct (H6 H) as [?|[?|?]]; discriminate ]
       | H : ?x = None |- _ =>
           first [ apply H1 in H; discriminate
                 | apply H2 in H; apply H1 in H; discriminate ]
       | H : ?x = _ :> Status |- _ => discriminate
       end.
  all: try (apply H2, H1; done).
  all: intros Hi; destruct (H6 Hi) as [?|[?|?]]; discriminate.
Qed.

Lemma step_stamps (now : Z) (r : Request) (s : Store) :
  borrowings_valid s →
  Forall stamps_ok (borrowings s) → Forall stamps_ok (borrowings (step now r s)).
Proof.
  intros Hv Hs. apply Forall_lookup. intros id b' Hb'.
  destruct (borrowings s !! id) as [b|] eqn:Hb.
  - destruct (step_borrowing_valid now r s id b Hv Hb) as (b'' & Hb'' & Hw & _).
    rewrite Hb' in Hb''. injection Hb'' as <-.
    apply (borrowing_write_stamps now b); [done|].
    by eapply (proj1 (Forall_lookup _ _) Hs).
  - destruct (step_new_borrowing_valid now r s id b' Hv Hb Hb')
      as (_ & user & eid & q & due & cb & ->).
    unfold stamps_ok. cbn.
    assert (∀ A, ¬ is_Some (@None A)) as Hnone by (by intros A [? ?]).
    split_and!; try done; try (split; intros; done).
    all: try (split; [done|]); intros Hi; by apply Hnone in Hi.
Qed.

Lemma run_stamps (trace : list (Z * Request)) (s : Store) :
  borrowings_valid s →
  Forall stamps_ok (borrowings s) → Forall stamps_ok (borrowings (run trace s)).
Proof.
  revert s. induction trace as [|[now r] trace IH]; intros s Hd Hs; [done|].
  cbn. apply IH; [by apply step_borrowings_valid|].
  by apply step_stamps.
Qed.

(** X3. In every state the server can reach, the optional fields of a
    reservation agree with its status: [approvedAt] and [approvedBy] are
    unset exactly on pending ones; [returnDate] and [conditionAfter] are
    set exactly on returned ones; an issued one has [issuedAt]; and
    [issuedAt] is only set on issued, overdue or returned ones.  So the
    [returnDate: {$exists: false}] condition of the overdue sweep never
    excludes an approved or issued reservation. *)
Theorem reservation_stamps (trace : list (Z * Request)) (id : nat)
    (b : Borrowing.t) :
  borrowings (run trace empty_store) !! id = Some b →
  stamps_ok b
  ∧ ∀ now, overdue_query now b
           = status_in (Borrowing.status b) [approved; issued]
             && (Borrowing.dueDate b <? now).
Proof.
  intros Hb.
  assert (stamps_ok b) as Hs.
  { eapply (proj1 (Forall_lookup _ _)); [|exact Hb].
    apply run_stamps; by apply Forall_nil. }
  split; [done|]. intros now. unfold overdue_query.
  destruct Hs as (_ & _ & H3 & _).
  destruct (status_in (Borrowing.status b) [approved; issued]) eqn:Hst; [|done].
  cbn. rewrite bool_decide_eq_true_2; [by rewrite andb_true_r|].
  destruct (Borrowing.returnDate b) eqn:Hr; [|done].
  assert (Borrowing.status b = returned) as Hret by (apply H3; by eexists).
  rewrite Hret in Hst. by vm_compute in Hst.
Qed.

Lemma reservation_stamps_witness :
  stamps_ok
    (Borrowing.mk 3 0 3 1 700 None issued (Some 7%nat) (Some 2) (Some 3)
       "good" None None DamageReport.initial).
Proof.
  exact (proj1 (reservation_stamps lent 0
                  (Borrowing.mk 3 0 3 1 700 None issued (Some 7%nat) (Some 2)
                     (Some 3) "good" None None DamageReport.initial) eq_refl)).
Defined.

(** ** The damage report *)

Lemma borrowing_write_report (now : Z) (b b' : Borrowing.t) :
  borrowing_write now b b' → report_consistent b → report_consistent b'.
Proof.
  intros Hw Hr. destruct Hw as [b|req b Hst|req b Hst|b Hst|req b Hst|b Hq].
  - done.
  - apply (report_consistent_relabel b); [done|by rewrite Hst|done|done].
  - destruct (rejected_by_fields now req b) as (Hst' & Hdr & _).
    apply (report_consistent_relabel b); [done|by rewrite Hst|by rewrite Hst'|done].
  - apply (report_consistent_relabel b); [done|by rewrite Hst|done|done].
  - apply report_consistent_returned; [done|]. by destruct Hst as [-> | ->].
  - apply overdue_query_status in Hq as [Hst _].
    apply (report_consistent_relabel b); [done| |done|done].
    by destruct Hst as [-> | ->].
Qed.

Lemma run_reports (trace : list (Z * Request)) (s : Store) :
  borrowings_valid s →
  Forall report_consistent (borrowings s) →
  Forall report_consistent (borrowings (run trace s)).
Proof.
  revert s. induction trace as [|[now r] trace IH]; intros s Hv Hs; [done|].
  cbn. apply IH; [by apply step_borrowings_valid|].
  apply Forall_lookup. intros id b' Hb'.
  destruct (borrowings s !! id) as [b|] eqn:Hb.
  - destruct (step_borrowing_valid now r s id b Hv Hb) as (b'' & Hb'' & Hw & _).
    rewrite Hb' in Hb''. injection Hb'' as <-.
    apply (borrowing_write_report now b); [done|].
    by eapply (proj1 (Forall_lookup _ _) Hs).
  - destruct (step_new_borrowing_valid now r s id b' Hv Hb Hb')
      as (_ & user & eid & q & due & cb & ->).
    split_and!; cbn; [|done|done]. split; [by intros [? ?]|by intros [? _]].
Qed.

(** What the return handler does achieve, in every state the server can
    reach: the description, the date and the reporter of the damage report
    are filled in exactly on the reservations returned in a condition
    other than the one they were lent in, and the [repairStatus] is
    [reported]. *)
Lemma report_filed_iff_condition_changed (trace : list (Z * Request)) (id : nat)
    (b : Borrowing.t) :
  borrowings (run trace empty_store) !! id = Some b →
  (report_filed b
   ↔ Borrowing.status b = returned
     ∧ Borrowing.conditionAfter b ≠ Some (Borrowing.conditionBefore b))
  ∧ (¬ report_filed b → Borrowing.damageReport b = DamageReport.initial)
  ∧ DamageReport.repairStatus (Borrowing.damageReport b) = reported.
Proof.
  intros Hb.
  assert (Forall report_consistent (borrowings (run trace empty_store))) as Hall
    by (apply run_reports; by apply Forall_nil).
  exact (proj1 (Forall_lookup _ _) Hall id b Hb).
Qed.

(** C9 (the code departs from it). The schema gives
    [damageReport.repairStatus] a default, so every reservation carries the
    object [{ repairStatus: 'reported' }] from the moment it is created.
    The reservation of the example has it while it is still pending, and
    still has it, and nothing more, after Scenario A, where it is returned
    in the condition it was lent in; after Scenario E the object has its
    description, date and reporter as well. *)
Theorem damage_report_without_damage :
  let stub := DamageReport.mk None None None reported in
  let created := borrowings (run requested empty_store) !! 0%nat in
  let unchanged := borrowings (run lent_and_returned empty_store) !! 0%nat in
  let changed := borrowings (run returned_fair empty_store) !! 0%nat in
  (Borrowing.status <$> created = Some pending
   ∧ Borrowing.damageReport <$> created = Some stub)
  ∧ (Borrowing.status <$> unchanged = Some returned
     ∧ Borrowing.conditionBefore <$> unchanged = Some "good"
     ∧ Borrowing.conditionAfter <$> unchanged = Some (Some "good")
     ∧ Borrowing.damageReport <$> unchanged = Some stub)
  ∧ (Borrowing.conditionAfter <$> changed = Some (Some "fair")
     ∧ Borrowing.damageReport <$> changed
       = Some (DamageReport.mk
                 (Some "Equipment condition changed from good to fair")
                 (Some 4) (Some 7%nat) reported)).
Proof. vm_compute. by split_and!. Qed.

(** ** How the sweeps compose *)

Lemma store_valid_overdue (now : Z) (s : Store) :
  store_valid s → store_valid (checkOverdueBorrowings now s).
Proof.
  intros Hv. rewrite checkOverdueBorrowings_spec by done.
  destruct Hv as [He Hb]. split; [done|]. cbn. apply Forall_fmap.
  eapply Forall_impl; [exact Hb|]. cbn. intros b Hvb. unfold promote.
  by destruct (overdue_query now b).
Qed.

Lemma store_valid_availability (s : Store) :
  store_valid s → store_valid (updateEquipmentAvailability s).
Proof.
  intros Hv. rewrite updateEquipmentAvailability_spec by done.
  split; [|by destruct Hv]. cbn. apply Forall_lookup.
  intros id e' (e & He & ->)%list_lookup_imap_Some.
  destruct (valid_equipment s id e Hv He) as (_ & _ & Hve).
  unfold reconciled. destruct (Equipment.isActive e); [|done].
  apply validate_set_available; [done|lia].
Qed.

Lemma promote_promote (now1 now2 : Z) (b : Borrowing.t) :
  now1 ≤ now2 →
  promote now2 (promote now1 b) = promote now2 b
  ∧ promote now1 (promote now2 b) = promote now2 b.
Proof.
  intros Hle.
  assert (∀ now, overdue_query now (Borrowing.set_status overdue b) = false)
    as Hover by done.
  unfold promote.
  destruct (overdue_query now1 b) eqn:H1.
  - assert (overdue_query now2 b = true) as H2.
    { apply overdue_query_spec. apply overdue_query_spec in H1. split_and!; [tauto|lia|tauto]. }
    by rewrite H2, !Hover.
  - destruct (overdue_query now2 b) eqn:H2; [by rewrite Hover|by rewrite H1].
Qed.

(** X4. Running the overdue sweep at two times, in either order, leaves
    the store as one run at the later time does; in particular the sweep
    is idempotent. *)
Theorem overdue_sweep_latest (now1 now2 : Z) (s : Store) :
  store_valid s → now1 ≤ now2 →
  checkOverdueBorrowings now2 (checkOverdueBorrowings now1 s)
  = checkOverdueBorrowings now2 s
  ∧ checkOverdueBorrowings now1 (checkOverdueBorrowings now2 s)
    = checkOverdueBorrowings now2 s.
Proof.
  intros Hv Hle.
  rewrite (checkOverdueBorrowings_spec now2 (checkOverdueBorrowings now1 s))
    by (by apply store_valid_overdue).
  rewrite (checkOverdueBorrowings_spec now1 (checkOverdueBorrowings now2 s))
    by (by apply store_valid_overdue).
  rewrite !checkOverdueBorrowings_spec by done. cbn.
  rewrite <- !list_fmap_compose.
  split; f_equal; apply list_fmap_ext; intros i b _; cbn;
    by destruct (promote_promote now1 now2 b Hle).
Qed.

Lemma overdue_sweep_latest_witness :
  checkOverdueBorrowings 1000 (checkOverdueBorrowings 900 (run lent empty_store))
  = checkOverdueBorrowings 1000 (run lent empty_store).
Proof.
  assert (store_valid (run lent empty_store)) as Hv
    by (split; repeat constructor).
  apply (overdue_sweep_latest 900 1000 (run lent empty_store) Hv). lia.
Defined.

Lemma reconciled_same_borrowings (s s' : Store) (id : nat) (e : Equipment.t) :
  borrowings s' = borrowings s → reconciled s' id e = reconciled s id e.
Proof. intros Hb. unfold reconciled, committed. by rewrite Hb. Qed.

(** X5. The availability sweep is idempotent on a store of valid
    documents: a second run right after the first changes nothing. *)
Theorem availability_sweep_idempotent (s : Store) :
  store_valid s →
  updateEquipmentAvailability (updateEquipmentAvailability s)
  = updateEquipmentAvailability s.
Proof.
  intros Hv.
  rewrite (updateEquipmentAvailability_spec (updateEquipmentAvailability s))
    by (by apply store_valid_availability).
  rewrite !updateEquipmentAvailability_spec by done. cbn. f_equal.
  apply list_eq. intros id. rewrite !list_lookup_imap.
  destruct (equipments s !! id) as [e|]; [|done]. cbn. f_equal.
  rewrite (reconciled_same_borrowings _ s) by done.
  unfold reconciled. destruct (Equipment.isActive e) eqn:Ha; cbn; by rewrite Ha.
Qed.

Lemma availability_sweep_idempotent_witness :
  updateEquipmentAvailability
    (updateEquipmentAvailability (run overcommitted empty_store))
  = updateEquipmentAvailability (run overcommitted empty_store).
Proof.
  apply availability_sweep_idempotent. split; repeat constructor.
Defined.

(** X6. The two sweeps commute on a store of valid documents: server.js
    starts one after the other, and the result does not depend on which
    ran first. *)
Theorem sweeps_commute (now : Z) (s : Store) :
  store_valid s →
  updateEquipmentAvailability (checkOverdueBorrowings now s)
  = checkOverdueBorrowings now (updateEquipmentAvailability s).
Proof.
  intros Hv.
  rewrite (updateEquipmentAvailability_spec (checkOverdueBorrowings now s))
    by (by apply store_valid_overdue).
  rewrite (checkOverdueBorrowings_spec now (updateEquipmentAvailability s))
    by (by apply store_valid_availability).
  rewrite checkOverdueBorrowings_spec, updateEquipmentAvailability_spec by done.
  cbn. f_equal. apply imap_ext. intros id e _.
  unfold reconciled. by rewrite committed_promote.
Qed.

Lemma sweeps_commute_witness :
  updateEquipmentAvailability (checkOverdueBorrowings 1000 (run overcommitted empty_store))
  = checkOverdueBorrowings 1000 (updateEquipmentAvailability (run overcommitted empty_store)).
Proof.
  apply sweeps_commute. split; repeat constructor.
Defined.

(** X7. After one tick of the timer on a store of valid documents, no
    reservation matches the overdue query any more, every active
    equipment has as available quantity its quantity minus the units of
    its approved, issued and overdue reservations (0 when negative), and
    inactive equipment is as before. *)
Theorem reconciliation_tick_post (now : Z) (s : Store) :
  store_valid s →
  let s' := reconciliation_tick now s in
  (∀ id b, borrowings s' !! id = Some b → overdue_query now b = false)
  ∧ (∀ id e, equipments s' !! id = Some e → Equipment.isActive e = true →
       Equipment.availableQuantity e
       = Z.max 0 (Equipment.quantity e - committed id s'))
  ∧ (∀ id e, equipments s !! id = Some e → Equipment.isActive e = false →
       equipments s' !! id = Some e).
Proof.
  intros Hv s'. subst s'. unfold reconciliation_tick.
  rewrite updateEquipmentAvailability_spec by (by apply store_valid_overdue).
  rewrite checkOverdueBorrowings_spec by done. cbn. split_and!.
  - intros id b Hb. rewrite list_lookup_fmap in Hb.
    destruct (borrowings s !! id) as [b0|]; [|done]. injection Hb as <-.
    unfold promote. by destruct (overdue_query now b0) eqn:Hq.
  - intros id e' (e & He & ->)%list_lookup_imap_Some Hact.
    unfold reconciled in *. destruct (Equipment.isActive e) eqn:Ha; [|congruence].
    done.
  - intros id e He Hact. rewrite list_lookup_imap, He. cbn.
    unfold reconciled. by rewrite Hact.
Qed.

Lemma reconciliation_tick_post_witness :
  overdue_query 1000
    (Borrowing.mk 3 0 3 1 700 None overdue (Some 7%nat) (Some 2) (Some 3)
       "good" None None DamageReport.initial) = false.
Proof.
  assert (store_valid (run lent empty_store)) as Hv
    by (split; repeat constructor).
  apply (proj1 (reconciliation_tick_post 1000 (run lent empty_store) Hv) 0%nat).
  vm_compute. reflexivity.
Defined.

(** ** The ledger when no quantity is edited *)

Lemma keeps_ledger_quiet (s : Store) (r : Request) :
  keeps_ledger r = true →
  plain_update r = true ∧ keeps_quantity s r = true
  ∧ return_condition_valid r = true.
Proof.
  destruct r as [user rb|path req|rb|id rb|id| |]; cbn; try done.
  intros [Hq%bool_decide_eq_true Hp]%andb_true_iff. rewrite Hq, Hp.
  by destruct (equipments s !! id).
Qed.

Lemma ledger_exact_step (now : Z) (r : Request) (s : Store) :
  keeps_ledger r = true → lending_inv s → ledger_exact s →
  ledger_exact (step now r s).
Proof.
  intros Hk (Hd & Hr & _) Hex.
  pose proof (docs_ok_valid s Hd) as Hv.
  destruct r as [user rb|path req|rb|id rb|id| |].
  - change (ledger_exact (post_borrowing now user rb s).1).
    destruct (post_borrowing_store now user rb s) as [->|(b & Hst & Hlt & ->)];
      [done|].
    intros id e He. cbn in He. rewrite committed_append.
    rewrite contribution_unfold, Hst, andb_false_r.
    specialize (Hex id e He). lia.
  - destruct path.
    + change (ledger_exact (patch_approve now req s).1).
      destruct (patch_approve_store now req s)
        as [->|(b & e & Hb & Hst & He & Hle & ->)]; [done|done|].
      intros id e' He'. cbn in He'.
      rewrite (committed_insert s _ _ id b) by done.
      rewrite !contribution_unfold, Hst. cbn. rewrite andb_false_r.
      destruct (decide (Borrowing.equipment b = id)) as [<-|Hne].
      * rewrite list_lookup_insert_eq in He' by (by eapply lookup_lt_Some).
        injection He' as <-. cbn. rewrite Nat.eqb_refl. cbn.
        specialize (Hex _ e He). lia.
      * rewrite list_lookup_insert_ne in He' by done.
        destruct (Nat.eqb_spec (Borrowing.equipment b) id); [done|]. cbn.
        specialize (Hex _ e' He'). lia.
    + change (ledger_exact (patch_reject now req s).1).
      destruct (patch_reject_store now req s) as [->|(b & Hb & Hst & ->)]; [done|].
      destruct (rejected_by_fields now req b) as (Hst' & _ & _ & Heq & Hq).
      intros id e He. cbn in He.
      rewrite (committed_insert s _ _ id b) by done.
      rewrite !contribution_unfold, Hst, Hst', Heq. cbn. rewrite andb_false_r.
      specialize (Hex id e He). lia.
    + change (ledger_exact (patch_issue now req s).1).
      destruct (patch_issue_store now req s) as [->|(b & Hb & Hst & ->)]; [done|].
      intros id e He. cbn in He.
      rewrite (committed_insert s _ _ id b) by done.
      rewrite !contribution_unfold, Hst. cbn.
      specialize (Hex id e He). lia.
    + change (ledger_exact (patch_return now req s).1).
      destruct (patch_return_store now req s)
        as [->|(b & e & Hb & Hst & He & ->)]; [done|done|done|].
      destruct (returned_by_fields now req b) as (Heq & Hq & Hret).
      intros id e' He'. cbn in He'.
      rewrite (committed_insert s _ _ id b) by done.
      rewrite !contribution_unfold, Heq, Hq, Hret. rewrite andb_false_r.
      destruct (decide (Borrowing.equipment b = id)) as [<-|Hne].
      * rewrite list_lookup_insert_eq in He' by (by eapply lookup_lt_Some).
        injection He' as <-. cbn. rewrite Nat.eqb_refl. cbn.
        specialize (Hex _ e He).
        destruct Hst as [-> | ->]; lia.
      * rewrite list_lookup_insert_ne in He' by done.
        destruct (Nat.eqb_spec (Borrowing.equipment b) id); [done|]. cbn.
        specialize (Hex _ e' He'). lia.
  - change (ledger_exact (post_equipment rb s).1).
    destruct (post_equipment_store rb s) as [->|(e & Hq & ->)]; [done|].
    intros id e' He'. cbn in He'. rewrite committed_equipments.
    apply lookup_app_Some in He' as [He'|[Hlen He']]; [by apply Hex|].
    rewrite committed_fresh by done.
    destruct (id - length (equipments s))%nat; [|done].
    injection He' as <-. lia.
  - change (ledger_exact (put_equipment id rb s).1).
    destruct (put_equipment_store id rb s) as [->|(e & He & ->)]; [done|].
    cbn in Hk. apply andb_true_iff in Hk as [Hk%bool_decide_eq_true Hops].
    intros id' e' He'. cbn in He'. rewrite committed_equipments.
    destruct (decide (id = id')) as [<-|Hne].
    + rewrite list_lookup_insert_eq in He' by (by eapply lookup_lt_Some).
      injection He' as <-. unfold apply_update. cbn.
      destruct (EquipmentBody.operators rb); [done|].
      cbn. rewrite Hk. cbn. by apply Hex.
    + rewrite list_lookup_insert_ne in He' by done. by apply Hex.
  - change (ledger_exact (delete_equipment id s).1).
    destruct (delete_equipment_store id s) as [->|(e & He & ->)]; [done|].
    intros id' e' He'. cbn in He'. rewrite committed_equipments.
    destruct (decide (id = id')) as [<-|Hne].
    + rewrite list_lookup_insert_eq in He' by (by eapply lookup_lt_Some).
      injection He' as <-. cbn. by apply Hex.
    + rewrite list_lookup_insert_ne in He' by done. by apply Hex.
  - change (ledger_exact (checkOverdueBorrowings now s)).
    rewrite checkOverdueBorrowings_spec by done.
    intros id e He. cbn in He. rewrite committed_promote. by apply Hex.
  - change (ledger_exact (updateEquipmentAvailability s)).
    rewrite updateEquipmentAvailability_spec by done.
    intros id e' He'. cbn in He'. rewrite committed_equipments.
    apply list_lookup_imap_Some in He' as (e & He & ->).
    specialize (Hex id e He). unfold reconciled.
    destruct (Equipment.isActive e); [|done]. cbn.
    destruct (valid_equipment s id e Hv He) as (_ & Ha & _). lia.
Qed.

Lemma ledger_exact_run (trace : list (Z * Request)) (s : Store) :
  forallb (λ p, keeps_ledger p.2) trace = true →
  lending_inv s → ledger_exact s →
  lending_inv (run trace s) ∧ ledger_exact (run trace s).
Proof.
  revert s. induction trace as [|[now r] trace IH]; intros s Hk Hinv Hex; [done|].
  cbn in Hk. apply andb_true_iff in Hk as [Hk Hk'].
  destruct (keeps_ledger_quiet s r Hk) as (Hp & Hq & Hc).
  cbn. apply IH; [done|by apply lending_inv_step|by apply ledger_exact_step].
Qed.

(** X8. Along every run in which no equipment update sets a quantity or
    carries update operators, and every return request has a body the
    schema accepts (a condition that is absent, empty or in the enum, and
    notes that can be cast to a string), the available quantity of every
    equipment (active or not) is exactly its quantity minus the units of
    its approved, issued and overdue reservations; the availability sweep
    therefore finds nothing to repair and leaves the store as it is. *)
Theorem ledger_exact_without_edits (trace : list (Z * Request)) :
  forallb (λ p, keeps_ledger p.2) trace = true →
  let s := run trace empty_store in
  (∀ id e, equipments s !! id = Some e →
     Equipment.availableQuantity e = Equipment.quantity e - committed id s)
  ∧ updateEquipmentAvailability s = s.
Proof.
  intros Hk s.
  destruct (ledger_exact_run trace empty_store Hk lending_inv_empty)
    as [(Hd & _) Hex]; [by intros id e He|].
  fold s in Hd, Hex. pose proof (docs_ok_valid s Hd) as Hv.
  split.
  - intros id e He. specialize (Hex id e He). lia.
  - rewrite updateEquipmentAvailability_spec by done.
    destruct s as [es bs] eqn:Hs. cbn. f_equal.
    apply list_eq. intros id. rewrite list_lookup_imap.
    destruct (es !! id) as [e|] eqn:He; [|done]. cbn. f_equal.
    unfold reconciled. destruct (Equipment.isActive e); [|done].
    apply set_available_id.
    specialize (Hex id e He).
    destruct (valid_equipment (mkStore es bs) id e Hv He) as (_ & Ha & _). lia.
Qed.

Lemma ledger_exact_without_edits_witness :
  updateEquipmentAvailability (run lent empty_store) = run lent empty_store.
Proof.
  exact (proj2 (ledger_exact_without_edits lent eq_refl)).
Defined.

(** ** When the transitions succeed *)

Lemma patch_approve_success (now : Z) (req : Req) (s : Store)
    (b : Borrowing.t) (e : Equipment.t) :
  store_valid s →
  borrowings s !! params_id req = Some b → Borrowing.status b = pending →
  equipments s !! Borrowing.equipment b = Some e →
  Borrowing.quantity b ≤ Equipment.availableQuantity e →
  patch_approve now req s
  = (mkStore
       (<[Borrowing.equipment b :=
            Equipment.set_availableQuantity
              (Equipment.availableQuantity e - Borrowing.quantity b) e]>
          (equipments s))
       (<[params_id req := approved_by now req b]> (borrowings s)),
     mkResponse 200 (JBorrowing (approved_by now req b))).
Proof.
  intros Hv Hb Hst He Hle. unfold patch_approve. unfold_handler.
  rewrite Hb, bool_decide_eq_true_2 by done. cbn. rewrite He.
  apply Z.ltb_ge in Hle. rewrite Hle. cbn. apply Z.ltb_ge in Hle.
  destruct (valid_equipment s _ e Hv He) as (_ & _ & Hve).
  destruct (valid_borrowing s _ b Hv Hb) as (_ & Hvb & _).
  rewrite validate_set_available by (done || lia). cbn.
  change (Borrowing.validate _) with (Borrowing.validate b). by rewrite Hvb.
Qed.

(** X9. On a store of valid documents, approve answers 200 exactly when
    the reservation exists, is pending, its equipment document exists and
    has at least the requested units available (whether the equipment is
    active is not looked at); every other answer leaves the store
    untouched. *)
Theorem approve_succeeds_iff (now : Z) (req : Req) (s : Store) :
  store_valid s →
  (code (patch_approve now req s).2 = 200
   ↔ ∃ b e, borrowings s !! params_id req = Some b
          ∧ Borrowing.status b = pending
          ∧ equipments s !! Borrowing.equipment b = Some e
          ∧ Borrowing.quantity b ≤ Equipment.availableQuantity e)
  ∧ (code (patch_approve now req s).2 ≠ 200 → (patch_approve now req s).1 = s).
Proof.
  intros Hv. split.
  - split.
    + intros Hc. destruct (patch_approve now req s) as [s' r] eqn:H.
      destruct (patch_approve_ok _ _ _ _ _ H Hc) as (b & e & ? & ? & ? & ? & _).
      by exists b, e.
    + intros (b & e & Hb & Hst & He & Hle).
      by rewrite (patch_approve_success now req s b e).
  - intros Hc.
    destruct (patch_approve_store now req s Hv)
      as [?|(b & e & Hb & Hst & He & Hle & _)]; [done|].
    destruct Hc. by rewrite (patch_approve_success now req s b e).
Qed.

Lemma approve_succeeds_iff_witness :
  code (patch_approve 2 staff_req
          (mkStore [Equipment.mk 5 5 "good" false]
             [Borrowing.mk 3 0 3 1 700 None pending None None None "good"
                None None DamageReport.initial])).2 = 200.
Proof.
  apply approve_succeeds_iff; [split; repeat constructor|].
  eexists _, _. split_and!; [reflexivity|reflexivity|reflexivity|cbn; lia].
Defined.

Lemma patch_return_cases (now : Z) (req : Req) (s : Store)
    (b : Borrowing.t) (e : Equipment.t) :
  store_valid s →
  borrowings s !! params_id req = Some b →
  Borrowing.status b = issued ∨ Borrowing.status b = overdue →
  equipments s !! Borrowing.equipment b = Some e →
  patch_return now req s
  = if castable (body_notes req) && Borrowing.validate (returned_by now req b)
    then (mkStore
            (<[Borrowing.equipment b :=
                 Equipment.set_availableQuantity
                   (Equipment.availableQuantity e + Borrowing.quantity b) e]>
               (equipments s))
            (<[params_id req := returned_by now req b]> (borrowings s)),
          mkResponse 200 (JBorrowing (returned_by now req b)))
    else (mkStore
            (<[Borrowing.equipment b :=
                 Equipment.set_availableQuantity
                   (Equipment.availableQuantity e + Borrowing.quantity b) e]>
               (equipments s))
            (borrowings s),
          mkResponse 500 (JMessage "Server error")).
Proof.
  intros Hv Hb Hst He. unfold patch_return. unfold_handler.
  rewrite Hb. apply status_in_issued_overdue in Hst. rewrite Hst. cbn.
  rewrite He.
  destruct (valid_equipment s _ e Hv He) as (_ & Ha & Hve).
  destruct (valid_borrowing s _ b Hv Hb) as (Hq & Hvb & _).
  rewrite validate_set_available by (done || lia). cbn.
  fold (returned_by now req b). rewrite castable_or_value.
  destruct (castable (body_notes req)); [|done].
  by destruct (Borrowing.validate (returned_by now req b)).
Qed.

Lemma returned_by_valid_iff (now : Z) (req : Req) (b : Borrowing.t) :
  Borrowing.validate b = true →
  castable (body_notes req) && Borrowing.validate (returned_by now req b)
  = return_condition_valid (PATCH path_return req).
Proof.
  intros Hvb.
  destruct (return_condition_valid (PATCH path_return req)) eqn:Hc.
  { rewrite returned_by_valid by done. cbn in Hc.
    apply andb_true_iff in Hc as [_ ->]. done. }
  destruct (castable (body_notes req)) eqn:Hcast; [|done]. cbn.
  cbn in Hc. rewrite Hcast, andb_true_r in Hc.
  unfold returned_by, assign_notes, Borrowing.validate.
  destruct (body_conditionAfter req) as [c|]; [|done].
  apply orb_false_iff in Hc as [Hne Hin].
  cbn. rewrite Hne. cbn.
  destruct (negb _), (or_value _ _) as [[?|]|]; cbn; rewrite Hin;
    by rewrite andb_false_r.
Qed.

(** X10. On a store of valid documents, return answers 200 exactly when
    the reservation exists, is issued or overdue, its equipment document
    exists, and the schema accepts the body: its [conditionAfter] is
    absent, empty or in the enum, and its [notes] can be cast to a string;
    who the caller is plays no part.  With such a body every other answer
    leaves the store untouched; with a body the schema refuses the answer
    is 500 and the units have nevertheless been added back. *)
Theorem return_succeeds_iff (now : Z) (req : Req) (s : Store) :
  store_valid s →
  (code (patch_return now req s).2 = 200
   ↔ (∃ b e, borrowings s !! params_id req = Some b
           ∧ (Borrowing.status b = issued ∨ Borrowing.status b = overdue)
           ∧ equipments s !! Borrowing.equipment b = Some e)
     ∧ return_condition_valid (PATCH path_return req) = true)
  ∧ (return_condition_valid (PATCH path_return req) = true →
     code (patch_return now req s).2 ≠ 200 → (patch_return now req s).1 = s)
  ∧ (return_condition_valid (PATCH path_return req) = false →
     ∀ b e, borrowings s !! params_id req = Some b →
            Borrowing.status b = issued ∨ Borrowing.status b = overdue →
            equipments s !! Borrowing.equipment b = Some e →
            patch_return now req s
            = (mkStore
                 (<[Borrowing.equipment b :=
                      Equipment.set_availableQuantity
                        (Equipment.availableQuantity e + Borrowing.quantity b) e]>
                    (equipments s))
                 (borrowings s),
               mkResponse 500 (JMessage "Server error"))).
Proof.
  intros Hv. split_and!.
  - split.
    + intros Hc. destruct (patch_return now req s) as [s' r] eqn:H.
      destruct (patch_return_ok _ _ _ _ _ H Hc) as (b & e & Hb & Hst & He & _).
      split; [by exists b, e|].
      rewrite (patch_return_cases now req s b e) in H by done.
      destruct (valid_borrowing s _ b Hv Hb) as (_ & Hvb & _).
      rewrite returned_by_valid_iff in H by done.
      destruct (return_condition_valid _); [done|].
      injection H as _ <-. done.
    + intros [(b & e & Hb & Hst & He) Hc].
      rewrite (patch_return_cases now req s b e) by done.
      destruct (valid_borrowing s _ b Hv Hb) as (_ & Hvb & _).
      by rewrite returned_by_valid_iff, Hc.
  - intros Hc Hcode.
    destruct (patch_return_store now req s Hv Hc)
      as [?|(b & e & Hb & Hst & He & _)]; [done|].
    destruct Hcode. rewrite (patch_return_cases now req s b e) by done.
    destruct (valid_borrowing s _ b Hv Hb) as (_ & Hvb & _).
    by rewrite returned_by_valid_iff, Hc.
  - intros Hc b e Hb Hst He.
    rewrite (patch_return_cases now req s b e) by done.
    destruct (valid_borrowing s _ b Hv Hb) as (_ & Hvb & _).
    by rewrite returned_by_valid_iff, Hc.
Qed.

Lemma return_succeeds_iff_witness :
  code (patch_return 4 (mkReq 0 99 (Some "poor") None) (run lent empty_store)).2
  = 200.
Proof.
  assert (store_valid (run lent empty_store)) as Hv
    by (split; repeat constructor).
  apply (return_succeeds_iff 4 (mkReq 0 99 (Some "poor") None) _ Hv).
  split; [|reflexivity].
  eexists _, _. split_and!; [reflexivity|by left|reflexivity].
Defined.

(** The notes the reject handler stores. *)
Lemma rejected_by_notes (now : Z) (req : Req) (b : Borrowing.t) :
  castable (body_notes req) = true →
  Borrowing.notes (rejected_by now req b)
  = Some (match body_notes req with
          | Some (body_string n) =>
              if String.eqb n EmptyString then "Request rejected" else trim n
          | _ => "Request rejected"
          end).
Proof.
  unfold rejected_by, assign_notes.
  destruct (body_notes req) as [[n|]|]; cbn; [|done|done].
  intros _. by destruct (String.eqb n EmptyString).
Qed.

(** X11. Reject never touches the equipment collection.  On a store of
    valid documents it answers 200 exactly when the reservation exists and
    is pending and the [notes] of the body can be cast to a string, and
    then stores it as rejected with the caller as [approvedBy], [now] as
    [approvedAt] and as notes the body's notes without the white space
    around them (the empty string, when they are nothing but white space)
    or, when they are absent or empty, "Request rejected"; every other
    answer leaves the store untouched, among them the 500 to notes that
    are an object or an array. *)
Theorem reject_behaviour (now : Z) (req : Req) (s : Store) :
  store_valid s →
  equipments (patch_reject now req s).1 = equipments s
  ∧ (code (patch_reject now req s).2 = 200
     ↔ (∃ b, borrowings s !! params_id req = Some b ∧ Borrowing.status b = pending)
       ∧ castable (body_notes req) = true)
  ∧ (code (patch_reject now req s).2 ≠ 200 → (patch_reject now req s).1 = s)
  ∧ (∀ b, borrowings s !! params_id req = Some b → Borrowing.status b = pending →
       (castable (body_notes req) = true →
        borrowings (patch_reject now req s).1 !! params_id req
        = Some (rejected_by now req b)
        ∧ Borrowing.status (rejected_by now req b) = rejected
        ∧ Borrowing.approvedBy (rejected_by now req b) = Some (user_id req)
        ∧ Borrowing.approvedAt (rejected_by now req b) = Some now
        ∧ Borrowing.notes (rejected_by now req b)
          = Some (match body_notes req with
                  | Some (body_string n) =>
                      if String.eqb n EmptyString then "Request rejected"
                      else trim n
                  | _ => "Request rejected"
                  end))
       ∧ (castable (body_notes req) = false →
          patch_reject now req s = (s, mkResponse 500 (JMessage "Server error")))).
Proof.
  intros Hv.
  assert (castable (or_value (body_notes req) (Some (body_string "Request rejected")))
          = castable (body_notes req)) as Hcast.
  { destruct (body_notes req) as [[n|]|]; cbn; [|done|done].
    by destruct (String.eqb n EmptyString). }
  assert (∀ b, borrowings s !! params_id req = Some b →
               Borrowing.status b = pending →
               patch_reject now req s
               = if castable (body_notes req)
                 then (mkStore (equipments s)
                         (<[params_id req := rejected_by now req b]> (borrowings s)),
                       mkResponse 200 (JBorrowing (rejected_by now req b)))
                 else (s, mkResponse 500 (JMessage "Server error"))) as Hok.
  { intros b Hb Hst. unfold patch_reject. unfold_handler.
    rewrite Hb, bool_decide_eq_true_2 by done. cbn.
    fold (rejected_by now req b). rewrite Hcast.
    destruct (castable (body_notes req)); [|done].
    destruct (valid_borrowing s _ b Hv Hb) as (_ & Hvb & _).
    destruct (rejected_by_fields now req b) as (_ & _ & -> & _). by rewrite Hvb. }
  split_and!.
  - by destruct (patch_reject_writes now req s).
  - split.
    + intros Hc. revert Hc. unfold patch_reject. unfold_handler.
      destruct (borrowings s !! params_id req) as [b|] eqn:Hb; [|done].
      destruct (bool_decide (Borrowing.status b = pending)) eqn:Hst; [|done].
      apply bool_decide_eq_true in Hst. cbn. rewrite Hcast.
      destruct (castable (body_notes req)); [|done]. intros _.
      split; [by exists b|done].
    + intros [(b & Hb & Hst) Hc]. by rewrite (Hok b), Hc.
  - intros Hc. destruct (patch_reject_store now req s) as [?|(b & Hb & Hst & _)];
      [done|]. rewrite (Hok b) in Hc |- * by done.
    by destruct (castable (body_notes req)).
  - intros b Hb Hst. rewrite (Hok b) by done. split.
    + intros Hc. rewrite Hc. cbn. split_and!.
      * apply list_lookup_insert_eq. by eapply lookup_lt_Some.
      * by destruct (rejected_by_fields now req b) as (-> & _).
      * unfold rejected_by, assign_notes. by destruct (or_value _ _) as [[?|]|].
      * unfold rejected_by, assign_notes. by destruct (or_value _ _) as [[?|]|].
      * by apply rejected_by_notes.
    + by intros ->.
Qed.

(** Notes " late " are stored as "late". *)
Lemma reject_behaviour_witness :
  Borrowing.notes
  <$> borrowings
        (patch_reject 2 (mkReq 0 7 None (Some (body_string " late ")))
           (run requested empty_store)).1 !! 0%nat
  = Some (Some "late").
Proof.
  assert (store_valid (run requested empty_store)) as Hv
    by (split; repeat constructor).
  destruct (reject_behaviour 2 (mkReq 0 7 None (Some (body_string " late "))) _ Hv)
    as (_ & _ & _ & H).
  destruct (H (Borrowing.mk 3 0 3 1 700 None pending None None None "good"
                 None None DamageReport.initial) eq_refl eq_refl) as [H200 _].
  destruct (H200 eq_refl) as (Hl & _ & _ & _ & Hn).
  change (params_id (mkReq 0 7 None (Some (body_string " late ")))) with 0%nat in Hl.
  rewrite Hl. cbn [fmap option_fmap option_map]. rewrite Hn.
  vm_compute. reflexivity.
Defined.

(** X12. Issue never touches the equipment collection.  On a store of
    valid documents it answers 200 exactly when the reservation exists
    and is approved, and then stores it as issued with [now] as
    [issuedAt]; every other answer (in particular for a pending or an
    overdue reservation) leaves the store untouched. *)
Theorem issue_behaviour (now : Z) (req : Req) (s : Store) :
  store_valid s →
  equipments (patch_issue now req s).1 = equipments s
  ∧ (code (patch_issue now req s).2 = 200
     ↔ ∃ b, borrowings s !! params_id req = Some b ∧ Borrowing.status b = approved)
  ∧ (code (patch_issue now req s).2 ≠ 200 → (patch_issue now req s).1 = s)
  ∧ (∀ b, borrowings s !! params_id req = Some b → Borrowing.status b = approved →
       borrowings (patch_issue now req s).1 !! params_id req
       = Some (issued_at now b)).
Proof.
  intros Hv.
  assert (∀ b, borrowings s !! params_id req = Some b →
               Borrowing.status b = approved →
               patch_issue now req s
               = (mkStore (equipments s)
                    (<[params_id req := issued_at now b]> (borrowings s)),
                  mkResponse 200 (JBorrowing (issued_at now b)))) as Hok.
  { intros b Hb Hst. unfold patch_issue. unfold_handler.
    rewrite Hb, bool_decide_eq_true_2 by done. cbn.
    destruct (valid_borrowing s _ b Hv Hb) as (_ & Hvb & _).
    change (Borrowing.validate _) with (Borrowing.validate b). by rewrite Hvb. }
  split_and!.
  - by destruct (patch_issue_writes now req s).
  - split.
    + intros Hc. destruct (patch_issue now req s) as [s' r] eqn:H.
      destruct (patch_issue_ok _ _ _ _ _ H Hc) as (b & ? & ? & _). by exists b.
    + intros (b & Hb & Hst). by rewrite (Hok b).
  - intros Hc. destruct (patch_issue_store now req s) as [?|(b & Hb & Hst & _)];
      [done|]. destruct Hc. by rewrite (Hok b).
  - intros b Hb Hst. rewrite (Hok b) by done. cbn.
    apply list_lookup_insert_eq. by eapply lookup_lt_Some.
Qed.

Lemma issue_behaviour_witness :
  (patch_issue 2 staff_req (run requested empty_store)).1
  = run requested empty_store.
Proof.
  assert (store_valid (run requested empty_store)) as Hv
    by (split; repeat constructor).
  destruct (issue_behaviour 2 staff_req _ Hv) as (_ & _ & H & _).
  apply H. vm_compute. discriminate.
Defined.

(** ** Who returns, and what a request can block *)

(** X13. The return handler never compares the caller with the borrower:
    the same request sent by another user gets the same status code and
    leaves the same equipment collection and the same reservations, up to
    the [reportedBy] of the damage report (the only place the caller is
    recorded). *)
Theorem return_ignores_caller (now : Z) (req : Req) (user' : nat) (s : Store) :
  let req' := mkReq (params_id req) user' (body_conditionAfter req) (body_notes req) in
  code (patch_return now req' s).2 = code (patch_return now req s).2
  ∧ equipments (patch_return now req' s).1 = equipments (patch_return now req s).1
  ∧ Borrowing.set_damageReport DamageReport.initial
    <$> borrowings (patch_return now req' s).1
    = Borrowing.set_damageReport DamageReport.initial
      <$> borrowings (patch_return now req s).1.
Proof.
  intros req'.
  assert (∀ b, Borrowing.set_damageReport DamageReport.initial (returned_by now req' b)
               = Borrowing.set_damageReport DamageReport.initial
                   (returned_by now req b)) as Hsame.
  { intros b. unfold returned_by, assign_notes. cbn.
    by destruct (truthy _ && _), (or_value _ _) as [[?|]|]. }
  assert (∀ b, Borrowing.validate (returned_by now req' b)
               = Borrowing.validate (returned_by now req b)) as Hval.
  { intros b. unfold returned_by, assign_notes. cbn.
    by destruct (truthy _ && _), (or_value _ _) as [[?|]|]. }
  assert (params_id req' = params_id req) as Hid by done.
  assert (∀ d, castable (or_value (body_notes req') d)
               = castable (or_value (body_notes req) d)) as Hcast by done.
  clearbody req'.
  unfold patch_return. unfold_handler. rewrite Hid.
  destruct (borrowings s !! params_id req) as [b|] eqn:Hb; [|done].
  destruct (status_in (Borrowing.status b) [issued; overdue]); [|done]. cbn.
  destruct (equipments s !! Borrowing.equipment b) as [e|]; [|done].
  destruct (Equipment.validate _); [|done]. cbn.
  fold (returned_by now req b). fold (returned_by now req' b).
  rewrite Hcast. destruct (castable _); [|done].
  rewrite Hval. destruct (Borrowing.validate (returned_by now req b)); [|done].
  cbn. split_and!; [done|done|].
  by rewrite !list_fmap_insert, Hsame.
Qed.




(** ** What the lending requests leave alone *)

(** X15. Creating, approving, rejecting, issuing or returning a
    reservation, and either sweep, never change the quantity, the
    condition or the active flag of an equipment document, and never
    remove one: of the equipment collection they only ever write
    [availableQuantity]. *)
Theorem lending_keeps_equipment (now : Z) (r : Request) (s : Store) (id : nat)
    (e : Equipment.t) :
  store_valid s → lending_request r = true →
  equipments s !! id = Some e →
  ∃ a, equipments (step now r s) !! id
       = Some (Equipment.set_availableQuantity a e).
Proof.
  intros Hv Hr He.
  assert (∀ es, es = equipments s ∨
                (∃ id' e' a', equipments s !! id' = Some e'
                   ∧ es = <[id' := Equipment.set_availableQuantity a' e']>
                            (equipments s)) →
                ∃ a, es !! id = Some (Equipment.set_availableQuantity a e))
    as Hshape.
  { intros es [->|(id' & e' & a' & He' & ->)].
    - exists (Equipment.availableQuantity e). rewrite He. f_equal.
      symmetry. by apply set_available_id.
    - destruct (decide (id' = id)) as [->|Hne].
      + rewrite He in He'. injection He' as <-. exists a'.
        apply list_lookup_insert_eq. by eapply lookup_lt_Some.
      + exists (Equipment.availableQuantity e).
        rewrite list_lookup_insert_ne, He by done. f_equal.
        symmetry. by apply set_available_id. }
  destruct r as [user rb|path req|rb|id' rb|id'| |]; try done.
  - apply Hshape. left.
    change (step now (POST_borrowing user rb) s)
      with (post_borrowing now user rb s).1.
    by destruct (post_borrowing_store now user rb s) as [->|(b & _ & _ & ->)].
  - apply Hshape. destruct path.
    + change (step now (PATCH path_approve req) s) with (patch_approve now req s).1.
      destruct (patch_approve_writes now req s) as [_ [->|(b & e' & _ & ? & ->)]];
        [by left|right; by eexists _, _, _].
    + change (step now (PATCH path_reject req) s) with (patch_reject now req s).1.
      destruct (patch_reject_writes now req s) as [_ ->]. by left.
    + change (step now (PATCH path_issue req) s) with (patch_issue now req s).1.
      destruct (patch_issue_writes now req s) as [_ ->]. by left.
    + change (step now (PATCH path_return req) s) with (patch_return now req s).1.
      destruct (patch_return_writes now req s) as [_ [->|(b & e' & _ & ? & ->)]];
        [by left|right; by eexists _, _, _].
  - apply Hshape. left.
    change (step now Sweep_overdue s) with (checkOverdueBorrowings now s).
    by rewrite checkOverdueBorrowings_spec.
  - change (step now Sweep_availability s) with (updateEquipmentAvailability s).
    rewrite updateEquipmentAvailability_spec by done. cbn.
    rewrite list_lookup_imap, He. cbn. unfold reconciled.
    destruct (Equipment.isActive e); [by eexists|].
    exists (Equipment.availableQuantity e). f_equal. symmetry.
    by apply set_available_id.
Qed.

Lemma lending_keeps_equipment_witness :
  ∃ a, equipments (step 2 (PATCH path_approve staff_req)
                     (run requested empty_store)) !! 0%nat
       = Some (Equipment.set_availableQuantity a (Equipment.mk 5 5 "good" true)).
Proof.
  apply lending_keeps_equipment;
    [split; repeat constructor|reflexivity|reflexivity].
Defined.

Lemma store_valid_approved (now : Z) (req : Req) (s : Store)
    (b : Borrowing.t) (e : Equipment.t) :
  store_valid s →
  borrowings s !! params_id req = Some b →
  equipments s !! Borrowing.equipment b = Some e →
  Borrowing.quantity b ≤ Equipment.availableQuantity e →
  store_valid
    (mkStore
       (<[Borrowing.equipment b :=
            Equipment.set_availableQuantity
              (Equipment.availableQuantity e - Borrowing.quantity b) e]>
          (equipments s))
       (<[params_id req := approved_by now req b]> (borrowings s))).
Proof.
  intros Hv Hb He Hle.
  destruct (valid_equipment s _ e Hv He) as (_ & _ & Hve).
  destruct (valid_borrowing s _ b Hv Hb) as (_ & Hvb & _).
  destruct Hv as [Hes Hbs]. split; cbn.
  - apply Forall_insert; [done|]. apply validate_set_available; [done|lia].
  - by apply Forall_insert.
Qed.

(** X16. The other way back: a reservation approved on a store of valid
    documents and never issued is promoted by the overdue sweep once its
    due date has passed, can then be returned (with a body the schema
    accepts: a condition that is absent, empty or in the enum, and notes
    that can be cast to a string), and this return puts the equipment
    collection back to what it was before the approval. *)
Theorem approve_overdue_return_round_trip (now1 now2 now3 : Z) (req1 req3 : Req)
    (s : Store) (b : Borrowing.t) (e : Equipment.t) :
  store_valid s → params_id req3 = params_id req1 →
  borrowings s !! params_id req1 = Some b →
  Borrowing.status b = pending → Borrowing.returnDate b = None →
  equipments s !! Borrowing.equipment b = Some e →
  Borrowing.quantity b ≤ Equipment.availableQuantity e →
  Borrowing.dueDate b < now2 →
  return_condition_valid (PATCH path_return req3) = true →
  let s2 := checkOverdueBorrowings now2 (patch_approve now1 req1 s).1 in
  borrowings s2 !! params_id req1
  = Some (Borrowing.set_status overdue (approved_by now1 req1 b))
  ∧ code (patch_return now3 req3 s2).2 = 200
  ∧ equipments (patch_return now3 req3 s2).1 = equipments s.
Proof.
  intros Hv Hid Hb Hst Hrd He Hle Hdue Hc s2. subst s2.
  rewrite (patch_approve_success now1 req1 s b e) by done. cbn [fst].
  pose proof (store_valid_approved now1 req1 s b e Hv Hb He Hle) as Hv1.
  set (s1 := mkStore _ _) in *.
  pose proof (store_valid_overdue now2 s1 Hv1) as Hv2.
  assert (borrowings (checkOverdueBorrowings now2 s1) !! params_id req1
          = Some (Borrowing.set_status overdue (approved_by now1 req1 b))) as Hb2.
  { rewrite checkOverdueBorrowings_spec by done. cbn.
    rewrite list_lookup_fmap, list_lookup_insert_eq by (by eapply lookup_lt_Some).
    cbn. unfold promote.
    rewrite (proj2 (overdue_query_spec now2 (approved_by now1 req1 b))); [done|].
    cbn. split_and!; [by left|done|done]. }
  assert (equipments (checkOverdueBorrowings now2 s1) !! Borrowing.equipment b
          = Some (Equipment.set_availableQuantity
                    (Equipment.availableQuantity e - Borrowing.quantity b) e)) as He2.
  { rewrite checkOverdueBorrowings_spec by done. cbn.
    apply list_lookup_insert_eq. by eapply lookup_lt_Some. }
  split; [done|].
  rewrite <- Hid in Hb2.
  rewrite (patch_return_cases now3 req3 _ _ _ Hv2 Hb2 (or_intror eq_refl) He2).
  rewrite returned_by_valid_iff, Hc
    by (cbn; by destruct (valid_borrowing s _ b Hv Hb) as (_ & ? & _)).
  cbn. split; [done|].
  rewrite checkOverdueBorrowings_spec by done. cbn.
  rewrite list_insert_insert_eq. apply list_insert_id.
  rewrite He. f_equal. destruct e as [q a c act]. cbn.
  unfold Equipment.set_availableQuantity. cbn. f_equal. lia.
Qed.

Lemma approve_overdue_return_round_trip_witness :
  let s := run requested empty_store in
  equipments (patch_return 1001 staff_req
                (checkOverdueBorrowings 1000 (patch_approve 2 staff_req s).1)).1
  = equipments s.
Proof.
  intros s.
  assert (store_valid s) as Hv by (split; repeat constructor).
  refine (proj2 (proj2 (approve_overdue_return_round_trip 2 1000 1001
            staff_req staff_req s
            (Borrowing.mk 3 0 3 1 700 None pending None None None "good"
               None None DamageReport.initial)
            (Equipment.mk 5 5 "good" true) Hv eq_refl eq_refl eq_refl eq_refl
            eq_refl _ _ eq_refl))).
  - change (3 ≤ 5). lia.
  - change (700 < 1000). lia.
Defined.

(** ** The read-only routes *)

(** X17. GET /api/borrowings returns exactly the stored reservations
    that pass its filter: for a student, those whose borrower is the
    caller, whatever [user] the query string names; for staff and admin,
    those of the queried user when one is given, all otherwise; narrowed
    in both cases to the queried status when it is a non-empty string. *)
Theorem get_borrowings_spec (req : ListReq) (s : Store) (id : nat)
    (b : Borrowing.t) :
  (id, b) ∈ get_borrowings req s
  ↔ borrowings s !! id = Some b
    ∧ (list_role req = student → Borrowing.user b = list_user_id req)
    ∧ (list_role req ≠ student →
       ∀ u, query_user req = Some u → Borrowing.user b = u)
    ∧ (truthy (query_status req) = true →
       query_status req = Some (status_name (Borrowing.status b))).
Proof.
  unfold get_borrowings. rewrite elem_of_reverse, elem_of_find_in.
  apply and_iff_compat_l.
  assert (filter_user (borrowings_filter req)
          = if bool_decide (list_role req = student)
            then Some (list_user_id req) else query_user req) as Hfu.
  { unfold borrowings_filter.
    destruct (list_role req), (query_user req) as [u|],
      (truthy (query_status req)); cbn;
      rewrite ?bool_decide_eq_true_2 by (by eexists); done. }
  assert (filter_status (borrowings_filter req)
          = if truthy (query_status req) then query_status req else None) as Hfs.
  { unfold borrowings_filter.
    destruct (bool_decide (list_role req = student)),
      (truthy (query_status req)), (_ && _); done. }
  unfold filter_matches. rewrite Hfu, Hfs, andb_true_iff.
  assert ((match (if truthy (query_status req) then query_status req else None)
           with
           | Some st => String.eqb (status_name (Borrowing.status b)) st
           | None => true
           end = true)
          ↔ (truthy (query_status req) = true →
             query_status req = Some (status_name (Borrowing.status b)))) as ->.
  { destruct (truthy (query_status req)) eqn:Ht; [|done].
    destruct (query_status req) as [st|]; [|done].
    rewrite String.eqb_eq. split; [by intros ->|].
    intros H. by injection (H eq_refl). }
  destruct (list_role req) eqn:Hrole.
  - rewrite bool_decide_eq_true_2 by done.
    rewrite Nat.eqb_eq. split; [by intros [-> ?]|]. intros (H & _ & ?).
    split; [by apply H|done].
  - rewrite bool_decide_eq_false_2 by done.
    destruct (query_user req) as [u|]; rewrite ?Nat.eqb_eq; split.
    + intros [-> ?]. split_and!; [done| |done]. by intros _ ? [= ->].
    + intros (_ & H & ?). split; [by apply H|done].
    + intros [_ ?]. by split_and!.
    + by intros (_ & _ & ?).
  - rewrite bool_decide_eq_false_2 by done.
    destruct (query_user req) as [u|]; rewrite ?Nat.eqb_eq; split.
    + intros [-> ?]. split_and!; [done| |done]. by intros _ ? [= ->].
    + intros (_ & H & ?). split; [by apply H|done].
    + intros [_ ?]. by split_and!.
    + by intros (_ & _ & ?).
Qed.

Lemma find_in_ext {A} (q q' : nat → A → bool) (l : list A) :
  (∀ i x, q i x = q' i x) → find_in q l = find_in q' l.
Proof. intros Hq. unfold find_in. apply List.filter_ext. by intros [i x]. Qed.

(** X18. GET /api/users/:id/borrowings returns the same reservations in
    the same order as GET /api/borrowings called by a staff member or an
    admin with [user=id] and no status in the query string. *)
Theorem get_user_borrowings_as_query (id caller : nat) (role : Role) (s : Store) :
  role ≠ student →
  get_user_borrowings id s
  = get_borrowings (mkListReq caller role None (Some id)) s.
Proof.
  intros Hrole. unfold get_user_borrowings, get_borrowings. f_equal.
  apply find_in_ext. intros _ b.
  unfold filter_matches, borrowings_filter.
  destruct role; [done|..]; cbn; by rewrite andb_true_r.
Qed.

Lemma get_user_borrowings_as_query_witness :
  get_user_borrowings 3 (run lent empty_store)
  = get_borrowings (mkListReq 7 admin None (Some 3%nat)) (run lent empty_store).
Proof. by apply get_user_borrowings_as_query. Defined.

(** ** The equipment routes *)

(** X19. DELETE /api/equipment/:id on an existing document only clears
    its active flag (quantity, available quantity and condition stay, no
    reservation is touched) and deleting again changes nothing more.
    Afterwards GET /api/equipment/:id still answers 200 with the
    document, while POST /api/borrowings for it is refused (400 when the
    body fails validation, 404 otherwise) without writing anything. *)
Theorem soft_delete_behaviour (id : nat) (s : Store) (e : Equipment.t) :
  equipments s !! id = Some e →
  let s' := mkStore (<[id := Equipment.set_isActive false e]> (equipments s))
              (borrowings s) in
  delete_equipment id s
  = (s', mkResponse 200 (JMessage "Equipment deleted successfully"))
  ∧ (delete_equipment id s').1 = s'
  ∧ get_equipment id s'
    = (s', mkResponse 200 (JEquipment (Equipment.set_isActive false e)))
  ∧ ∀ now user rb, equipmentId rb = Some id →
      (post_borrowing now user rb s').1 = s'
      ∧ (code (post_borrowing now user rb s').2 = 400
         ∨ post_borrowing now user rb s'
           = (s', mkResponse 404 (JMessage "Equipment not found"))).
Proof.
  intros He s'.
  assert (equipments s' !! id = Some (Equipment.set_isActive false e)) as He'.
  { cbn. apply list_lookup_insert_eq. by eapply lookup_lt_Some. }
  split_and!.
  - unfold delete_equipment. unfold_handler. cbn. by rewrite He.
  - unfold delete_equipment. unfold_handler. cbn [negb andb].
    rewrite He'. cbn. by rewrite list_insert_insert_eq.
  - unfold get_equipment. unfold_handler. by rewrite He'.
  - intros now user rb Hid. unfold post_borrowing. unfold_handler.
    case_bool_decide as Hnil; cbn [negb]; [|split; [done|by left]].
    apply equipmentId_Some in Hid.
    rewrite Hid. cbn [fst snd]. rewrite He'. cbn. split; [done|by right].
Qed.

Lemma soft_delete_behaviour_witness :
  code (post_borrowing 2 3 three_balls (delete_equipment 0 stocked).1).2 = 404.
Proof.
  destruct (soft_delete_behaviour 0 stocked (Equipment.mk 5 5 "good" true) eq_refl)
    as (Hdel & _ & _ & Hpost).
  rewrite Hdel. cbn [fst].
  destruct (Hpost 2 3%nat three_balls eq_refl) as [_ [Hc|Hc]].
  - vm_compute in Hc. discriminate.
  - by rewrite Hc.
Defined.

(** X20. POST /api/equipment answers 201 exactly when the request
    validators pass (name non-empty, category and condition in their
    enums, integer quantity at least 1), the schema accepts the document
    (every value of the body can be cast, and the name is more than white
    space) and MongoDB takes the insert.  The new document is appended with
    available quantity equal to its quantity, whatever [availableQuantity]
    the body carried, condition "good" and active unless the body says
    otherwise; existing documents are untouched.  When a validator of the
    route fails the answer is 400 with the messages, when the schema
    refuses the document it is 400 "Validation error", when MongoDB
    refuses the insert it is 500, and nothing is written. *)
Theorem post_equipment_behaviour (rb : EquipmentBody.t) (s : Store) :
  (code (post_equipment rb s).2 = 201
   ↔ equipment_validationResult rb = [] ∧ new_equipment_valid rb = true
     ∧ EquipmentBody.verdict rb = EquipmentBody.takes)
  ∧ (equipment_validationResult rb ≠ [] →
     post_equipment rb s
     = (s, mkResponse 400 (JErrors (equipment_validationResult rb))))
  ∧ (equipment_validationResult rb = [] → new_equipment_valid rb = false →
     post_equipment rb s
     = (s, mkResponse 400 (JValidation "Validation error")))
  ∧ (equipment_validationResult rb = [] → new_equipment_valid rb = true →
     EquipmentBody.verdict rb ≠ EquipmentBody.takes →
     post_equipment rb s = (s, mkResponse 500 (JMessage "Server error")))
  ∧ (equipment_validationResult rb = [] → new_equipment_valid rb = true →
     EquipmentBody.verdict rb = EquipmentBody.takes →
     ∃ q, EquipmentBody.quantity rb = Some q ∧ 1 ≤ q
        ∧ let e := Equipment.mk q q (default "good" (EquipmentBody.condition rb))
                     (default true (EquipmentBody.isActive rb)) in
          post_equipment rb s
          = (mkStore (equipments s ++ [e]) (borrowings s),
             mkResponse 201 (JEquipment e))).
Proof.
  assert (equipment_validationResult rb = [] →
     ∃ q, EquipmentBody.quantity rb = Some q ∧ 1 ≤ q
        ∧ let e := Equipment.mk q q (default "good" (EquipmentBody.condition rb))
                     (default true (EquipmentBody.isActive rb)) in
          post_equipment rb s
          = if new_equipment_valid rb
            then match EquipmentBody.verdict rb with
                 | EquipmentBody.takes =>
                     (mkStore (equipments s ++ [e]) (borrowings s),
                      mkResponse 201 (JEquipment e))
                 | _ => (s, mkResponse 500 (JMessage "Server error"))
                 end
            else (s, mkResponse 400 (JValidation "Validation error"))) as Hok.
  { intros Hnil. unfold post_equipment. unfold_handler. rewrite Hnil.
    unfold equipment_validationResult in Hnil.
    apply app_eq_nil in Hnil as [_ Hnil]. apply app_eq_nil in Hnil as [_ Hnil].
    apply app_eq_nil in Hnil as [Hq Hc].
    destruct (EquipmentBody.quantity rb) as [q|]; [|done].
    destruct (Z.leb_spec 1 q) as [Hle|]; [|done].
    exists q. split_and!; [done|done|]. cbn.
    destruct (new_equipment_valid rb); [|done].
    assert (Equipment.validate
              (Equipment.mk q q (default "good" (EquipmentBody.condition rb))
                 (default true (EquipmentBody.isActive rb))) = true) as Hvalid.
    { unfold Equipment.validate. cbn.
      destruct (Z.leb_spec 0 q); [|lia]. cbn.
      destruct (EquipmentBody.condition rb) as [c|]; [|done]. cbn.
      by destruct (isIn c equipmentConditions). }
    unfold Equipment_save_refused. cbn.
    destruct (EquipmentBody.verdict rb); cbn; by rewrite Hvalid. }
  assert (equipment_validationResult rb ≠ [] →
     post_equipment rb s
     = (s, mkResponse 400 (JErrors (equipment_validationResult rb)))) as Hbad.
  { intros Hne. unfold post_equipment. unfold_handler.
    by rewrite bool_decide_eq_false_2. }
  split_and!; [|done| | |].
  - split.
    + intros Hc. destruct (decide (equipment_validationResult rb = [])) as [Hnil|Hne].
      * split; [done|]. destruct (Hok Hnil) as (q & _ & _ & Heq).
        rewrite Heq in Hc.
        destruct (new_equipment_valid rb); [|done].
        by destruct (EquipmentBody.verdict rb).
      * rewrite Hbad in Hc by done. done.
    + intros (Hnil & Hv & Ht).
      destruct (Hok Hnil) as (q & _ & _ & ->). by rewrite Hv, Ht.
  - intros Hnil Hv. destruct (Hok Hnil) as (q & _ & _ & ->). by rewrite Hv.
  - intros Hnil Hv Ht. destruct (Hok Hnil) as (q & _ & _ & ->). rewrite Hv.
    by destruct (EquipmentBody.verdict rb).
  - intros Hnil Hv Ht. destruct (Hok Hnil) as (q & ? & ? & Heq).
    exists q. rewrite Hv, Ht in Heq. done.
Qed.

Lemma post_equipment_behaviour_witness :
  post_equipment
    (EquipmentBody.mk (Some "Microscope") (Some "lab") (Some 10) (Some 99) None None)
    empty_store
  = (mkStore [Equipment.mk 10 10 "good" true] [],
     mkResponse 201 (JEquipment (Equipment.mk 10 10 "good" true))).
Proof.
  destruct (post_equipment_behaviour
              (EquipmentBody.mk (Some "Microscope") (Some "lab") (Some 10)
                 (Some 99) None None) empty_store) as (_ & _ & _ & _ & H).
  destruct (H eq_refl) as (q & Hq & _ & ->);
    [vm_compute; reflexivity|reflexivity|].
  injection Hq as <-. reflexivity.
Defined.

(** A name of one space passes [notEmpty()] and fails the schema. *)
Lemma post_equipment_blank_name :
  post_equipment
    (EquipmentBody.mk (Some " ") (Some "lab") (Some 10) None None None) empty_store
  = (empty_store, mkResponse 400 (JValidation "Validation error")).
Proof. vm_compute. reflexivity. Qed.



(** ** The buttons of the Manage Requests page *)

(** X22. Every action the Manage Requests page offers for a stored
    reservation passes the status check of the route it calls: on a store
    of valid documents the answer is never "Request already processed",
    "Only approved requests can be issued" or "Only issued equipment can
    be returned".  An overdue reservation is offered no action at all,
    although the return route accepts it. *)
Theorem offered_actions_pass_status_check (now : Z) (path : PatchPath)
    (req : Req) (s : Store) (b : Borrowing.t) :
  store_valid s → borrowings s !! params_id req = Some b →
  (path ∈ getActionButtons b →
   ∀ h, dispatch patch_routes path = Some h →
        body (h now req s).2 ≠ JMessage "Request already processed"
        ∧ body (h now req s).2 ≠ JMessage "Only approved requests can be issued"
        ∧ body (h now req s).2 ≠ JMessage "Only issued equipment can be returned")
  ∧ (Borrowing.status b = overdue →
     getActionButtons b = []
     ∧ body (patch_return now req s).2
       ≠ JMessage "Only issued equipment can be returned").
Proof.
  intros Hv Hb.
  assert (Borrowing.status b = issued ∨ Borrowing.status b = overdue →
          body (patch_return now req s).2 ≠ JMessage "Request already processed"
          ∧ body (patch_return now req s).2
            ≠ JMessage "Only approved requests can be issued"
          ∧ body (patch_return now req s).2
            ≠ JMessage "Only issued equipment can be returned") as Hret.
  { intros Hst%status_in_issued_overdue. unfold patch_return. unfold_handler.
    rewrite Hb, Hst. cbn.
    destruct (equipments s !! Borrowing.equipment b); [|done].
    destruct (Equipment.validate _); [|done]. cbn.
    destruct (castable _); [|done].
    by destruct (Borrowing.validate _). }
  split.
  - intros Hin h Hh. unfold getActionButtons in Hin.
    destruct (Borrowing.status b) eqn:Hst;
      try (by apply elem_of_nil in Hin);
      repeat (apply elem_of_cons in Hin as [->|Hin]);
      try (by apply elem_of_nil in Hin);
      injection Hh as <-.
    + unfold patch_approve. unfold_handler.
      rewrite Hb, bool_decide_eq_true_2 by done. cbn.
      destruct (equipments s !! Borrowing.equipment b); [|done].
      destruct (_ <? _); [done|]. cbn.
      destruct (Equipment.validate _); [|done]. cbn.
      by destruct (Borrowing.validate _).
    + unfold patch_reject. unfold_handler.
      rewrite Hb, bool_decide_eq_true_2 by done. cbn.
      destruct (castable _); [|done].
      by destruct (Borrowing.validate _).
    + unfold patch_issue. unfold_handler.
      rewrite Hb, bool_decide_eq_true_2 by done. cbn.
      by destruct (Borrowing.validate _).
    + apply Hret. by left.
  - intros Hst. split; [unfold getActionButtons; by rewrite Hst|].
    apply Hret. by right.
Qed.

Lemma offered_actions_pass_status_check_witness :
  body (patch_issue 3 staff_req (patch_approve 2 staff_req
                                   (run requested empty_store)).1).2
  ≠ JMessage "Only approved requests can be issued".
Proof.
  assert (store_valid (patch_approve 2 staff_req (run requested empty_store)).1)
    as Hv by (split; repeat constructor).
  destruct (offered_actions_pass_status_check 3 path_issue staff_req _
              (Borrowing.mk 3 0 3 1 700 None approved (Some 7%nat) (Some 2) None
                 "good" None None DamageReport.initial) Hv eq_refl) as [H _].
  refine (proj1 (proj2 (H _ patch_issue eq_refl))).
  by left.
Defined.
